(** * Quantum analytic cache and aggregation engine of quality_backend (src/index.js)

    Shallow embedding of [fetchAllUnitsData], [getQuantumData],
    [updateQuantumLiveData], the [/api/quantum/*] handlers, the paged
    [uqe_data] handlers of [/api/quality/*], the login, password and restart
    handlers, the CORS configuration and [formatDateToYYYYMMDD].

    Modelling choices:
    - a spreadsheet cell is a JS number, string or Date (sheet_to_json with
      [cellDates: true]); a row is the object's own properties in insertion
      order; a missing property is [undefined] ([None]);
    - JS numbers are modelled by rationals, NaN by [None] where the code can
      produce it; the sums of sheet values are kept exact (they are for the
      integer counters below 2^53), each quotient or product that the code
      prints is rounded to the nearest binary64 value ([dbl]) as the engine
      does, and [toFixed(2)] rounds the exact value of that double; overflow
      to Infinity is outside the model;
    - the runtime primitives whose result depends on the engine or the time
      zone ([new Date(v)] followed by the local calendar date, [Number] of a
      string, [String] of a number or of a Date) are Section variables: every
      definition and theorem holds for all of them. *)

From Stdlib Require Import ZArith QArith Qround Lqa String Ascii List Bool Lia.
From Stdlib Require Import Permutation Sorted Relations.
Import ListNotations.

(** ** JS values *)

Inductive cell : Type :=
| CNum (q : Q)
| CStr (s : string)
| CDate (t : Z).

(** A row: own properties of the object, in insertion order. *)
Definition row := list (string * cell).

(** A JS number that may be NaN. *)
Definition jsnum := option Q.

Definition nadd (a b : jsnum) : jsnum :=
  match a, b with Some x, Some y => Some (x + y)%Q | _, _ => None end.

(** [r[k]]: the first binding (objects have unique keys). *)
Fixpoint prop (r : row) (k : string) : option cell :=
  match r with
  | [] => None
  | (k', v) :: r' => if String.eqb k' k then Some v else prop r' k
  end.

(** Truthiness of a value that may be [undefined]. *)
Definition truthy (v : option cell) : bool :=
  match v with
  | None => false
  | Some (CNum q) => negb (Qeq_bool q 0)
  | Some (CStr s) => negb (String.eqb s EmptyString)
  | Some (CDate _) => true
  end.

Definition str_truthy (s : option string) : bool :=
  match s with None => false | Some s => negb (String.eqb s EmptyString) end.

(** [a || b] *)
Definition js_or (a b : option cell) : option cell := if truthy a then a else b.

Definition zero : option cell := Some (CNum 0).
Definition str (s : string) : option cell := Some (CStr s).

(** [x || 0] on a number: NaN and 0 both give 0. *)
Definition num_or0 (n : jsnum) : Q := match n with Some q => q | None => 0%Q end.

(** ASCII [toLowerCase]. *)
Definition lower_ascii (c : ascii) : ascii :=
  let n := nat_of_ascii c in
  if (65 <=? n)%nat && (n <=? 90)%nat then ascii_of_nat (n + 32) else c.

Fixpoint to_lower (s : string) : string :=
  match s with
  | EmptyString => EmptyString
  | String c s' => String (lower_ascii c) (to_lower s')
  end.

(** [Object.keys(curr).find(k => k.toLowerCase() === col.toLowerCase())] *)
Definition find_key_ci (r : row) (col : string) : option string :=
  option_map fst (find (fun kv => String.eqb (to_lower (fst kv)) (to_lower col)) r).

(** [curr[actualCol || col]] *)
Definition resolve_ci (r : row) (col : string) : option cell :=
  prop r (match find_key_ci r col with Some k => k | None => col end).

(** Decimal rendering of an integer. *)
Fixpoint digits_pos (fuel : nat) (n : Z) (acc : string) : string :=
  match fuel with
  | O => acc
  | S f =>
      let d := Z.modulo n 10 in
      let acc' := String (ascii_of_nat (48 + Z.to_nat d)) acc in
      if (n <? 10)%Z then acc' else digits_pos f (n / 10)%Z acc'
  end.

Definition zstr (n : Z) : string :=
  if (n <? 0)%Z then String "-" (digits_pos 64 (- n) EmptyString)
  else digits_pos 64 n EmptyString.

(** [String(n).padStart(2, '0')] *)
Definition pad2 (n : Z) : string :=
  let s := zstr n in if (String.length s <? 2)%nat then String "0" s else s.

(** [formatDateToYYYYMMDD] on a valid Date with local date (y, m, d). *)
Definition format_ymd (ymd : Z * Z * Z) : string :=
  let '(y, m, d) := ymd in (zstr y ++ "-" ++ pad2 m ++ "-" ++ pad2 d)%string.

(** [2^k] for an exponent of either sign. *)
Definition pow2Q (k : Z) : Q :=
  if (0 <=? k)%Z then inject_Z (2 ^ k) else 1 # Z.to_pos (2 ^ (- k)).

(** The binary64 value nearest to [x], ties to even: a 53-bit significand,
    exponents down to the subnormal range (2^-1074). This is the result of a
    JS division or multiplication whose exact value is [x]. *)
Definition dbl (x : Q) : Q :=
  let a := Z.abs (Qnum x) in
  let d := Zpos (Qden x) in
  if (a =? 0)%Z then 0%Q else
  let l := (Z.log2 a - Z.log2 d)%Z in
  (* floor (log2 (a / d)) is l or l - 1 *)
  let k := if (if (0 <=? l)%Z then (d * 2 ^ l <=? a)%Z else (d <=? a * 2 ^ (- l))%Z)
           then l else (l - 1)%Z in
  let e := Z.max (k - 52) (-1074) in
  let num := if (e <? 0)%Z then (a * 2 ^ (- e))%Z else a in
  let den := if (e <? 0)%Z then d else (d * 2 ^ e)%Z in
  let m := (num / den)%Z in
  let r := (num mod den)%Z in
  let m' := if (den <? 2 * r)%Z || ((2 * r =? den)%Z && Z.odd m) then (m + 1)%Z else m in
  (inject_Z (Z.sgn (Qnum x) * m') * pow2Q e)%Q.

(** [x.toFixed(2)] on a double: the integer n nearest to 100x, the larger one
    on a tie, printed with two decimals; NaN prints as "NaN". *)
Definition fixed2_nonneg (x : Q) : string :=
  let n := Qfloor (x * 100 + (1 # 2)) in
  (zstr (n / 100) ++ "." ++ pad2 (n mod 100))%string.

(** [v.toFixed(2)] where [v] is the double computed for the exact value [x]. *)
Definition to_fixed2 (x : jsnum) : string :=
  match x with
  | None => "NaN"
  | Some q0 => let q := dbl q0 in
              if Qlt_le_dec q 0 then ("-" ++ fixed2_nonneg (- q))%string
              else fixed2_nonneg q
  end.

(** ** Generic list helpers for the JS collection idioms *)

(** Stable insertion sort: [before x y] is [compare(x, y) < 0]. *)
Fixpoint insert_by {A} (before : A -> A -> bool) (x : A) (l : list A) : list A :=
  match l with
  | [] => [x]
  | y :: l' => if before x y then x :: l else y :: insert_by before x l'
  end.

Definition sort_by {A} (before : A -> A -> bool) (l : list A) : list A :=
  fold_left (fun acc x => insert_by before x acc) l [].

(** [[...new Set(l)]]: first occurrences, in order. *)
Definition dedup {A} (eqb : A -> A -> bool) (l : list A) : list A :=
  rev (fold_left (fun acc x => if existsb (eqb x) acc then acc else x :: acc) l []).

Fixpoint filter_some {A} (l : list (option A)) : list A :=
  match l with
  | [] => []
  | Some x :: l' => x :: filter_some l'
  | None :: l' => filter_some l'
  end.

Definition opt_str_eqb (a b : option string) : bool :=
  match a, b with
  | None, None => true
  | Some x, Some y => String.eqb x y
  | _, _ => false
  end.

(** SameValueZero on cells; distinct Date objects are never equal. *)
Definition cell_same (a b : option cell) : bool :=
  match a, b with
  | None, None => true
  | Some (CNum x), Some (CNum y) => Qeq_bool x y
  | Some (CStr x), Some (CStr y) => String.eqb x y
  | _, _ => false
  end.

Definition units_all : list string := ["U-1"; "U-2"; "U-3"; "U-4"; "U-5"; "U-6"]%string.

(** [cachedUnitsData]: unit key to rows, keys in insertion order. *)
Definition cache := list (string * list row).

Fixpoint cache_get (c : cache) (u : string) : option (list row) :=
  match c with
  | [] => None
  | (u', rs) :: c' => if String.eqb u' u then Some rs else cache_get c' u
  end.

(** ** JS objects: own and inherited properties *)

(** The properties every object literal inherits from [Object.prototype]
    (all of them functions, or an object for [__proto__]: truthy). *)
Definition object_prototype_keys : list string :=
  ["constructor"; "__defineGetter__"; "__defineSetter__"; "hasOwnProperty";
   "__lookupGetter__"; "__lookupSetter__"; "isPrototypeOf"; "propertyIsEnumerable";
   "toString"; "valueOf"; "__proto__"; "toLocaleString"]%string.

Definition is_proto_key (k : string) : bool := existsb (String.eqb k) object_prototype_keys.

(** [cachedUnitsData[unit] || []] for one of the six unit names, which are
    never keys of [Object.prototype] ([fetchAllUnitsData]). *)
Definition unit_rows (c : cache) (u : string) : list row :=
  match cache_get c u with Some rs => rs | None => [] end.

(** [cachedUnitsData[u]] for any [u]: the rows of an own key, an inherited
    property of [Object.prototype] (a function, or the prototype object
    itself for [__proto__]), or [undefined]. *)
Inductive cache_lookup :=
| CRows (rs : list row)
| CInherited (k : string)
| CUndefined.

Definition cache_prop (c : cache) (u : string) : cache_lookup :=
  match cache_get c u with
  | Some rs => CRows rs
  | None => if is_proto_key u then CInherited u else CUndefined
  end.

(** [.length] of an inherited property: the arity of the method,
    [undefined] for [Object.prototype] itself. *)
Definition proto_length (k : string) : option Z :=
  if String.eqb k "__proto__" then None
  else if String.eqb k "__defineGetter__" || String.eqb k "__defineSetter__" then Some 2%Z
  else if String.eqb k "toString" || String.eqb k "valueOf" || String.eqb k "toLocaleString"
  then Some 0%Z
  else Some 1%Z.

Definition is_some {A} (o : option A) : bool := match o with Some _ => true | None => false end.

Definition alarm_columns : list string :=
  ["NSABlks"; "LABlks"; "TABlks"; "CABlks"; "CCABlks";
   "FABlks"; "PPABlks"; "PFABlks"; "CVpABlks"; "HpABlks"; "CMTABlks"]%string.

Definition cut_columns : list string :=
  ["YarnFaults"; "YarnJoints"; "YarnBreaks"; "NCuts"; "SCuts"; "LCuts"; "TCuts";
   "FDCuts"; "PPCuts"]%string.

Definition quality_columns : list string :=
  ["Thin50"; "Thick50"; "Nep200"; "CVAvg"; "HAvg"; "IPI"; "HSIPI"]%string.

(** ** Accumulators *)

(** [{ sum: 0, count: 0, refLength: 0 }] *)
Record qacc := { q_sum : jsnum; q_count : nat; q_ref : Q }.

Definition qacc0 : qacc := {| q_sum := Some 0%Q; q_count := 0; q_ref := 0%Q |}.

Definition qacc_add (a : qacc) (v : jsnum) (rl : Q) : qacc :=
  {| q_sum := nadd a.(q_sum) v; q_count := S a.(q_count); q_ref := (a.(q_ref) + rl)%Q |}.

(** Per-column objects ([cuts], [alarmBreakdown], [quality]), keys in column order. *)
Definition nmap := list (string * Q).
Definition qmap := list (string * qacc).

Definition nmap0 (cols : list string) : nmap := map (fun c => (c, 0%Q)) cols.
Definition qmap0 : qmap := map (fun c => (c, qacc0)) quality_columns.

Fixpoint lookup {A} (d : A) (m : list (string * A)) (k : string) : A :=
  match m with
  | [] => d
  | (k', a) :: m' => if String.eqb k' k then a else lookup d m' k
  end.

Definition nget (m : nmap) (k : string) : Q := lookup 0%Q m k.
Definition qget (m : qmap) (k : string) : qacc := lookup qacc0 m k.

(** [obj[k] = init] when absent, then [obj[k] := f obj[k]]; new keys go last. *)
Fixpoint upsert {A} (k : string) (init : A) (f : A -> A) (m : list (string * A))
  : list (string * A) :=
  match m with
  | [] => [(k, f init)]
  | (k', a) :: m' => if String.eqb k' k then (k', f a) :: m' else (k', a) :: upsert k init f m'
  end.

(** [Object.values]: array-index keys first in ascending order, then the
    other keys in insertion order. *)
Fixpoint digits_val (s : string) (acc : Z) : option Z :=
  match s with
  | EmptyString => Some acc
  | String c s' =>
      let n := nat_of_ascii c in
      if (48 <=? n)%nat && (n <=? 57)%nat then digits_val s' (acc * 10 + Z.of_nat (n - 48))%Z
      else None
  end.

Definition array_index (s : string) : option Z :=
  match s with
  | EmptyString => None
  | String c s' =>
      if String.eqb s "0" then Some 0%Z
      else if Ascii.eqb c "0"%char then None
      else match digits_val s 0 with
           | Some n => if (n <=? 4294967294)%Z then Some n else None
           | None => None
           end
  end.

Definition index_before {A} (x y : string * A) : bool :=
  match array_index (fst x), array_index (fst y) with
  | Some i, Some j => (i <? j)%Z
  | _, _ => false
  end.

Definition object_values {A} (m : list (string * A)) : list A :=
  map snd (sort_by index_before (filter (fun kv => is_some (array_index (fst kv))) m)
           ++ filter (fun kv => negb (is_some (array_index (fst kv)))) m).

Definition Qltb (x y : Q) : bool := negb (Qle_bool y x).

(** Quotient of a possibly-NaN sum by a number. *)
Definition ndiv (a : jsnum) (b : Q) : jsnum := option_map (fun x => (x / b)%Q) a.

(** The result fields that are either a number or a string. *)
Inductive jsv := VNum (q : Q) | VStr (s : string).

(** [(cuts[col] / yarnLength * 100).toFixed(2)], ['0.00'] for no length. *)
Definition cut_rate (cuts : nmap) (yl : Q) (col : string) : string :=
  if Qltb 0 yl then to_fixed2 (Some (dbl (nget cuts col / yl) * 100)%Q) else "0.00".

(** Quality value: mean for [CVAvg] and [HAvg], otherwise per reference length. *)
Definition quality_out (qm : qmap) (col : string) : string :=
  let st := qget qm col in
  if String.eqb col "CVAvg" || String.eqb col "HAvg" then
    if (0 <? st.(q_count))%nat then to_fixed2 (ndiv st.(q_sum) (inject_Z (Z.of_nat st.(q_count))))
    else "0.00"
  else if Qltb 0 st.(q_ref) then to_fixed2 (ndiv st.(q_sum) st.(q_ref)) else "0.00".

Definition cut_rates (cuts : nmap) (yl : Q) : list (string * string) :=
  map (fun c => (c, cut_rate cuts yl c)) cut_columns.

Definition quality_outs (qm : qmap) : list (string * string) :=
  map (fun c => (c, quality_out qm c)) quality_columns.

(** ** A concrete runtime: UTC time zone, decimal integer strings *)
Module Utc.

(** Civil date of a day count since 1970-01-01 (proleptic Gregorian). *)
Definition civil_from_days (days : Z) : Z * Z * Z :=
  let z := (days + 719468)%Z in
  let era := (z / 146097)%Z in
  let doe := (z - era * 146097)%Z in
  let yoe := ((doe - doe / 1460 + doe / 36524 - doe / 146096) / 365)%Z in
  let doy := (doe - (365 * yoe + yoe / 4 - yoe / 100))%Z in
  let mp := ((5 * doy + 2) / 153)%Z in
  let d := (doy - (153 * mp + 2) / 5 + 1)%Z in
  let m := if (mp <? 10)%Z then (mp + 3)%Z else (mp - 9)%Z in
  let y := (yoe + era * 400)%Z in
  ((if (m <=? 2)%Z then y + 1 else y)%Z, m, d).

Definition ms_per_day : Z := 86400000.

Definition valid_time (t : Z) : bool := (Z.abs t <=? 8640000000000000)%Z.

Definition local_ymd (c : cell) : option (Z * Z * Z) :=
  match c with
  | CDate t => if valid_time t then Some (civil_from_days (t / ms_per_day)) else None
  | CNum q =>
      let t := Z.quot (Qnum q) (Zpos (Qden q)) in
      if valid_time t then Some (civil_from_days (t / ms_per_day)) else None
  | CStr _ => None
  end.

Definition str_to_num (s : string) : option Q :=
  if String.eqb s EmptyString then Some 0%Q
  else option_map inject_Z (match s with EmptyString => None | _ => digits_val s 0 end).

Definition num_to_string (q : Q) : string :=
  if (Zpos (Qden q) =? 1)%Z then zstr (Qnum q)
  else (zstr (Qnum q) ++ "/" ++ zstr (Zpos (Qden q)))%string.

Definition date_to_string (t : Z) : string := zstr t.

(** Midnight UTC of a day in January 2024. *)
Definition jan2024 (d : Z) : cell := CDate ((19723 + d - 1) * ms_per_day)%Z.

(** Sample rows for the examples: a date in January 2024, a shift number and
    a yarn length, then further properties. *)
Definition sample_row (d : Z) (shift yl : Q) (extra : row) : row :=
  [("Date", jan2024 d); ("ShiftNumber", CNum shift); ("YarnLength", CNum yl)]%string ++ extra.


(** Rows dated 2024-01-01, 2024-01-02 and 2024-01-03. *)
Definition three_days : list row :=
  [sample_row 1 1 1000 []; sample_row 2 1 1000 []; sample_row 3 1 1000 []].


(** A row of 300 m with 6 cuts, and a row of 200 m with none. *)
Definition long_row : row :=
  [("ShiftStartTime", jan2024 3); ("YarnLength", CNum 300); ("NCuts", CNum 6);
   ("MachineName", CStr "M1")]%string.
Definition short_row : row :=
  [("ShiftStartTime", jan2024 3); ("YarnLength", CNum 200); ("NCuts", CNum 0);
   ("MachineName", CStr "M2")]%string.

(** Shift 1 of 2024-01-02 with 1000 m, and 100 m of shift 1 on 2024-01-03. *)
Definition day2_row : row := sample_row 2 1 1000 [("YarnFaults", CNum 5)]%string.
Definition day3_short_row : row := sample_row 3 1 100 [].

(** One row of shift 3 on 2024-01-03. *)
Definition shift3_row : row := sample_row 3 3 1000 [].



End Utc.

Section Engine.

(** [new Date(v)] read back through getFullYear / getMonth()+1 / getDate;
    [None] for an Invalid Date. Depends on the date parser and time zone. *)
Variable local_ymd : cell -> option (Z * Z * Z).
(** [Number(s)] on a string; [None] is NaN. *)
Variable str_to_num : string -> option Q.
(** [String(x)] on a number and on a Date. *)
Variable num_to_string : Q -> string.
Variable date_to_string : Z -> string.

(** [Number(v)] *)
Definition to_number (v : option cell) : jsnum :=
  match v with
  | None => None
  | Some (CNum q) => Some q
  | Some (CStr s) => str_to_num s
  | Some (CDate t) => Some (inject_Z t)
  end.

(** [String(v)] and property keys. *)
Definition to_js_string (v : option cell) : string :=
  match v with
  | None => "undefined"
  | Some (CNum q) => num_to_string q
  | Some (CStr s) => s
  | Some (CDate t) => date_to_string t
  end.

(** *** Per-row field readers, as written inline in the source *)

(** [item.ShiftStartTime || item.shiftstarttime || item.Date] *)
Definition row_date_val (r : row) : option cell :=
  js_or (js_or (prop r "ShiftStartTime") (prop r "shiftstarttime")) (prop r "Date").

(** [if (!dateVal) return null; d = new Date(dateVal);
     isNaN(d.getTime()) ? null : formatDateToYYYYMMDD(d)] *)
Definition row_date (r : row) : option string :=
  let v := row_date_val r in
  if truthy v then
    match v with Some c => option_map format_ymd (local_ymd c) | None => None end
  else None.

(** [formatDateToYYYYMMDD(new Date(dateVal))], without the falsy guard. *)
Definition row_date_unguarded (r : row) : option string :=
  match row_date_val r with
  | Some c => option_map format_ymd (local_ymd c)
  | None => None
  end.

(** [item.ShiftNumber || item.Shift || item.shiftnumber || item.shift] *)
Definition row_shift (r : row) : option cell :=
  js_or (js_or (js_or (prop r "ShiftNumber") (prop r "Shift")) (prop r "shiftnumber"))
        (prop r "shift").

(** [item.MachineName || item.machinename || item.Machine || item.machine] *)
Definition row_machine (r : row) : option cell :=
  js_or (js_or (js_or (prop r "MachineName") (prop r "machinename")) (prop r "Machine"))
        (prop r "machine").

(** [Number(item.YarnLength || item.yarnlength) || 0] *)
Definition yarn_length (r : row) : Q :=
  num_or0 (to_number (js_or (prop r "YarnLength") (prop r "yarnlength"))).

(** [Number(curr.YarnFaults || curr.yarnfaults) || 0] *)
Definition yarn_faults (r : row) : Q :=
  num_or0 (to_number (js_or (prop r "YarnFaults") (prop r "yarnfaults"))).

(** [Number(curr.A || curr.a || 0)]: no [|| 0] after [Number], NaN stays. *)
Definition num2 (r : row) (a a' : string) : jsnum :=
  to_number (js_or (js_or (prop r a) (prop r a')) zero).

(** [Number(curr.IPRefLength || curr.ipreflength || curr.RefLength || 0) || 0] *)
Definition ref_length (r : row) : Q :=
  num_or0 (to_number (js_or (js_or (js_or (prop r "IPRefLength") (prop r "ipreflength"))
                                   (prop r "RefLength")) zero)).

(** [Number(curr.Cuts || curr.cuts || curr.TotalCuts || curr.totalcuts || 0) || 0] *)
Definition total_cuts_val (r : row) : Q :=
  num_or0 (to_number (js_or (js_or (js_or (js_or (prop r "Cuts") (prop r "cuts"))
                                          (prop r "TotalCuts")) (prop r "totalcuts")) zero)).

(** [Number(curr[actualCol || col]) || 0]: alarm, cut and stored quality columns. *)
Definition col_val (r : row) (col : string) : Q :=
  num_or0 (to_number (resolve_ci r col)).

(** The value [val] of a quality column in [getQuantumData]; the source writes
    this block three times (unit, article, machine), with the same text. *)
Definition quality_val (r : row) (col : string) : jsnum :=
  if String.eqb col "IPI" then
    nadd (nadd (num2 r "Thin50" "thin50") (num2 r "Thick50" "thick50")) (num2 r "Nep200" "nep200")
  else if String.eqb col "HSIPI" then
    nadd (nadd (num2 r "Thin40" "thin40") (num2 r "Thick35" "thick35")) (num2 r "Nep140" "nep140")
  else Some (col_val r col).

(** [curr.ArticleNumber || curr.articlenumber || 'Unknown'] *)
Definition art_num (r : row) : option cell :=
  js_or (js_or (prop r "ArticleNumber") (prop r "articlenumber")) (str "Unknown").

(** [curr.MachineName || ... || curr.machine || 'Unknown'] *)
Definition mach_name (r : row) : option cell := js_or (row_machine r) (str "Unknown").

(** Article and machine keys: [articleMap[artNum]], [machines[machineName]]. *)
Definition art_key (r : row) : string := to_js_string (art_num r).
Definition mach_key (r : row) : string := to_js_string (mach_name r).

(** *** Accumulation steps of [getQuantumData] *)

(** [cutColumns.forEach(col => cuts[col] += Number(curr[actualCol || col]) || 0)] *)
Definition nmap_add (m : nmap) (r : row) : nmap :=
  map (fun cv => (fst cv, (snd cv + col_val r (fst cv))%Q)) m.

(** [qualityColumns.forEach(col => { quality[col].sum += val; count += 1;
     refLength += ipRefLength })] *)
Definition qmap_add (m : qmap) (r : row) : qmap :=
  let rl := ref_length r in
  map (fun ca => (fst ca, qacc_add (snd ca) (quality_val r (fst ca)) rl)) m.

(** Alarms of one row: [alarmColumns.forEach(col => total += val)]. *)
Definition row_alarms (r : row) : Q :=
  fold_left (fun acc c => (acc + col_val r c)%Q) alarm_columns 0%Q.

Record mach_acc := {
  m_name : option cell; m_yarn : Q; m_cuts : nmap; m_quality : qmap;
  m_alarms : Q; m_breakdown : nmap }.

Record art_acc := {
  a_num : option cell; a_yarn : Q; a_cuts : nmap; a_quality : qmap;
  a_alarms : Q; a_breakdown : nmap; a_machines : list (string * mach_acc) }.

Definition mach_init (n : option cell) : mach_acc :=
  {| m_name := n; m_yarn := 0; m_cuts := nmap0 cut_columns; m_quality := qmap0;
     m_alarms := 0; m_breakdown := nmap0 alarm_columns |}.

Definition art_init (n : option cell) : art_acc :=
  {| a_num := n; a_yarn := 0; a_cuts := nmap0 cut_columns; a_quality := qmap0;
     a_alarms := 0; a_breakdown := nmap0 alarm_columns; a_machines := [] |}.

Definition mach_step (r : row) (m : mach_acc) : mach_acc :=
  {| m_name := m.(m_name); m_yarn := (m.(m_yarn) + yarn_length r)%Q;
     m_cuts := nmap_add m.(m_cuts) r; m_quality := qmap_add m.(m_quality) r;
     m_alarms := (m.(m_alarms) + row_alarms r)%Q; m_breakdown := nmap_add m.(m_breakdown) r |}.

Definition art_step (r : row) (a : art_acc) : art_acc :=
  let mn := mach_name r in
  {| a_num := a.(a_num); a_yarn := (a.(a_yarn) + yarn_length r)%Q;
     a_cuts := nmap_add a.(a_cuts) r; a_quality := qmap_add a.(a_quality) r;
     a_alarms := (a.(a_alarms) + row_alarms r)%Q; a_breakdown := nmap_add a.(a_breakdown) r;
     a_machines := upsert (to_js_string (mn)) (mach_init mn) (mach_step r) a.(a_machines) |}.

(** One iteration of [records.forEach(curr => { ... articleMap[artNum] ... })],
    for keys that are not properties of [Object.prototype] (see [group_throws]). *)
Definition group_step (m : list (string * art_acc)) (r : row) : list (string * art_acc) :=
  let an := art_num r in upsert (to_js_string an) (art_init an) (art_step r) m.

Definition group_articles (records : list row) : list (string * art_acc) :=
  fold_left group_step records [].

(** When [artNum] (or [machName]) is a key of [Object.prototype],
    [articleMap[artNum]] (or [.machines[machName]]) is the inherited value,
    truthy, so the initialisation is skipped and [.cuts[col] += ...] reads a
    property of [undefined]: a [TypeError]. *)
Definition group_throws (records : list row) : bool :=
  existsb (fun r => is_proto_key (art_key r) || is_proto_key (mach_key r)) records.

Definition sumQ (f : row -> Q) (rs : list row) : Q :=
  fold_left (fun acc r => (acc + f r)%Q) rs 0%Q.

(** *** Filter resolution *)

Record targets := { t_date : option string; t_shift : option cell; t_latest : option cell }.

Definition units_of (unitF : option string) : list string :=
  if str_truthy unitF then match unitF with Some u => [u] | None => [] end else units_all.

(** [if (cachedUnitsData[u]) allRecords = allRecords.concat(cachedUnitsData[u])]:
    an inherited value is not an array, so [concat] appends it as one element;
    it has none of the date and shift properties the prologue reads, so it
    reads as the empty row. *)
Definition unit_pool (c : cache) (u : string) : list row :=
  match cache_prop c u with
  | CRows rs => rs
  | CInherited _ => [[]]
  | CUndefined => []
  end.

(** [units.forEach(u => { ... })] *)
Definition pooled (c : cache) (units : list string) : list row :=
  flat_map (unit_pool c) units.

(** [[...new Set(dates)].filter(Boolean).sort().reverse()] *)
Definition available_dates (all : list row) : list string :=
  rev (sort_by String.ltb (filter_some (dedup opt_str_eqb (map row_date all)))).

(** The comparator [(a, b) => b - a]: [a] goes before [b] when it is negative;
    a NaN result counts as 0. *)
Definition shift_before (a b : option cell) : bool :=
  match to_number a, to_number b with
  | Some x, Some y => Qltb (y - x) 0
  | _, _ => false
  end.

(** [shiftsForDate] *)
Definition shifts_for_date (all : list row) (tdate : string) : list (option cell) :=
  sort_by shift_before
    (filter truthy (dedup cell_same
       (map row_shift (filter (fun r => opt_str_eqb (row_date_unguarded r) (Some tdate)) all)))).

(** [shiftsForDate[0] || 'All'] *)
Definition latest_shift_for_date (all : list row) (tdate : string) : option cell :=
  match shifts_for_date all tdate with
  | s :: _ => js_or s (str "All")
  | [] => str "All"
  end.

(** The defaulting prologue of [getQuantumData]. *)
Definition resolve (c : cache) (dateF shiftF unitF : option string) (isDash : bool) : targets :=
  let units := units_of unitF in
  let is_all := opt_str_eqb shiftF (Some "all"%string) in
  let tshift0 := if is_all then None else option_map CStr shiftF in
  if negb (str_truthy dateF) || (negb (truthy tshift0) && negb is_all) then
    let all := pooled c units in
    match all with
    | [] => {| t_date := dateF; t_shift := tshift0; t_latest := str "All" |}
    | _ :: _ =>
        let dates := available_dates all in
        let tdate :=
          if negb (str_truthy dateF) && (0 <? length dates)%nat then
            (if isDash then (let d1 := nth_error dates 1 in
                             if str_truthy d1 then d1 else nth_error dates 0)
             else nth_error dates 0)
          else dateF in
        match tdate with
        | Some td =>
            if str_truthy tdate then
              let latest := latest_shift_for_date all td in
              {| t_date := tdate;
                 t_shift := if negb (truthy tshift0) && negb is_all then latest else tshift0;
                 t_latest := latest |}
            else {| t_date := tdate; t_shift := tshift0; t_latest := str "All" |}
        | None => {| t_date := tdate; t_shift := tshift0; t_latest := str "All" |}
        end
    end
  else {| t_date := dateF; t_shift := tshift0; t_latest := str "All" |}.

(** The [jsonData.filter(...)] predicate. *)
Definition keep_record (t : targets) (machF : option string) (r : row) : bool :=
  match row_date r with
  | None => false
  | Some ds =>
      (if str_truthy t.(t_date) then opt_str_eqb (Some ds) t.(t_date) else true)
      && (if truthy t.(t_shift) then String.eqb (to_js_string (row_shift r)) (to_js_string t.(t_shift))
          else true)
      && (if str_truthy machF then
            opt_str_eqb (Some (to_js_string (row_machine r))) machF
          else true)
      && negb (Qltb (yarn_length r) 300)
  end.

(** *** Per-unit aggregation of [getQuantumData] *)

Record mach_out := {
  mo_name : option cell; mo_cuts : list (string * string); mo_quality : list (string * string);
  mo_totalAlarms : Q; mo_alarmBreakdown : nmap }.

Record art_out := {
  ao_articleNumber : option cell; ao_cuts : list (string * string);
  ao_quality : list (string * string); ao_totalAlarms : Q; ao_alarmBreakdown : nmap;
  ao_machines : list mach_out }.

Record unit_out := {
  uo_unit : string; uo_yarnFaults : jsv; uo_totalAlarms : Q; uo_alarmsPer1000km : jsv;
  uo_alarmBreakdown : nmap; uo_totalCuts : Q; uo_cutsPer100km : jsv;
  uo_unitCuts : list (string * string); uo_unitQuality : list (string * string);
  uo_shiftStartTime : option string; uo_shiftNumber : option cell;
  uo_latestShift : option cell; uo_articles : list art_out }.

(** [UEmpty u] is the literal
    [{ unit, yarnFaults: 'N/A', shiftStartTime: null, articles: [], latestShift: 'All' }]. *)
Inductive unit_result :=
| UEmpty (u : string)
| UFull (o : unit_out).

(** [unitCuts] *)
Definition unit_cuts (records : list row) : nmap :=
  fold_left nmap_add records (nmap0 cut_columns).

(** [unitQuality] *)
Definition unit_quality (records : list row) : qmap :=
  fold_left qmap_add records qmap0.

(** [totalAlarms] and [alarmBreakdown] ([records.reduce]). *)
Definition alarm_totals (records : list row) : Q * nmap :=
  fold_left (fun acc r => ((fst acc + row_alarms r)%Q, nmap_add (snd acc) r))
            records (0%Q, nmap0 alarm_columns).

Definition mach_out_of (m : mach_acc) : mach_out :=
  {| mo_name := m.(m_name); mo_cuts := cut_rates m.(m_cuts) m.(m_yarn);
     mo_quality := quality_outs m.(m_quality); mo_totalAlarms := m.(m_alarms);
     mo_alarmBreakdown := m.(m_breakdown) |}.

Definition art_out_of (a : art_acc) : art_out :=
  {| ao_articleNumber := a.(a_num); ao_cuts := cut_rates a.(a_cuts) a.(a_yarn);
     ao_quality := quality_outs a.(a_quality); ao_totalAlarms := a.(a_alarms);
     ao_alarmBreakdown := a.(a_breakdown);
     ao_machines := map mach_out_of (object_values a.(a_machines)) |}.

(** The aggregate of a unit whose cached data is non-empty. The source guards
    the accumulation with [records.length > 0]; on no records every fold below
    returns its initial value, which is what the guard leaves in place. *)
Definition aggregate (u : string) (t : targets) (records : list row) : unit_out :=
  let totalFaults := sumQ yarn_faults records in
  let totalLength := sumQ yarn_length records in
  let avgYarnFaults :=
    if Qltb 0 totalLength then VStr (to_fixed2 (Some (dbl (totalFaults / totalLength) * 100)%Q))
    else VNum 0 in
  let alarms := alarm_totals records in
  let totalCuts := sumQ total_cuts_val records in
  let alarmsPer1000km :=
    if Qltb 0 totalLength then VStr (to_fixed2 (Some (dbl (fst alarms / totalLength) * 1000)%Q))
    else VNum 0 in
  let cutsPer100km :=
    if Qltb 0 totalLength then VStr (to_fixed2 (Some (dbl (totalCuts / totalLength) * 100)%Q))
    else VNum 0 in
  {| uo_unit := u; uo_yarnFaults := avgYarnFaults; uo_totalAlarms := fst alarms;
     uo_alarmsPer1000km := alarmsPer1000km; uo_alarmBreakdown := snd alarms;
     uo_totalCuts := totalCuts; uo_cutsPer100km := cutsPer100km;
     uo_unitCuts := cut_rates (unit_cuts records) totalLength;
     uo_unitQuality := quality_outs (unit_quality records);
     uo_shiftStartTime := t.(t_date); uo_shiftNumber := js_or t.(t_shift) (str "All");
     uo_latestShift := t.(t_latest);
     uo_articles := map art_out_of (object_values (group_articles records)) |}.

(** [records] of one unit whose [cachedUnitsData[unit]] is an own key. *)
Definition unit_records (c : cache) (t : targets) (machF : option string) (u : string)
  : list row :=
  filter (keep_record t machF) (unit_rows c u).

(** One call of the [units.map] callback; [None] when it throws. An inherited
    [cachedUnitsData[unit]] of length 0 gives the 'N/A' literal; on any other
    one [jsonData.filter] is not a function: a [TypeError]. *)
Definition unit_result_try (c : cache) (t : targets) (machF : option string) (u : string)
  : option unit_result :=
  match cache_prop c u with
  | CUndefined | CRows [] => Some (UEmpty u)
  | CRows rs =>
      let records := filter (keep_record t machF) rs in
      if group_throws records then None else Some (UFull (aggregate u t records))
  | CInherited k =>
      match proto_length k with
      | Some 0%Z => Some (UEmpty u)
      | _ => None
      end
  end.

(** [l.map(f)] where [f] may throw. *)
Fixpoint map_try {A B} (f : A -> option B) (l : list A) : option (list B) :=
  match l with
  | [] => Some []
  | x :: l' =>
      match f x with
      | Some y => option_map (cons y) (map_try f l')
      | None => None
      end
  end.

(** [getQuantumData(dateFilter, shiftFilter, unitFilter, machineFilter, isDashboard)]:
    the [catch] returns [[]] when a unit throws. *)
Definition getQuantumData (c : cache) (dateF shiftF unitF machF : option string)
  (isDash : bool) : list unit_result :=
  let t := resolve c dateF shiftF unitF isDash in
  match map_try (unit_result_try c t machF) (units_of unitF) with
  | Some l => l
  | None => []
  end.

(** *** The [/api/quantum/trend] handler *)

(** [{ sum, refLength, yarnLength, count }] *)
Record tacc := { s_sum : jsnum; s_ref : Q; s_yarn : Q; s_count : nat }.

Definition tacc0 : tacc := {| s_sum := Some 0%Q; s_ref := 0; s_yarn := 0; s_count := 0 |}.

Definition tacc_add (v : jsnum) (rl yl : Q) (a : tacc) : tacc :=
  {| s_sum := nadd a.(s_sum) v; s_ref := (a.(s_ref) + rl)%Q; s_yarn := (a.(s_yarn) + yl)%Q;
     s_count := S a.(s_count) |}.

(** [trendMap[dateStr][label]]: the label's accumulator and its [machines]. *)
Record tbucket := { b_acc : tacc; b_machines : list (string * tacc) }.

Definition bucket0 : tbucket := {| b_acc := tacc0; b_machines := [] |}.

(** The [+=] on [trendMap[dateStr][label]] and on [.machines[machineName]].
    A machine name that is a key of [Object.prototype] finds the inherited
    value, truthy, so no entry is created: the [+=] write to that inherited
    object (for [__proto__], [Object.prototype] gets [sum], [refLength],
    [yarnLength] and [count] set to NaN; every object this file reads those
    keys from owns them) and [Object.keys(stats.machines)] never lists it. *)
Definition bucket_add (mk : string) (v : jsnum) (rl yl : Q) (b : tbucket) : tbucket :=
  {| b_acc := tacc_add v rl yl b.(b_acc);
     b_machines := if is_proto_key mk then b.(b_machines)
                   else upsert mk tacc0 (tacc_add v rl yl) b.(b_machines) |}.

Definition trend_map := list (string * list (string * tbucket)).

(** The label of a row for [firstColumn]. *)
Definition trend_label (firstColumn : string) (u : string) (r : row) : option cell :=
  if String.eqb firstColumn "unit" then str u
  else if String.eqb firstColumn "articlename" then
    js_or (js_or (js_or (js_or (prop r "ArticleName") (prop r "articlename")) (prop r "Article"))
                 (prop r "article")) (str "Unknown")
  else if String.eqb firstColumn "articlenumber" then
    js_or (js_or (prop r "ArticleNumber") (prop r "articlenumber")) (str "Unknown")
  else if String.eqb firstColumn "lotid" then
    js_or (js_or (js_or (prop r "LotID") (prop r "lotid")) (prop r "LotId")) (str "Unknown")
  else if String.eqb firstColumn "machinename" then
    js_or (js_or (js_or (js_or (prop r "MachineName") (prop r "machinename")) (prop r "Machine"))
                 (prop r "machine")) (str "Unknown")
  else str "Unknown".

(** [s.replace(/\s/g, '')] on ASCII white space. *)
Fixpoint remove_ws (s : string) : string :=
  match s with
  | EmptyString => EmptyString
  | String c s' =>
      let n := nat_of_ascii c in
      if (n =? 32)%nat || ((9 <=? n)%nat && (n <=? 13)%nat) then remove_ws s'
      else String c (remove_ws s')
  end.

(** [// Find parameter value] *)
Definition trend_value (parameter : string) (r : row) : jsnum :=
  if String.eqb parameter "IPI" then
    nadd (nadd (to_number (js_or (js_or (prop r "Thin50") (prop r "thin50")) zero))
               (to_number (js_or (js_or (prop r "Thick50") (prop r "thick50")) zero)))
         (to_number (js_or (js_or (prop r "Nep200") (prop r "nep200")) zero))
  else if String.eqb parameter "HSIPI" then
    nadd (nadd (to_number (js_or (js_or (prop r "Thin40") (prop r "thin40")) zero))
               (to_number (js_or (js_or (prop r "Thick35") (prop r "thick35")) zero)))
         (to_number (js_or (js_or (prop r "Nep140") (prop r "nep140")) zero))
  else if String.eqb parameter "totalAlarms" then
    Some (fold_left (fun acc col => (acc + col_val r col)%Q) alarm_columns 0%Q)
  else
    let target := remove_ws (to_lower parameter) in
    let key := option_map fst (find (fun kv => String.eqb (remove_ws (to_lower (fst kv))) target) r) in
    Some (num_or0 (to_number (prop r (match key with
                                      | Some k => if String.eqb k EmptyString then parameter else k
                                      | None => parameter end)))).

(** [Number(item.YarnLength || item.yarnlength || 0) || 0] *)
Definition trend_yarn_length (r : row) : Q :=
  num_or0 (to_number (js_or (js_or (prop r "YarnLength") (prop r "yarnlength")) zero)).

(** [filterValuesArray.includes(label)] (SameValueZero against strings). *)
Definition label_included (fv : list string) (label : option cell) : bool :=
  match label with Some (CStr s) => existsb (String.eqb s) fv | _ => false end.

Record trend_acc := { tm : trend_map; t_labels : list (option cell); t_dates : list string }.

(** [labels.add(x)] / [dates.add(x)] *)
Definition set_add {A} (eqb : A -> A -> bool) (x : A) (l : list A) : list A :=
  if existsb (eqb x) l then l else l ++ [x].

(** One iteration of [records.forEach(item => { ... })] for unit [u]. *)
Definition trend_row (firstColumn parameter : string) (fv : option (list string)) (u : string)
  (st : trend_acc) (r : row) : trend_acc :=
  match row_date r with
  | None => st
  | Some ds =>
      let label := trend_label firstColumn u r in
      if match fv with Some l => negb (label_included l label) | None => false end then st
      else
        let v := trend_value parameter r in
        let rl := ref_length r in
        let yl := trend_yarn_length r in
        let mk := to_js_string (mach_name r) in
        {| tm := upsert ds [] (upsert (to_js_string label) bucket0 (bucket_add mk v rl yl)) st.(tm);
           t_labels := set_add cell_same label st.(t_labels);
           t_dates := set_add String.eqb ds st.(t_dates) |}
  end.

(** [Object.entries(cachedUnitsData).forEach(([unit, records]) => ...)] *)
Definition trend_collect (c : cache) (firstColumn parameter : string) (unitF : option string)
  (fv : option (list string)) : trend_acc :=
  fold_left (fun st ur =>
               if str_truthy unitF && negb (opt_str_eqb (Some (fst ur)) unitF) then st
               else fold_left (trend_row firstColumn parameter fv (fst ur)) (snd ur) st)
            c {| tm := []; t_labels := []; t_dates := [] |}.

(** Whether a row of unit [u] reaches [trendMap[dateStr][label]] with a label
    that is a key of [Object.prototype]: the inherited value is truthy, the
    initialisation is skipped, and [.machines[machineName]] reads a property
    of [undefined], a [TypeError] that the handler answers with 500. *)
Definition trend_row_throws (firstColumn : string) (fv : option (list string)) (u : string)
  (r : row) : bool :=
  match row_date r with
  | None => false
  | Some _ =>
      let label := trend_label firstColumn u r in
      if match fv with Some l => negb (label_included l label) | None => false end then false
      else is_proto_key (to_js_string label)
  end.

Definition trend_throws (c : cache) (firstColumn : string) (unitF : option string)
  (fv : option (list string)) : bool :=
  existsb (fun ur =>
             if str_truthy unitF && negb (opt_str_eqb (Some (fst ur)) unitF) then false
             else existsb (trend_row_throws firstColumn fv (fst ur)) (snd ur)) c.

(** A value of the series: a [toFixed] string or the raw (possibly NaN) sum. *)
Inductive tval := TStr (s : string) | TNum (n : jsnum).

(** [calculateFinal] *)
Definition calculate_final (group : option string) (parameter : string) (s : tacc) : tval :=
  if opt_str_eqb group (Some "quality"%string) then
    if String.eqb parameter "CVAvg" || String.eqb parameter "HAvg" then
      if (0 <? s.(s_count))%nat then TStr (to_fixed2 (ndiv s.(s_sum) (inject_Z (Z.of_nat s.(s_count)))))
      else TStr "0.00"
    else if Qltb 0 s.(s_ref) then TStr (to_fixed2 (ndiv s.(s_sum) s.(s_ref))) else TStr "0.00"
  else if opt_str_eqb group (Some "cuts"%string) || opt_str_eqb group (Some "cmt"%string) then
    if Qltb 0 s.(s_yarn) then
      TStr (to_fixed2 (option_map (fun x => (dbl (x / s.(s_yarn)) * 100)%Q) s.(s_sum)))
    else TStr "0.00"
  else if opt_str_eqb group (Some "alarms"%string) then TNum s.(s_sum)
  else TNum s.(s_sum).

(** The inline computation of [val] in the drill-down loop. *)
Definition drill_value (group : option string) (parameter : string) (s : tacc) : tval :=
  if opt_str_eqb group (Some "quality"%string) then
    if String.eqb parameter "CVAvg" || String.eqb parameter "HAvg" then
      (if (0 <? s.(s_count))%nat
       then TStr (to_fixed2 (ndiv s.(s_sum) (inject_Z (Z.of_nat s.(s_count)))))
       else TStr "0.00")
    else (if Qltb 0 s.(s_ref) then TStr (to_fixed2 (ndiv s.(s_sum) s.(s_ref)))
          else TStr "0.00")
  else if opt_str_eqb group (Some "cuts"%string) || opt_str_eqb group (Some "cmt"%string) then
    (if Qltb 0 s.(s_yarn)
     then TStr (to_fixed2 (option_map (fun x => (dbl (x / s.(s_yarn)) * 100)%Q) s.(s_sum)))
     else TStr "0.00")
  else if opt_str_eqb group (Some "alarms"%string) then TNum s.(s_sum)
  else TNum s.(s_sum).

(** [Object.keys(obj)] as ordered entries. *)
Definition object_entries {A} (m : list (string * A)) : list (string * A) :=
  sort_by index_before (filter (fun kv => is_some (array_index (fst kv))) m)
  ++ filter (fun kv => negb (is_some (array_index (fst kv)))) m.

(** A property of an element of [data]: [date], a label's value, or
    [machines: { [label]: { [m]: value } }]. *)
Inductive rcell :=
| RDate (d : string)
| RFinal (v : tval)
| RMachines (m : list (string * list (string * tval))).

(** [o[k]] on an object given by its own properties. *)
Fixpoint get_prop {A} (o : list (string * A)) (k : string) : option A :=
  match o with
  | [] => None
  | (k', a) :: o' => if String.eqb k' k then Some a else get_prop o' k
  end.

(** [o[k] = v]: an existing key keeps its place, a new one goes last. *)
Definition set_prop {A} (k : string) (v : A) (o : list (string * A)) : list (string * A) :=
  upsert k v (fun _ => v) o.

Definition tval_truthy (v : tval) : bool :=
  match v with
  | TStr s => negb (String.eqb s EmptyString)
  | TNum None => false
  | TNum (Some q) => negb (Qeq_bool q 0)
  end.

Definition rcell_truthy (x : option rcell) : bool :=
  match x with
  | None => false
  | Some (RDate d) => negb (String.eqb d EmptyString)
  | Some (RFinal v) => tval_truthy v
  | Some (RMachines _) => true
  end.

(** One iteration of [Object.keys(trendMap[date]).forEach(label => { ... })]
    on [row]: [row[label] = calculateFinal(stats)], then
    [if (!row.machines) row.machines = {}], then [row.machines[label] = {}]
    filled with the machines' values. A label "machines" overwrites
    [row.machines]; when that leaves a truthy string or number there, the
    assignment [row.machines[label] = {}] throws (strict mode): [None]. *)
Definition row_step (group : option string) (parameter : string)
  (row : option (list (string * rcell))) (lb : string * tbucket) : option (list (string * rcell)) :=
  match row with
  | None => None
  | Some row =>
      let row1 := set_prop (fst lb) (RFinal (calculate_final group parameter (b_acc (snd lb)))) row in
      let row2 := if rcell_truthy (get_prop row1 "machines") then row1
                  else set_prop "machines" (RMachines []) row1 in
      match get_prop row2 "machines" with
      | Some (RMachines ms) =>
          Some (set_prop "machines"
                  (RMachines (set_prop (fst lb)
                                (map (fun ma => (fst ma, calculate_final group parameter (snd ma)))
                                     (object_entries (b_machines (snd lb)))) ms)) row2)
      | _ => None
      end
  end.

(** A property of an element of [drillDownData[label].data]: [date] or a
    machine's value ([None] is [undefined]). *)
Inductive dcell :=
| DDate (d : string)
| DVal (v : option tval).

Record trend_out := {
  to_data : list (list (string * rcell)); to_labels : list (option cell); to_dates : list string;
  to_drillDown : list (string * (list string * list (list (string * dcell)))) }.

(** [TrendError] is the 500 answer of the [catch]. *)
Inductive trend_response :=
| TrendBadRequest
| TrendError
| TrendOk (o : trend_out).

Fixpoint split_comma_aux (s : string) (cur : string) : list string :=
  match s with
  | EmptyString => [cur]
  | String c s' =>
      if Ascii.eqb c ","%char then cur :: split_comma_aux s' EmptyString
      else split_comma_aux s' (cur ++ String c EmptyString)%string
  end.

(** [filterValues.split(',')] *)
Definition split_comma (s : string) : list string := split_comma_aux s EmptyString.

(** The handler on an already-populated cache. The on-demand fetch when the
    cache has no key at all is [fetchAllUnitsData], modelled below. The date
    keys are built from digits and '-' only, on which [localeCompare] (root
    collation, punctuation before digits, digits in numeric order) orders as
    the code units do: [sort_by String.ltb]. The [catch] answers 500
    ([TrendError]) when a label is a key of [Object.prototype]
    ([trend_throws]) or when building a [data] row throws ([row_step]); the
    [labelMachineMap] and drill-down loops cannot throw. *)
Definition trend (c : cache) (group firstColumn parameter unitF filterValues : option string)
  : trend_response :=
  match firstColumn, parameter with
  | Some fc, Some prm =>
      if negb (str_truthy firstColumn) || negb (str_truthy parameter) then TrendBadRequest
      else
        let fv := option_map split_comma filterValues in
        let st := trend_collect c fc prm unitF (if str_truthy filterValues then fv else None) in
        let sortedDates := sort_by String.ltb st.(t_dates) in
        let entries d := object_entries (lookup [] st.(tm) d) in
        let labelMachineMap :=
          fold_left (fun lmm d =>
                       fold_left (fun lmm lb =>
                                    fold_left (fun lmm ma => upsert (fst lb) [] (set_add String.eqb (fst ma)) lmm)
                                              (object_entries (b_machines (snd lb)))
                                              (upsert (fst lb) [] (fun x => x) lmm))
                                 (entries d) lmm)
                    sortedDates [] in
        let drill :=
          map (fun lm =>
                 let machines := sort_by String.ltb (snd lm) in
                 (fst lm,
                  (machines,
                   map (fun d =>
                          let dayStats := lookup bucket0 (lookup [] st.(tm) d) (fst lm) in
                          fold_left (fun dRow m =>
                                       set_prop m
                                         (DVal (match find (fun ma => String.eqb (fst ma) m)
                                                           (b_machines dayStats) with
                                                | Some ma => Some (drill_value group prm (snd ma))
                                                | None => None
                                                end)) dRow)
                                    machines [("date"%string, DDate d)]) sortedDates)))
              (object_entries labelMachineMap) in
        if trend_throws c fc unitF (if str_truthy filterValues then fv else None) then TrendError
        else
          match map_try (fun d => fold_left (row_step group prm) (entries d)
                                            (Some [("date"%string, RDate d)])) sortedDates with
          | None => TrendError
          | Some data =>
              TrendOk {| to_data := data;
                         to_labels := sort_by (fun a b => String.ltb (to_js_string a) (to_js_string b))
                                              st.(t_labels);
                         to_dates := sortedDates; to_drillDown := drill |}
          end
  | _, _ => TrendBadRequest
  end.

(** *** [fetchAllUnitsData] and [updateQuantumLiveData] *)

(** Outcome of one unit's download and parse. *)
Inductive load_outcome :=
| Loaded (rows : list row)
| LoadFailed.

Record cache_state := {
  cachedUnitsData : cache; cachedLiveData : option (list unit_result);
  lastFetchTime : option Z }.

(** [newData[unit] = rows] on success, [cachedUnitsData[unit] || []] in the [catch]. *)
Definition settle (old : cache) (u : string) (o : load_outcome) : list row :=
  match o with
  | Loaded rs => rs
  | LoadFailed => unit_rows old u
  end.

(** After [Promise.all]: [cachedUnitsData = newData], then
    [cachedLiveData = await getQuantumData()] and [lastFetchTime = new Date()]. *)
Definition publish (st : cache_state) (newData : cache) (now : Z) : cache_state :=
  {| cachedUnitsData := newData;
     cachedLiveData := Some (getQuantumData newData None None None None false);
     lastFetchTime := Some now |}.

(** A refresh in progress: the published state, the local [newData] and the
    units whose download has not settled yet; or the refresh is over. *)
Inductive refresh_phase :=
| Loading (st : cache_state) (newData : cache) (pending : list string)
| Published (st : cache_state).

(** The downloads settle one at a time, in any order. *)
Inductive refresh_step (outcome : string -> load_outcome) (now : Z)
  : refresh_phase -> refresh_phase -> Prop :=
| rs_settle st nd pending u :
    In u pending ->
    refresh_step outcome now (Loading st nd pending)
      (Loading st (nd ++ [(u, settle st.(cachedUnitsData) u (outcome u))])
               (remove string_dec u pending))
| rs_publish st nd :
    refresh_step outcome now (Loading st nd []) (Published (publish st nd now)).

Definition refresh_runs (outcome : string -> load_outcome) (now : Z) :=
  clos_refl_trans_1n _ (refresh_step outcome now).

(** *** [GET /api/quantum/live] *)

(** [date || shift || unit || machine || isDashboard], with
    [isDashboard = mode === 'dashboard']; query values are strings. *)
Definition live_filtered (date shift unit machine mode : option string) : bool :=
  str_truthy date || str_truthy shift || str_truthy unit || str_truthy machine
  || opt_str_eqb mode (Some "dashboard"%string).

(** The handler: a filtered request is answered by [getQuantumData] on the
    current cache; otherwise the snapshot [cachedLiveData] is served, and when
    there is none, [updateQuantumLiveData] runs first (a complete refresh,
    then [cachedLiveData || []]). *)
Inductive live_request (outcome : string -> load_outcome) (now : Z)
  (date shift unit machine mode : option string)
  : cache_state -> list unit_result -> cache_state -> Prop :=
| live_fresh st :
    live_filtered date shift unit machine mode = true ->
    live_request outcome now date shift unit machine mode st
      (getQuantumData st.(cachedUnitsData) date shift unit machine
                      (opt_str_eqb mode (Some "dashboard"%string))) st
| live_cached st d :
    live_filtered date shift unit machine mode = false ->
    st.(cachedLiveData) = Some d ->
    live_request outcome now date shift unit machine mode st d st
| live_update st st' :
    live_filtered date shift unit machine mode = false ->
    st.(cachedLiveData) = None ->
    refresh_runs outcome now (Loading st [] units_all) (Published st') ->
    live_request outcome now date shift unit machine mode st
      (match st'.(cachedLiveData) with Some d => d | None => [] end) st'.


(** *** [GET /api/quantum/available-filters] *)

(** [[...new Set(l)].filter(Boolean).sort()]: SameValueZero for the set, and
    the default order of [sort()], which compares [String(x)]. *)
Definition set_values (l : list (option cell)) : list (option cell) :=
  sort_by (fun a b => String.ltb (to_js_string a) (to_js_string b)) (filter truthy (dedup cell_same l)).

Record filters_out := {
  fo_dates : list string; fo_shifts : list (option cell); fo_units : list string;
  fo_machines : list (option cell); fo_articles : list (option cell);
  fo_articleNames : list (option cell); fo_lotIds : list (option cell) }.

Inductive filters_response :=
| FiltersOk (o : filters_out)
| FiltersError (msg : string).

(** [item.ArticleName || item.articlename || item.Article || item.article] *)
Definition row_article_name (r : row) : option cell :=
  js_or (js_or (js_or (prop r "ArticleName") (prop r "articlename")) (prop r "Article"))
        (prop r "article").

(** [item.LotID || item.lotid || item.LotId] *)
Definition row_lot (r : row) : option cell :=
  js_or (js_or (prop r "LotID") (prop r "lotid")) (prop r "LotId").

(** The handler on a cache with at least one key (on an empty one it first
    runs [fetchAllUnitsData]). [allRecords] is [cachedUnitsData[unit]] when
    that is truthy (any array is, even an empty one; so is an inherited
    property, on which [allRecords.map] throws), otherwise
    [Object.values(cachedUnitsData).flat()]. *)
Definition available_filters (c : cache) (unit : option string) : filters_response :=
  let all := concat (object_values c) in
  let sel :=
    match unit with
    | Some u =>
        if str_truthy unit then
          match cache_get c u with
          | Some rs => Some rs
          | None => if is_proto_key u then None else Some all
          end
        else Some all
    | None => Some all
    end in
  match sel with
  | None => FiltersError "allRecords.map is not a function"
  | Some rs =>
      FiltersOk {| fo_dates := available_dates rs;
                   fo_shifts := set_values (map row_shift rs);
                   fo_units := units_all;
                   fo_machines := set_values (map row_machine rs);
                   fo_articles := set_values (map (fun r => js_or (prop r "ArticleNumber")
                                                                  (prop r "articlenumber")) rs);
                   fo_articleNames := set_values (map row_article_name rs);
                   fo_lotIds := set_values (map row_lot rs) |}
  end.

(** *** [GET /api/quantum/data/:unit] *)

(** [unitMap] *)
Definition unit_map : list (string * string) :=
  [("U-1", "1.xlsx"); ("U-2", "2.xlsx"); ("U-3", "3.xlsx");
   ("U-4", "4.xlsx"); ("U-5", "5.xlsx"); ("U-6", "6.xlsx")]%string.

(** [obj[k]] on an object literal of string values. *)
Inductive prop_lookup :=
| OwnProp (v : string)
| Inherited (k : string)
| Undefined.

Definition object_get (m : list (string * string)) (k : string) : prop_lookup :=
  match find (fun kv => String.eqb (fst kv) k) m with
  | Some kv => OwnProp (snd kv)
  | None => if is_proto_key k then Inherited k else Undefined
  end.

(** What the handler does with [fileName = unitMap[unit]]: answer 400, or go
    on to [download(fileName)]. *)
Inductive unit_file_step :=
| UnitBadRequest
| UnitDownload (fileName : prop_lookup).

Definition quantum_data_unit (unit : string) : unit_file_step :=
  match object_get unit_map unit with
  | Undefined => UnitBadRequest
  | OwnProp v => if String.eqb v EmptyString then UnitBadRequest else UnitDownload (OwnProp v)
  | Inherited k => UnitDownload (Inherited k)
  end.

(** *** Responses of the other endpoints *)

Inductive body :=
| BError (msg : string)                  (* { error } *)
| BErrorDetails (msg details : string)   (* { error, details } *)
| BRows (rows : list row)                (* an array of rows *)
| BValues (vs : list (option cell))      (* an array of values *)
| BSuccess                               (* { success: true } *)
| BSuccessMessage (msg : string).        (* { success: true, message } *)

Record response := { status : Z; rbody : body }.

Definition resp_ok (b : body) : response := {| status := 200; rbody := b |}.
Definition resp_err (s : Z) (msg : string) : response := {| status := s; rbody := BError msg |}.

(** *** White space and comma lists *)

(** ASCII white space, as [trim()] reads it: tab, LF, VT, FF, CR and space. *)
Definition is_ws (c : ascii) : bool :=
  let n := nat_of_ascii c in (n =? 32)%nat || ((9 <=? n)%nat && (n <=? 13)%nat).

Fixpoint trim_start (s : string) : string :=
  match s with
  | EmptyString => EmptyString
  | String c s' => if is_ws c then trim_start s' else s
  end.

Fixpoint trim_end (s : string) : string :=
  match s with
  | EmptyString => EmptyString
  | String c s' =>
      let t := trim_end s' in
      if is_ws c && String.eqb t EmptyString then EmptyString else String c t
  end.

(** [s.trim()] *)
Definition trim (s : string) : string := trim_end (trim_start s).

(** [s.split(',').map(x => x.trim()).filter(Boolean)] *)
Definition split_trim (s : string) : list string :=
  filter (fun x => negb (String.eqb x EmptyString)) (map trim (split_comma s)).

(** *** The Supabase queries and their pagination *)

(** A condition of the query builder. *)
Inductive qcond :=
| QGte (col v : string)
| QLte (col v : string)
| QIn (col : string) (vs : list string)
| QEq (col v : string)
| QILike (col pattern : string).

Record query := { q_table : string; q_select : string; q_conds : list qcond }.

(** The answer [{ data, error }] to a query restricted by [.range(from, to)]. *)
Inductive page :=
| PageError (msg : string)
| PageData (data : option (list row)).

Definition database := query -> Z -> Z -> page.

Definition page_step : Z := 1000.

(** The [while (hasMore)] loop with [step = 1000], adding each page with [add]:
    [Some (inl msg)] when a request returns an error (it is thrown),
    [Some (inr acc)] when the loop stops, [None] while it has not stopped
    after [fuel] requests. *)
Fixpoint fetch_pages {B} (fuel : nat) (get : Z -> Z -> page) (add : B -> list row -> B)
  (from : Z) (acc : B) : option (string + B) :=
  match fuel with
  | O => None
  | S f =>
      match get from (from + page_step - 1)%Z with
      | PageError e => Some (inl e)
      | PageData None => Some (inr acc)
      | PageData (Some []) => Some (inr acc)
      | PageData (Some data) =>
          let acc' := add acc data in
          if (Z.of_nat (length data) <? page_step)%Z then Some (inr acc')
          else fetch_pages f get add (from + page_step)%Z acc'
      end
  end.

(** [supabaseLongTerm.from('uqe_data').select(sel)] with conditions. *)
Definition uqe_query (sel : string) (conds : list qcond) : query :=
  {| q_table := "uqe_data"; q_select := sel; q_conds := conds |}.

(** A finished loop as the handlers answer it: the caught error gives 500. *)
Definition paged_response {B} (r : option (string + B)) (k : B -> response) : option response :=
  match r with
  | None => None
  | Some (inl e) => Some (resp_err 500 e)
  | Some (inr b) => Some (k b)
  end.

(** [data.forEach(item => { if (item.ArticleNumber) allArticles.add(item.ArticleNumber) })] *)
Definition add_articles (s : list (option cell)) (data : list row) : list (option cell) :=
  fold_left (fun s item =>
               if truthy (prop item "ArticleNumber")
               then set_add cell_same (prop item "ArticleNumber") s else s) data s.

(** [GET /api/quality/unique-article-numbers] and [/api/long-term/unique-article-numbers];
    [None] while the loop runs. [!q || q.length < 1] is [!q] on a string. *)
Definition unique_article_numbers (fuel : nat) (db : database) (q : option string)
  : option response :=
  match q with
  | Some s =>
      if str_truthy q then
        paged_response
          (fetch_pages fuel (db (uqe_query "ArticleNumber" [QILike "ArticleNumber" ("%" ++ s ++ "%")]))
                       add_articles 0 [])
          (fun set => resp_ok (BValues (sort_by (fun a b => String.ltb (to_js_string a) (to_js_string b)) set)))
      else Some (resp_ok (BValues []))
  | None => Some (resp_ok (BValues []))
  end%string.

(** [GET /api/quality/data-by-article] *)
Definition data_by_article (fuel : nat) (db : database) (articleNumber : option string)
  : option response :=
  match articleNumber with
  | Some a =>
      if str_truthy articleNumber then
        paged_response (fetch_pages fuel (db (uqe_query "*" [QEq "ArticleNumber" a])) (@app row) 0 [])
                       (fun rows => resp_ok (BRows rows))
      else Some (resp_err 400 "Article number is required")
  | None => Some (resp_err 400 "Article number is required")
  end%string.

(** [x && x.trim().length > 0] *)
Definition has_text (x : option string) : bool :=
  match x with Some s => negb (String.eqb (trim s) EmptyString) | None => false end.

(** The conditions the [/api/quality/data] loop puts on its query. *)
Definition quality_conds (startDate endDate lotId articles unit : option string) : list qcond :=
  match startDate, endDate with
  | Some sd, Some ed =>
      if str_truthy startDate && str_truthy endDate
      then [QGte "ShiftStartTime" (sd ++ "T00:00:00"); QLte "ShiftStartTime" (ed ++ "T23:59:59")]
      else []
  | _, _ => []
  end
  ++ match lotId with
     | Some l => if has_text lotId then
                   let lots := split_trim l in
                   if (0 <? length lots)%nat then [QIn "LotID" lots] else []
                 else []
     | None => []
     end
  ++ match articles with
     | Some a => if has_text articles then
                   let artList := split_trim a in
                   if (0 <? length artList)%nat then [QIn "ArticleNumber" artList] else []
                 else []
     | None => []
     end
  ++ match unit with
     | Some u => if has_text unit then [QEq "MillUnit" (trim u)] else []
     | None => []
     end.

(** [GET /api/quality/data] and [/api/long-term/data] *)
Definition quality_data (fuel : nat) (db : database)
  (startDate endDate lotId articles unit : option string) : option response :=
  if negb (str_truthy startDate && str_truthy endDate) && negb (has_text lotId)
     && negb (has_text articles) && negb (has_text unit)
  then Some (resp_err 400
         "At least one filter (Date Range, Lot ID, Articles, or Unit) is required")
  else paged_response
         (fetch_pages fuel (db (uqe_query "*" (quality_conds startDate endDate lotId articles unit)))
                      (@app row) 0 [])
         (fun rows => resp_ok (BRows rows)).

(** *** [POST /api/login] and [POST /api/change-password] *)

(** A row of [login_details]. *)
Record login_entry := { le_id : Z; le_password : string }.

(** A field of the JSON body: absent, a string, or another JSON value (number,
    boolean, null, array, object) with its truthiness. *)
Inductive jfield :=
| JAbsent
| JString (s : string)
| JOther (truthy : bool).

Definition jtruthy (f : jfield) : bool :=
  match f with
  | JAbsent => false
  | JString s => negb (String.eqb s EmptyString)
  | JOther b => b
  end.

(** [.eq('password', p)] on [login_details], rows in table order. *)
Definition with_password (tbl : list login_entry) (p : string) : list login_entry :=
  filter (fun e => String.eqb e.(le_password) p) tbl.

(** The handler; [qerr] is the [error] the query returns. The two debugging
    queries of the failure branch do not change the answer. *)
Definition login (tbl : list login_entry) (qerr : option string) (password : jfield) : response :=
  if negb (jtruthy password) then resp_err 400 "Password is required"
  else
    match password with
    | JString p =>
        match qerr with
        | Some e => {| status := 401; rbody := BErrorDetails "Authentication failed" e |}
        | None =>
            match with_password tbl (trim p) with
            | [] => resp_err 401 "Incorrect password"
            | _ :: _ => resp_ok BSuccess
            end
        end
    | _ => resp_err 500 "password.trim is not a function"
    end%string.


(** *** [POST /api/restart-server] *)

Record http_request := { req_method : string; req_url : string; req_headers : list (string * string) }.

(** What [fetch] gives: a thrown error, or a response with [ok], [statusText]
    and the [message] of its JSON body ([None] when absent or unparsable). *)
Inductive fetch_outcome :=
| FetchThrows (msg : string)
| FetchReply (ok : bool) (statusText : string) (message : option string).

(** The requests sent, and the answer. *)
Definition restart_server (apiKey : option string) (send : http_request -> fetch_outcome)
  : list http_request * response :=
  match apiKey with
  | Some k =>
      if negb (str_truthy apiKey) || String.eqb k "your_render_api_key_here" then
        ([], resp_err 500 "Render API key not configured")
      else
        let rq := {| req_method := "POST";
                     req_url := "https://api.render.com/v1/services/srv-d68887ur433s73cg6q1g/restart";
                     req_headers := [("Authorization", "Bearer " ++ k); ("Accept", "application/json");
                                     ("Content-Type", "application/json")] |} in
        ([rq],
         match send rq with
         | FetchThrows m => resp_err 500 m
         | FetchReply true _ _ => resp_ok (BSuccessMessage "Server restart triggered successfully")
         | FetchReply false st m =>
             resp_err 500 (match m with
                           | Some s => if String.eqb s EmptyString
                                       then "Failed to restart server: " ++ st else s
                           | None => "Failed to restart server: " ++ st
                           end)
         end)
  | None => ([], resp_err 500 "Render API key not configured")
  end%string.

(** *** CORS *)

(** [allowedOrigins] from [process.env.ALLOWED_ORIGINS]. *)
Definition allowed_origins (env : option string) : list string :=
  match env with
  | Some s => if str_truthy env then split_comma s
              else ["http://localhost:5173"; "http://localhost:3000"]
  | None => ["http://localhost:5173"; "http://localhost:3000"]
  end%string.

Inductive cors_decision := CorsAllow | CorsReject.

(** The [origin] callback: [callback(null, true)] or [callback(new Error(...))]. *)
Definition cors_origin (allowed : list string) (origin : option string) : cors_decision :=
  match origin with
  | Some o =>
      if negb (str_truthy origin) then CorsAllow
      else if existsb (String.eqb o) allowed || existsb (String.eqb "*") allowed then CorsAllow
      else CorsReject
  | None => CorsAllow
  end%string.

(** *** Proof-side definitions *)

(** The units on which the [units.map] callback of [getQuantumData] throws:
    an inherited [cachedUnitsData[unit]] whose length is not 0, or records
    with an article or machine key of [Object.prototype]. *)
Definition unit_throws (c : cache) (t : targets) (machF : option string) (u : string) : bool :=
  match cache_prop c u with
  | CRows rs => group_throws (filter (keep_record t machF) rs)
  | CInherited k => match proto_length k with Some 0%Z => false | _ => true end
  | CUndefined => false
  end.


(** Rows of [rs] whose key (article or machine) is [k]. *)
Definition with_key (key : row -> string) (k : string) (r : row) : bool :=
  String.eqb (key r) k.

(** A keyed map built by [upsert] over the rows [pre]: keys unique, keys are
    those of [pre], each entry related by [Rel] to the rows with its key. *)
Definition group_inv {A} (key : row -> string) (Rel : list row -> A -> Prop)
    (pre : list row) (m : list (string * A)) : Prop :=
  NoDup (map fst m) /\
  (forall k, In k (map fst m) <-> exists r, In r pre /\ key r = k) /\
  (forall k a, In (k, a) m -> Rel (filter (with_key key k) pre) a).

Definition refresh_inv (outcome : string -> load_outcome) (now : Z) (st0 : cache_state)
  (ph : refresh_phase) : Prop :=
  match ph with
  | Loading st nd p =>
      st = st0 /\ incl p units_all /\
      forall u, In u units_all ->
        (In u p /\ cache_get nd u = None) \/
        (~ In u p /\ cache_get nd u = Some (settle st0.(cachedUnitsData) u (outcome u)))
  | Published st =>
      (forall u, In u units_all ->
         cache_get st.(cachedUnitsData) u = Some (settle st0.(cachedUnitsData) u (outcome u)))
      /\ st.(lastFetchTime) = Some now
  end.

Definition sum_entries {A} (g : A -> Q) (m : list (string * A)) : Q :=
  fold_right (fun ka acc => g (snd ka) + acc) 0 m.

Definition rsum (f : row -> Q) (rs : list row) : Q :=
  fold_right (fun r acc => f r + acc) 0 rs.

(** The amount a row adds to column [col] of a map keyed by [cols]. *)
Definition col_delta (cols : list string) (col : string) (r : row) : Q :=
  if existsb (fun k => String.eqb k col) cols then col_val r col else 0.

(** What the machine-level conservation needs of an article accumulator. *)
Definition art_ok (col : string) (a : art_acc) : Prop :=
  map fst a.(a_cuts) = cut_columns /\
  Forall (fun km => map fst (m_cuts (snd km)) = cut_columns) a.(a_machines) /\
  sum_entries (fun m => nget (m_cuts m) col) a.(a_machines) == nget a.(a_cuts) col.


(** A machine accumulator is the accumulation of the rows [l] of that machine. *)
Definition mach_rel (l : list row) (m : mach_acc) : Prop :=
  m.(m_quality) = unit_quality l /\ m.(m_cuts) = unit_cuts l /\
  m.(m_yarn) = sumQ yarn_length l.

(** An article accumulator is the accumulation of the rows [l] of that article,
    its machine map the grouping of [l] by machine. *)
Definition art_rel (l : list row) (a : art_acc) : Prop :=
  a.(a_quality) = unit_quality l /\ a.(a_cuts) = unit_cuts l /\
  a.(a_yarn) = sumQ yarn_length l /\
  a.(a_machines) = fold_left (fun m r => upsert (mach_key r) (mach_init (mach_name r)) (mach_step r) m) l [].

(** The sum of a list of numbers. *)
Definition sum_list (l : list Q) : Q := fold_right Qplus 0 l.

(** [l.join(',')] *)
Fixpoint join_comma (l : list string) : string :=
  match l with
  | [] => EmptyString
  | [x] => x
  | x :: l' => (x ++ "," ++ join_comma l')%string
  end.

Fixpoint no_comma (s : string) : bool :=
  match s with
  | EmptyString => true
  | String c s' => negb (Ascii.eqb c ","%char) && no_comma s'
  end.

(** A string made of commas and white space only. *)
Fixpoint commas_ws (s : string) : bool :=
  match s with
  | EmptyString => true
  | String c s' => (Ascii.eqb c ","%char || is_ws c) && commas_ws s'
  end.

(** What [[...new Set(l)].filter(Boolean).sort()] gives for the values [f r]
    of the rows [rs]: ordered by their [String] form, truthy, pairwise not
    SameValueZero, and one for every truthy value. *)
Definition set_values_props (f : row -> option cell) (rs : list row) (L : list (option cell)) : Prop :=
  Sorted (fun a b => String.leb (to_js_string a) (to_js_string b) = true) L /\
  (forall x, In x L -> truthy x = true /\ exists r, In r rs /\ f r = x) /\
  (forall r, In r rs -> truthy (f r) = true ->
     exists x, In x L /\ (cell_same (f r) x = true \/ x = f r)) /\
  ForallOrdPairs (fun a b => cell_same a b = false) L.

(** A breakdown keyed by the alarm columns and a total that is its sum. *)
Definition alarm_pair_ok (total : Q) (bd : nmap) : Prop :=
  map fst bd = alarm_columns /\ total == sum_list (map snd bd).

Definition mach_alarm_ok (m : mach_acc) : Prop := alarm_pair_ok m.(m_alarms) m.(m_breakdown).

(** What the alarm roll-up needs of an article accumulator. *)
Definition art_alarm_ok (a : art_acc) : Prop :=
  alarm_pair_ok a.(a_alarms) a.(a_breakdown) /\
  Forall (fun km => mach_alarm_ok (snd km)) a.(a_machines) /\
  sum_entries m_alarms a.(a_machines) == a.(a_alarms) /\
  (forall col, sum_entries (fun m => nget (m_breakdown m) col) a.(a_machines)
               == nget a.(a_breakdown) col).



(** The character [digits_pos] writes for the digit [k]. *)
Definition digit_char (k : Z) : ascii := ascii_of_nat (48 + Z.to_nat k).

(** Lexicographic combination of two comparisons. *)
Definition cmp_then (c1 c2 : comparison) : comparison :=
  match c1 with Eq => c2 | c => c end.

(** A server that has not fetched anything yet, and the cache a refresh
    leaves when every unit downloads an empty sheet. *)
Definition state0 : cache_state :=
  {| cachedUnitsData := []; cachedLiveData := None; lastFetchTime := None |}.

Definition empty_units : cache := map (fun u => (u, [])) units_all.

(** The [unit] field of an entry of [getQuantumData]. *)
Definition unit_result_name (x : unit_result) : string :=
  match x with UEmpty u => u | UFull o => o.(uo_unit) end.

(** ** Proofs *)

Local Open Scope Q_scope.

(** *** The refresh *)

Lemma cache_get_app_some (c1 c2 : cache) u rs :
  cache_get c1 u = Some rs -> cache_get (c1 ++ c2) u = Some rs.
Proof.
  induction c1 as [|[u' rs'] c1 IH]; simpl; [discriminate|].
  destruct (String.eqb u' u); auto.
Qed.

Lemma cache_get_app_none (c1 c2 : cache) u :
  cache_get c1 u = None -> cache_get (c1 ++ c2) u = cache_get c2 u.
Proof.
  induction c1 as [|[u' rs'] c1 IH]; simpl; auto.
  destruct (String.eqb u' u); [discriminate | auto].
Qed.

Lemma refresh_inv_step outcome now st0 ph ph' :
  refresh_step outcome now ph ph' -> refresh_inv outcome now st0 ph -> refresh_inv outcome now st0 ph'.
Proof.
  intros Hs. destruct Hs as [st nd p u Hu | st nd]; simpl.
  - intros [-> [Hincl Hall]]. split; [reflexivity|]. split.
    + intros w Hw. apply in_remove in Hw. apply Hincl, Hw.
    + intros w Hw. destruct (string_dec w u) as [->|Hne].
      * right. split; [apply remove_In|].
        destruct (Hall u Hw) as [[_ Hn]|[Hn _]]; [|contradiction].
        rewrite cache_get_app_none by exact Hn. simpl. rewrite String.eqb_refl. reflexivity.
      * destruct (Hall w Hw) as [[Hin Hn]|[Hnin Hv]].
        -- left. split; [apply in_in_remove; auto|].
           rewrite cache_get_app_none by exact Hn. simpl.
           destruct (String.eqb_spec u w); [congruence|reflexivity].
        -- right. split; [intros Hr; apply in_remove in Hr; tauto|].
           apply cache_get_app_some; exact Hv.
  - intros [-> [_ Hall]]. split; [|reflexivity].
    intros u Hu. destruct (Hall u Hu) as [[[] _]|[_ Hv]]. exact Hv.
Qed.

Lemma refresh_inv_runs outcome now st0 ph ph' :
  refresh_runs outcome now ph ph' -> refresh_inv outcome now st0 ph -> refresh_inv outcome now st0 ph'.
Proof.
  induction 1 as [|x y z Hxy _ IH]; auto.
  intros Hx. apply IH. eapply refresh_inv_step; eauto.
Qed.

(** *** Sums over the article and machine maps *)

Lemma upsert_forall {A} (P : A -> Prop) k init f (m : list (string * A)) :
  Forall (fun ka => P (snd ka)) m -> P init -> (forall a, P a -> P (f a)) ->
  Forall (fun ka => P (snd ka)) (upsert k init f m).
Proof.
  induction m as [|[k' a] m IH]; simpl; intros Hm Hi Hf.
  - constructor; simpl; auto.
  - inversion Hm; subst. destruct (String.eqb k' k); constructor; simpl; auto.
Qed.

Lemma upsert_sum {A} (P : A -> Prop) (g : A -> Q) k init f (m : list (string * A)) d :
  Forall (fun ka => P (snd ka)) m -> P init -> g init == 0 ->
  (forall a, P a -> g (f a) == g a + d) ->
  sum_entries g (upsert k init f m) == sum_entries g m + d.
Proof.
  induction m as [|[k' a] m IH]; simpl; intros Hm Hi H0 Hf.
  - specialize (Hf init Hi). lra.
  - inversion Hm as [|x y Ha Hrest]; subst. destruct (String.eqb k' k); simpl.
    + specialize (Hf a Ha). lra.
    + specialize (IH Hrest Hi H0 Hf). lra.
Qed.

Lemma keys_nmap_add (m : nmap) r : map fst (nmap_add m r) = map fst m.
Proof. induction m as [|[k v] m IH]; simpl; congruence. Qed.

Lemma keys_nmap0 cols : map fst (nmap0 cols) = cols.
Proof. induction cols; simpl; congruence. Qed.

Lemma nget_nmap0 cols col : nget (nmap0 cols) col = 0.
Proof.
  unfold nget. induction cols as [|c cols IH]; simpl; auto.
  destruct (String.eqb c col); auto.
Qed.

Lemma nget_nmap_add (m : nmap) r col :
  nget (nmap_add m r) col == nget m col + col_delta (map fst m) col r.
Proof.
  unfold nget, col_delta. induction m as [|[k v] m IH]; simpl.
  - lra.
  - destruct (String.eqb_spec k col) as [->|_]; simpl; [lra | exact IH].
Qed.

Lemma nget_fold_nmap_add cols rs (m : nmap) col :
  map fst m = cols ->
  nget (fold_left nmap_add rs m) col == nget m col + rsum (col_delta cols col) rs.
Proof.
  revert m. induction rs as [|r rs IH]; simpl; intros m Hk.
  - lra.
  - rewrite IH by (rewrite keys_nmap_add; exact Hk).
    rewrite nget_nmap_add, Hk. lra.
Qed.

Lemma art_ok_init col n : art_ok col (art_init n).
Proof.
  unfold art_ok; cbn [art_init a_cuts a_machines sum_entries fold_right].
  rewrite keys_nmap0, nget_nmap0. repeat split; auto.
Qed.

Lemma art_ok_step col r a : art_ok col a -> art_ok col (art_step r a).
Proof.
  intros [Hk [Hm Hs]]. unfold art_ok; cbn [art_step a_cuts a_machines].
  split; [rewrite keys_nmap_add; exact Hk|]. split.
  - apply (upsert_forall (fun m => map fst (m_cuts m) = cut_columns)).
    + exact Hm.
    + cbn [mach_init m_cuts]. apply keys_nmap0.
    + intros m Hm'. cbn [mach_step m_cuts]. rewrite keys_nmap_add. exact Hm'.
  - rewrite (upsert_sum (fun m => map fst (m_cuts m) = cut_columns) _ _ _ _ _
               (col_delta cut_columns col r)).
    + rewrite nget_nmap_add, Hk. lra.
    + exact Hm.
    + cbn [mach_init m_cuts]. apply keys_nmap0.
    + cbn [mach_init m_cuts]. rewrite nget_nmap0. reflexivity.
    + intros m Hm'. cbn [mach_step m_cuts]. rewrite nget_nmap_add, Hm'. reflexivity.
Qed.

Lemma group_fold_sum col rs m :
  Forall (fun ka => art_ok col (snd ka)) m ->
  Forall (fun ka => art_ok col (snd ka)) (fold_left group_step rs m) /\
  sum_entries (fun a => nget (a_cuts a) col) (fold_left group_step rs m)
  == sum_entries (fun a => nget (a_cuts a) col) m + rsum (col_delta cut_columns col) rs.
Proof.
  revert m. induction rs as [|r rs IH]; simpl; intros m Hm.
  - split; [exact Hm | lra].
  - unfold group_step at 2.
    assert (Hm' : Forall (fun ka => art_ok col (snd ka)) (group_step m r)).
    { unfold group_step. apply (upsert_forall (art_ok col)); auto using art_ok_init, art_ok_step. }
    destruct (IH _ Hm') as [HF HS]. split; [exact HF|].
    rewrite HS. unfold group_step.
    rewrite (upsert_sum (art_ok col) _ _ _ _ _ (col_delta cut_columns col r)).
    + lra.
    + exact Hm.
    + apply art_ok_init.
    + cbn [art_init a_cuts]. rewrite nget_nmap0. reflexivity.
    + intros a [Hk _]. cbn [art_step a_cuts]. rewrite nget_nmap_add, Hk. reflexivity.
Qed.

(** *** The article and machine maps, entry by entry *)

Lemma keys_upsert {A} k0 init f (m : list (string * A)) k :
  In k (map fst (upsert k0 init f m)) <-> k = k0 \/ In k (map fst m).
Proof.
  induction m as [|[k' a] m IH]; simpl.
  - split; intros [->|[]]; auto.
  - destruct (String.eqb_spec k' k0) as [->|Hne]; simpl.
    + split; [intros [->|H]; auto|intros [->|[->|H]]; auto].
    + rewrite IH. split; [intros [->|[->|H]]|intros [->|[->|H]]]; auto.
Qed.

Lemma nodup_upsert {A} k0 init f (m : list (string * A)) :
  NoDup (map fst m) -> NoDup (map fst (upsert k0 init f m)).
Proof.
  induction m as [|[k' a] m IH]; simpl; intros Hnd.
  - constructor; [simpl; tauto | constructor].
  - inversion Hnd as [|x y Hnin Hnd']; subst.
    destruct (String.eqb_spec k' k0) as [->|Hne]; simpl; constructor; auto.
    rewrite keys_upsert. intros [->|Hin]; [congruence | contradiction].
Qed.

Lemma in_upsert {A} k0 init f (m : list (string * A)) k a' :
  NoDup (map fst m) -> In (k, a') (upsert k0 init f m) ->
  (k = k0 /\ ((exists a, In (k0, a) m /\ a' = f a) \/ (~ In k0 (map fst m) /\ a' = f init)))
  \/ (k <> k0 /\ In (k, a') m).
Proof.
  induction m as [|[k' a] m IH]; simpl; intros Hnd Hin.
  - destruct Hin as [Heq|[]]. inversion Heq; subst. left. split; auto.
  - inversion Hnd as [|x y Hnin Hnd']; subst.
    destruct (String.eqb_spec k' k0) as [->|Hne]; simpl in Hin.
    + destruct Hin as [Heq|Hin].
      * inversion Heq; subst. left. split; [reflexivity|]. left. exists a. auto.
      * right. split; [|auto].
        intros ->. apply Hnin. apply (in_map fst) in Hin. exact Hin.
    + destruct Hin as [Heq|Hin].
      * inversion Heq; subst. right. auto.
      * destruct (IH Hnd' Hin) as [[-> [[a0 [Ha0 ->]]|[Hn ->]]]|[Hk Hi]].
        -- left. split; auto. left. exists a0. auto.
        -- left. split; auto. right. split; auto. intros [Heq|Hi]; [congruence|contradiction].
        -- right. auto.
Qed.

Section Grouping.
Variable A : Type.
Variable key : row -> string.
Variable init : row -> A.
Variable step : row -> A -> A.
(** What an entry is of the rows that went into it. *)
Variable Rel : list row -> A -> Prop.
Hypothesis Rel_first : forall r, Rel [r] (step r (init r)).
Hypothesis Rel_next : forall l a r, Rel l a -> Rel (l ++ [r]) (step r a).

Lemma filter_with_key_app k pre r :
  filter (with_key key k) (pre ++ [r]) =
  if with_key key k r then filter (with_key key k) pre ++ [r] else filter (with_key key k) pre.
Proof.
  rewrite filter_app. simpl. destruct (with_key key k r); simpl; [reflexivity|apply app_nil_r].
Qed.

Lemma filter_with_key_nil k pre :
  (forall r, In r pre -> key r <> k) -> filter (with_key key k) pre = [].
Proof.
  induction pre as [|r pre IH]; simpl; intros H; [reflexivity|].
  unfold with_key at 1. destruct (String.eqb_spec (key r) k) as [Hk|_].
  - exfalso. exact (H r (or_introl eq_refl) Hk).
  - apply IH. intros r' Hr'. apply H. right. exact Hr'.
Qed.

Lemma group_inv_step pre m r :
  group_inv key Rel pre m -> group_inv key Rel (pre ++ [r]) (upsert (key r) (init r) (step r) m).
Proof.
  intros [Hnd [Hkeys Hrel]]. split; [apply nodup_upsert; exact Hnd|]. split.
  - intros k. rewrite keys_upsert, Hkeys. split.
    + intros [->|[r' [Hr' Hk]]].
      * exists r. split; [apply in_or_app; right; left; reflexivity|reflexivity].
      * exists r'. split; [apply in_or_app; left; exact Hr'|exact Hk].
    + intros [r' [Hr' Hk]]. apply in_app_or in Hr'. destruct Hr' as [Hr'|[<-|[]]].
      * right. exists r'. auto.
      * left. symmetry. exact Hk.
  - intros k a' Hin. rewrite filter_with_key_app.
    destruct (in_upsert _ _ _ _ _ _ Hnd Hin) as [[-> [[a [Ha ->]]|[Hn ->]]]|[Hk Hi]].
    + unfold with_key. rewrite String.eqb_refl. apply Rel_next. apply Hrel. exact Ha.
    + unfold with_key at 1. rewrite String.eqb_refl.
      rewrite filter_with_key_nil; [apply Rel_first|].
      intros r' Hr' Heq. apply Hn. apply Hkeys. exists r'. auto.
    + unfold with_key at 1. destruct (String.eqb_spec (key r) k) as [Heq|_]; [congruence|].
      apply Hrel. exact Hi.
Qed.

Lemma group_inv_fold rs : forall pre m,
  group_inv key Rel pre m -> group_inv key Rel (pre ++ rs) (fold_left (fun m r => upsert (key r) (init r) (step r) m) rs m).
Proof.
  induction rs as [|r rs IH]; simpl; intros pre m H.
  - rewrite app_nil_r. exact H.
  - replace (pre ++ r :: rs) with ((pre ++ [r]) ++ rs) by (rewrite <- app_assoc; reflexivity).
    apply IH. apply group_inv_step. exact H.
Qed.

Lemma group_by_spec rs :
  group_inv key Rel rs (fold_left (fun m r => upsert (key r) (init r) (step r) m) rs []).
Proof.
  apply (group_inv_fold rs [] []). split; [constructor|]. split.
  - intros k. simpl. split; [intros []|intros [r [[] _]]].
  - intros k a [].
Qed.

End Grouping.

Lemma sumQ_app f l r : sumQ f (l ++ [r]) = (sumQ f l + f r)%Q.
Proof. unfold sumQ. rewrite fold_left_app. reflexivity. Qed.

Lemma mach_rel_first r : mach_rel [r] (mach_step r (mach_init (mach_name r))).
Proof. repeat split. Qed.

Lemma mach_rel_next l m r : mach_rel l m -> mach_rel (l ++ [r]) (mach_step r m).
Proof.
  intros [Hq [Hc Hy]]. unfold mach_rel, unit_quality, unit_cuts; cbn [mach_step m_quality m_cuts m_yarn].
  rewrite !fold_left_app, sumQ_app, Hq, Hc, Hy. repeat split.
Qed.

Lemma art_rel_first r : art_rel [r] (art_step r (art_init (art_num r))).
Proof. repeat split. Qed.

Lemma art_rel_next l a r : art_rel l a -> art_rel (l ++ [r]) (art_step r a).
Proof.
  intros [Hq [Hc [Hy Hm]]].
  unfold art_rel, unit_quality, unit_cuts; cbn [art_step a_quality a_cuts a_yarn a_machines].
  rewrite !fold_left_app, sumQ_app, Hq, Hc, Hy, Hm. repeat split.
Qed.

Lemma articles_inv records :
  group_inv art_key art_rel records (group_articles records).
Proof.
  exact (group_by_spec _ art_key (fun r => art_init (art_num r)) art_step art_rel
           art_rel_first art_rel_next records).
Qed.

Lemma machines_inv l a :
  art_rel l a -> group_inv mach_key mach_rel l a.(a_machines).
Proof.
  intros [_ [_ [_ ->]]].
  exact (group_by_spec _ mach_key (fun r => mach_init (mach_name r)) mach_step mach_rel
           mach_rel_first mach_rel_next l).
Qed.

(** *** Quality accumulators, column by column *)

Lemma keys_qmap_add (m : qmap) r : map fst (qmap_add m r) = map fst m.
Proof. induction m as [|[k v] m IH]; simpl; congruence. Qed.

Lemma qget_qmap_add (m : qmap) r col :
  In col (map fst m) ->
  qget (qmap_add m r) col = qacc_add (qget m col) (quality_val r col) (ref_length r).
Proof.
  unfold qget. induction m as [|[k v] m IH]; simpl; [intros []|].
  intros Hin. destruct (String.eqb_spec k col) as [->|Hne]; [reflexivity|].
  apply IH. destruct Hin as [->|Hin]; [congruence|exact Hin].
Qed.

(** The accumulator of one column, as the fold the source performs. *)
Lemma qget_fold_qmap_add rs (m : qmap) col :
  In col (map fst m) ->
  qget (fold_left qmap_add rs m) col =
  fold_left (fun a r => qacc_add a (quality_val r col) (ref_length r)) rs (qget m col).
Proof.
  revert m. induction rs as [|r rs IH]; simpl; intros m Hin; [reflexivity|].
  rewrite IH by (rewrite keys_qmap_add; exact Hin).
  rewrite qget_qmap_add by exact Hin. reflexivity.
Qed.


Lemma qacc_fold_sum rs col a :
  q_sum (fold_left (fun a r => qacc_add a (quality_val r col) (ref_length r)) rs a)
  = fold_left (fun s r => nadd s (quality_val r col)) rs (q_sum a).
Proof.
  revert a. induction rs as [|r rs IH]; simpl; intros a; [reflexivity|].
  rewrite IH. reflexivity.
Qed.

Lemma keys_qmap0 : map fst qmap0 = quality_columns.
Proof. reflexivity. Qed.

Lemma qget_qmap0 col : qget qmap0 col = qacc0.
Proof.
  unfold qget, qmap0. induction quality_columns as [|c cols IH]; simpl; auto.
  destruct (String.eqb c col); auto.
Qed.

Lemma unit_quality_col records col :
  In col quality_columns ->
  qget (unit_quality records) col =
  fold_left (fun a r => qacc_add a (quality_val r col) (ref_length r)) records qacc0.
Proof.
  intros Hin. unfold unit_quality. rewrite qget_fold_qmap_add by exact Hin.
  rewrite qget_qmap0. reflexivity.
Qed.

(** Entries of the article map and of each machine map. *)
Lemma article_entries records k a :
  In (k, a) (group_articles records) ->
  art_rel (filter (with_key art_key k) records) a /\
  forall mk m, In (mk, m) a.(a_machines) ->
    mach_rel (filter (with_key mach_key mk) (filter (with_key art_key k) records)) m.
Proof.
  intros Hin. destruct (articles_inv records) as [_ [_ Hrel]].
  specialize (Hrel k a Hin). split; [exact Hrel|].
  destruct (machines_inv _ _ Hrel) as [_ [_ Hm]]. exact Hm.
Qed.

(** *** Claims *)

(** C1: cut-counter conservation. For every cut column, the article
    counters of a unit add up to the unit counter, and within each article
    the machine counters add up to the article counter. *)
Theorem cut_rollup_conservation : forall records col,
  sum_entries (fun a => nget (a_cuts a) col) (group_articles records)
  == nget (unit_cuts records) col /\
  Forall (fun ka => sum_entries (fun m => nget (m_cuts m) col) (a_machines (snd ka))
                    == nget (a_cuts (snd ka)) col) (group_articles records).
Proof.
  intros records col.
  destruct (group_fold_sum col records [] (Forall_nil _)) as [HF HS].
  unfold group_articles. split.
  - rewrite HS. unfold unit_cuts.
    rewrite (nget_fold_nmap_add cut_columns) by apply keys_nmap0.
    rewrite nget_nmap0. simpl. lra.
  - eapply Forall_impl; [|exact HF]. intros [k a] [_ [_ H]]. exact H.
Qed.

(** C9: a refresh keeps the previous rows of a unit whose download or parse
    fails. Along any run of [fetchAllUnitsData] started from state [st0], the
    published cache is untouched until all six units settle; then each unit
    holds its freshly parsed rows if it loaded, and its rows from [st0]
    ([[]] if it had none) if it failed; and [lastFetchTime] is updated. *)
Theorem refresh_keeps_failed_unit : forall outcome now st0 ph,
  refresh_runs outcome now (Loading st0 [] units_all) ph ->
  (forall st nd p, ph = Loading st nd p -> st = st0) /\
  (forall st, ph = Published st ->
     (forall u rs, In u units_all -> outcome u = Loaded rs ->
        cache_get st.(cachedUnitsData) u = Some rs) /\
     (forall u, In u units_all -> outcome u = LoadFailed ->
        cache_get st.(cachedUnitsData) u = Some (unit_rows st0.(cachedUnitsData) u)) /\
     st.(lastFetchTime) = Some now).
Proof.
  intros outcome now st0 ph Hrun.
  assert (Hinv : refresh_inv outcome now st0 ph).
  { eapply refresh_inv_runs; [exact Hrun|]. simpl. split; [reflexivity|]. split.
    - intros u Hu; exact Hu.
    - intros u Hu. left. split; [exact Hu|reflexivity]. }
  split.
  - intros st nd p ->. destruct Hinv as [H _]. exact H.
  - intros st ->. destruct Hinv as [Hall Ht]. split; [|split; [|exact Ht]].
    + intros u rs Hu Ho. rewrite Hall by exact Hu. unfold settle. rewrite Ho. reflexivity.
    + intros u Hu Ho. rewrite Hall by exact Hu. unfold settle. rewrite Ho. reflexivity.
Qed.


(** C3: IPI and HSIPI are derived from each row's source columns and never
    read from a stored column. [val] for IPI is
    [Number(Thin50 || thin50 || 0) + Number(Thick50 || thick50 || 0) +
    Number(Nep200 || nep200 || 0)], and HSIPI likewise from Thin40, Thick35 and
    Nep140; the value depends on these six properties only; a row without
    them gives 0; the trend engine computes the same value; and the unit,
    article and machine accumulators all sum this per-row value over their
    own rows. *)
Theorem composite_ipi_hsipi :
  (forall r, quality_val r "IPI" =
             nadd (nadd (num2 r "Thin50" "thin50") (num2 r "Thick50" "thick50")) (num2 r "Nep200" "nep200")
          /\ quality_val r "HSIPI" =
             nadd (nadd (num2 r "Thin40" "thin40") (num2 r "Thick35" "thick35")) (num2 r "Nep140" "nep140")) /\
  (forall r r', (forall k, In k ["Thin50"; "thin50"; "Thick50"; "thick50"; "Nep200"; "nep200"]%string ->
                           prop r k = prop r' k) ->
                quality_val r "IPI" = quality_val r' "IPI") /\
  (forall r r', (forall k, In k ["Thin40"; "thin40"; "Thick35"; "thick35"; "Nep140"; "nep140"]%string ->
                           prop r k = prop r' k) ->
                quality_val r "HSIPI" = quality_val r' "HSIPI") /\
  (forall r, (forall k, In k ["Thin50"; "thin50"; "Thick50"; "thick50"; "Nep200"; "nep200"]%string ->
                        prop r k = None) -> quality_val r "IPI" = Some 0) /\
  (forall r, (forall k, In k ["Thin40"; "thin40"; "Thick35"; "thick35"; "Nep140"; "nep140"]%string ->
                        prop r k = None) -> quality_val r "HSIPI" = Some 0) /\
  (forall r, trend_value "IPI" r = quality_val r "IPI" /\ trend_value "HSIPI" r = quality_val r "HSIPI") /\
  (forall records col, col = "IPI"%string \/ col = "HSIPI"%string ->
     q_sum (qget (unit_quality records) col)
       = fold_left (fun s r => nadd s (quality_val r col)) records (Some 0) /\
     (forall k a, In (k, a) (group_articles records) ->
        q_sum (qget a.(a_quality) col)
          = fold_left (fun s r => nadd s (quality_val r col)) (filter (with_key art_key k) records) (Some 0) /\
        forall mk m, In (mk, m) a.(a_machines) ->
          q_sum (qget m.(m_quality) col)
            = fold_left (fun s r => nadd s (quality_val r col))
                        (filter (with_key mach_key mk) (filter (with_key art_key k) records)) (Some 0))).
Proof.
  split; [|split; [|split; [|split; [|split; [|split]]]]].
  - intros r. split; reflexivity.
  - intros r r' H. cbn [quality_val String.eqb Ascii.eqb Bool.eqb andb]. unfold num2.
    rewrite !H by (simpl; tauto). reflexivity.
  - intros r r' H. cbn [quality_val String.eqb Ascii.eqb Bool.eqb andb]. unfold num2.
    rewrite !H by (simpl; tauto). reflexivity.
  - intros r H. cbn [quality_val String.eqb Ascii.eqb Bool.eqb andb]. unfold num2.
    rewrite !H by (simpl; tauto). reflexivity.
  - intros r H. cbn [quality_val String.eqb Ascii.eqb Bool.eqb andb]. unfold num2.
    rewrite !H by (simpl; tauto). reflexivity.
  - intros r. split; reflexivity.
  - intros records col Hcol.
    assert (Hin : In col quality_columns) by (destruct Hcol as [->| ->]; simpl; tauto).
    assert (Hsum : forall rs, q_sum (qget (unit_quality rs) col)
                              = fold_left (fun s r => nadd s (quality_val r col)) rs (Some 0)).
    { intros rs. rewrite unit_quality_col by exact Hin. rewrite qacc_fold_sum. reflexivity. }
    split; [apply Hsum|].
    intros k a Ha. destruct (article_entries records k a Ha) as [[Hq _] Hm].
    rewrite Hq. split; [apply Hsum|].
    intros mk m Hmk. destruct (Hm mk m Hmk) as [Hq' _]. rewrite Hq'. apply Hsum.
Qed.


(** C8, as the code does it: a unit whose [cachedUnitsData[unit]] is an empty
    array, or absent and not a key of [Object.prototype], gives the literal
    [{unit, yarnFaults: 'N/A', shiftStartTime: null, articles: [], latestShift: 'All'}],
    and so does the whole call for that unit alone; a unit with cached rows
    none of which passes the filter gives the full aggregate of no records:
    [yarnFaults] the number 0 (not 'N/A'), zero counters, every rate "0.00"
    and no articles. A unit name inherited from [Object.prototype] whose
    value has a length other than 0 (such as "constructor") makes
    [jsonData.filter] throw, and the call returns [[]]. *)
Theorem empty_unit_results : forall c t machF u,
  (cache_get c u = Some [] \/ (cache_get c u = None /\ is_proto_key u = false) ->
     unit_result_try c t machF u = Some (UEmpty u) /\
     forall dF sF dash, u <> EmptyString -> getQuantumData c dF sF (Some u) machF dash = [UEmpty u]) /\
  (forall rs, cache_get c u = Some rs -> rs <> [] -> filter (keep_record t machF) rs = [] ->
     unit_result_try c t machF u = Some (UFull (aggregate u t [])) /\
     uo_yarnFaults (aggregate u t []) = VNum 0 /\
     uo_totalAlarms (aggregate u t []) = 0 /\ uo_totalCuts (aggregate u t []) = 0 /\
     uo_alarmsPer1000km (aggregate u t []) = VNum 0 /\ uo_cutsPer100km (aggregate u t []) = VNum 0 /\
     uo_alarmBreakdown (aggregate u t []) = nmap0 alarm_columns /\
     uo_unitCuts (aggregate u t []) = map (fun col => (col, "0.00"%string)) cut_columns /\
     uo_unitQuality (aggregate u t []) = map (fun col => (col, "0.00"%string)) quality_columns /\
     uo_articles (aggregate u t []) = []) /\
  (cache_get c u = None -> is_proto_key u = true -> proto_length u <> Some 0%Z ->
     unit_result_try c t machF u = None /\
     forall dF sF dash, u <> EmptyString -> getQuantumData c dF sF (Some u) machF dash = []).
Proof.
  intros c t machF u.
  assert (Hone : forall dF sF dash, u <> EmptyString ->
            getQuantumData c dF sF (Some u) machF dash
            = match unit_result_try c (resolve c dF sF (Some u) dash) machF u with
              | Some x => [x] | None => [] end).
  { intros dF sF dash Hu. unfold getQuantumData, units_of. cbn zeta.
    replace (str_truthy (Some u)) with true
      by (simpl; apply String.eqb_neq in Hu; rewrite Hu; reflexivity).
    simpl. destruct (unit_result_try _ _ _ _); reflexivity. }
  split; [|split].
  - intros H.
    assert (E : forall t', unit_result_try c t' machF u = Some (UEmpty u)).
    { intros t'. unfold unit_result_try, cache_prop.
      destruct H as [H|[H Hp]]; rewrite H; [reflexivity|rewrite Hp; reflexivity]. }
    split; [apply E|]. intros dF sF dash Hu. rewrite (Hone dF sF dash Hu), E. reflexivity.
  - intros rs Hc Hne Hrec. split.
    + unfold unit_result_try, cache_prop. rewrite Hc.
      destruct rs as [|r rs']; [contradiction|]. rewrite Hrec. reflexivity.
    + repeat split; vm_compute; reflexivity.
  - intros Hc Hp Hl.
    assert (E : forall t', unit_result_try c t' machF u = None).
    { intros t'. unfold unit_result_try, cache_prop. rewrite Hc, Hp.
      destruct (proto_length u) as [[|n|n]|]; [contradiction|reflexivity|reflexivity|reflexivity]. }
    split; [apply E|]. intros dF sF dash Hu. rewrite (Hone dF sF dash Hu), E. reflexivity.
Qed.

(** *** Membership through the sorts and [Object.entries] *)

Lemma in_insert_by {A} (before : A -> A -> bool) x l y :
  In y (insert_by before x l) <-> y = x \/ In y l.
Proof.
  induction l as [|z l IH]; simpl.
  - split; intros [H|[]]; left; symmetry; exact H.
  - destruct (before x z); simpl.
    + split; intros [H|H]; [left; symmetry; exact H|right; exact H|left; symmetry; exact H|right; exact H].
    + rewrite IH. split; intros [H|H]; try tauto.
Qed.

Lemma in_sort_by_acc {A} (before : A -> A -> bool) l : forall acc y,
  In y (fold_left (fun acc x => insert_by before x acc) l acc) <-> In y acc \/ In y l.
Proof.
  induction l as [|x l IH]; simpl; intros acc y; [tauto|].
  rewrite IH, in_insert_by. intuition (subst; tauto).
Qed.

Lemma in_sort_by {A} (before : A -> A -> bool) l y : In y (sort_by before l) <-> In y l.
Proof. unfold sort_by. rewrite in_sort_by_acc. simpl. tauto. Qed.











(** C5, as the code does it: once the targets (date, shift, latest shift) and
    the machine filter are fixed, a row whose yarn length is below 300
    (missing or non-numeric counting as 0) never passes the [records] filter
    of [getQuantumData], so removing it changes neither the records nor the
    unit, article and machine aggregate built from them. *)
Theorem short_rows_filtered_out : forall t machF l1 r l2 u,
  yarn_length r < 300 ->
  keep_record t machF r = false /\
  filter (keep_record t machF) (l1 ++ r :: l2) = filter (keep_record t machF) (l1 ++ l2) /\
  aggregate u t (filter (keep_record t machF) (l1 ++ r :: l2))
  = aggregate u t (filter (keep_record t machF) (l1 ++ l2)).
Proof.
  intros t machF l1 r l2 u Hy.
  assert (Hk : keep_record t machF r = false).
  { unfold keep_record. destruct (row_date r); [|reflexivity].
    replace (Qltb (yarn_length r) 300) with true by
      (unfold Qltb; symmetry; apply negb_true_iff, not_true_is_false;
       rewrite Qle_bool_iff; intros Hle; apply (Qlt_not_le _ _ Hy Hle)).
    rewrite !andb_false_r. reflexivity. }
  assert (Hf : filter (keep_record t machF) (l1 ++ r :: l2) = filter (keep_record t machF) (l1 ++ l2)).
  { rewrite !filter_app. simpl. rewrite Hk. reflexivity. }
  split; [exact Hk|]. split; [exact Hf|]. rewrite Hf. reflexivity.
Qed.

(** *** String order, [sort()] and [new Set] *)

Lemma ascii_compare_spec a b :
  CompareSpec (a = b) (N_of_ascii a < N_of_ascii b)%N (N_of_ascii b < N_of_ascii a)%N
              (Ascii.compare a b).
Proof.
  unfold Ascii.compare.
  destruct (N.compare_spec (N_of_ascii a) (N_of_ascii b)) as [H|H|H]; constructor; auto.
  rewrite <- (ascii_N_embedding a), <- (ascii_N_embedding b), H. reflexivity.
Qed.

Lemma str_compare_refl x : String.compare x x = Eq.
Proof.
  induction x as [|a x IH]; simpl; [reflexivity|].
  destruct (ascii_compare_spec a a) as [_|H|H]; [exact IH|lia|lia].
Qed.

Lemma str_lt_trans x : forall y z,
  String.compare x y = Lt -> String.compare y z = Lt -> String.compare x z = Lt.
Proof.
  induction x as [|a x IH]; intros [|b y] [|c z]; simpl; try congruence.
  destruct (ascii_compare_spec a b) as [Hab|Hab|Hab], (ascii_compare_spec b c) as [Hbc|Hbc|Hbc],
    (ascii_compare_spec a c) as [Hac|Hac|Hac]; intros H1 H2; try discriminate; try reflexivity;
    subst; try lia; eauto.
Qed.

Lemma str_ltb_true x y : String.ltb x y = true -> String.compare x y = Lt.
Proof. unfold String.ltb. destruct (String.compare x y); congruence. Qed.

Lemma str_ltb_false x y : String.ltb x y = false -> x <> y -> String.compare y x = Lt.
Proof.
  unfold String.ltb. rewrite String.compare_antisym.
  destruct (String.compare y x) eqn:E; simpl; try congruence.
  intros _ Hne. apply String.compare_eq_iff in E. congruence.
Qed.

Lemma str_lt_leb x y : String.compare x y = Lt -> String.leb x y = true.
Proof. unfold String.leb. intros ->. reflexivity. Qed.

Lemma str_lt_neq x y : String.compare x y = Lt -> x <> y.
Proof. intros H ->. rewrite str_compare_refl in H. discriminate. Qed.

Lemma ss_insert x l :
  StronglySorted (fun a b => String.compare a b = Lt) l -> ~ In x l ->
  StronglySorted (fun a b => String.compare a b = Lt) (insert_by String.ltb x l).
Proof.
  induction l as [|a l IH]; simpl; intros Hs Hn.
  - constructor; constructor.
  - inversion Hs as [|a' l' Hs' Hf]; subst.
    destruct (String.ltb x a) eqn:E.
    + apply str_ltb_true in E. constructor; [exact Hs|]. constructor; [exact E|].
      eapply Forall_impl; [|exact Hf]. intros b Hb. eapply str_lt_trans; eauto.
    + apply str_ltb_false in E; [|intros ->; apply Hn; left; reflexivity].
      constructor; [apply IH; auto|]. apply Forall_forall. intros b Hb.
      apply in_insert_by in Hb. destruct Hb as [->|Hb]; [exact E|].
      rewrite Forall_forall in Hf. apply Hf, Hb.
Qed.

Lemma ss_sort_acc l : forall acc,
  StronglySorted (fun a b => String.compare a b = Lt) acc -> NoDup l ->
  (forall x, In x l -> ~ In x acc) ->
  StronglySorted (fun a b => String.compare a b = Lt)
                 (fold_left (fun acc x => insert_by String.ltb x acc) l acc).
Proof.
  induction l as [|x l IH]; simpl; intros acc Hs Hnd Hout; [exact Hs|].
  inversion Hnd as [|x' l' Hx Hnd']; subst.
  apply IH; [apply ss_insert; [exact Hs|apply Hout; left; reflexivity]|exact Hnd'|].
  intros y Hy Hin. apply in_insert_by in Hin. destruct Hin as [->|Hin]; [contradiction|].
  exact (Hout y (or_intror Hy) Hin).
Qed.

Lemma ss_sort l :
  NoDup l -> StronglySorted (fun a b => String.compare a b = Lt) (sort_by String.ltb l).
Proof. intros Hnd. apply ss_sort_acc; [constructor|exact Hnd|intros x _ []]. Qed.

Lemma ss_nodup l : StronglySorted (fun a b => String.compare a b = Lt) l -> NoDup l.
Proof.
  induction 1 as [|a l _ IH Hf]; constructor; [|exact IH].
  intros Hin. rewrite Forall_forall in Hf. apply (str_lt_neq a a); [apply Hf, Hin|reflexivity].
Qed.

Lemma ss_app {A} (R : A -> A -> Prop) l1 l2 :
  StronglySorted R (l1 ++ l2) -> forall a b, In a l1 -> In b l2 -> R a b.
Proof.
  induction l1 as [|x l1 IH]; simpl; [intros _ a b []|].
  intros H. inversion H as [|x' l' Hs Hf]; subst. intros a b [<-|Ha] Hb.
  - rewrite Forall_forall in Hf. apply Hf, in_or_app. right. exact Hb.
  - exact (IH Hs a b Ha Hb).
Qed.

Lemma dedup_acc {A} (eqb : A -> A -> bool) (Heqb : forall a b, eqb a b = true <-> a = b) l :
  forall acc, NoDup acc ->
  NoDup (fold_left (fun acc x => if existsb (eqb x) acc then acc else x :: acc) l acc) /\
  forall y, In y (fold_left (fun acc x => if existsb (eqb x) acc then acc else x :: acc) l acc)
            <-> In y acc \/ In y l.
Proof.
  induction l as [|x l IH]; simpl; intros acc Hnd; [split; [exact Hnd|tauto]|].
  destruct (existsb (eqb x) acc) eqn:E.
  - destruct (IH acc Hnd) as [H1 H2]. split; [exact H1|]. intros y. rewrite H2.
    apply existsb_exists in E. destruct E as [z [Hz Hxz]]. apply Heqb in Hxz. subst z.
    intuition (subst; tauto).
  - assert (Hx : ~ In x acc).
    { intros Hin. assert (existsb (eqb x) acc = true) by (apply existsb_exists; exists x; split; [exact Hin|apply Heqb; reflexivity]). congruence. }
    destruct (IH (x :: acc) (NoDup_cons _ Hx Hnd)) as [H1 H2]. split; [exact H1|].
    intros y. rewrite H2. simpl. intuition (subst; tauto).
Qed.

Lemma dedup_spec {A} (eqb : A -> A -> bool) (Heqb : forall a b, eqb a b = true <-> a = b) l :
  NoDup (dedup eqb l) /\ forall y, In y (dedup eqb l) <-> In y l.
Proof.
  unfold dedup. destruct (dedup_acc eqb Heqb l [] (NoDup_nil _)) as [H1 H2].
  split; [apply NoDup_rev, H1|]. intros y. rewrite <- in_rev, H2. simpl. tauto.
Qed.

Lemma in_filter_some {A} (l : list (option A)) x : In x (filter_some l) <-> In (Some x) l.
Proof.
  induction l as [|[y|] l IH]; simpl; [tauto| |].
  - rewrite IH. intuition congruence.
  - rewrite IH. intuition congruence.
Qed.

Lemma nodup_filter_some {A} (l : list (option A)) : NoDup l -> NoDup (filter_some l).
Proof.
  induction l as [|[y|] l IH]; simpl; intros H; inversion H as [|z l' Hz Hl]; subst; [constructor| |auto].
  constructor; [|auto]. rewrite in_filter_some. exact Hz.
Qed.

Lemma opt_str_eqb_iff a b : opt_str_eqb a b = true <-> a = b.
Proof.
  destruct a as [x|], b as [y|]; simpl; try (split; congruence).
  rewrite String.eqb_eq. split; congruence.
Qed.

(** The distinct row dates, sorted ascending: [available_dates] is its reverse. *)
Lemma sorted_dates all :
  let L := sort_by String.ltb (filter_some (dedup opt_str_eqb (map row_date all))) in
  StronglySorted (fun a b => String.compare a b = Lt) L /\ NoDup L /\
  (forall d, In d L <-> In d (filter_some (map row_date all))) /\
  available_dates all = rev L.
Proof.
  destruct (dedup_spec opt_str_eqb opt_str_eqb_iff (map row_date all)) as [Hnd Hin].
  assert (Hs : StronglySorted (fun a b => String.compare a b = Lt)
                 (sort_by String.ltb (filter_some (dedup opt_str_eqb (map row_date all)))))
    by (apply ss_sort, nodup_filter_some, Hnd).
  split; [exact Hs|]. split; [apply ss_nodup, Hs|]. split; [|reflexivity].
  intros d. rewrite in_sort_by, !in_filter_some, Hin. tauto.
Qed.

Lemma format_ymd_nonempty ymd : format_ymd ymd <> EmptyString.
Proof. destruct ymd as [[y m] d]. unfold format_ymd. destruct (zstr y); discriminate. Qed.

Lemma row_date_nonempty r d : row_date r = Some d -> d <> EmptyString.
Proof.
  unfold row_date. destruct (truthy (row_date_val r)); [|discriminate].
  destruct (row_date_val r) as [c|]; [|discriminate].
  destruct (local_ymd c) as [ymd|]; simpl; [|discriminate].
  intros H. injection H as <-. apply format_ymd_nonempty.
Qed.

(** With no [dateFilter] and rows to pool, the target date is the one chosen
    from [availableDates]. *)
Lemma resolve_default_date c s uf dash :
  pooled c (units_of uf) <> [] ->
  t_date (resolve c None s uf dash) =
  (let dates := available_dates (pooled c (units_of uf)) in
   if (0 <? length dates)%nat then
     (if dash then (if str_truthy (nth_error dates 1) then nth_error dates 1 else nth_error dates 0)
      else nth_error dates 0)
   else None).
Proof.
  intros Hne. unfold resolve. cbn zeta. simpl negb. simpl orb.
  destruct (pooled c (units_of uf)) as [|r0 rs0]; [contradiction|]. simpl andb.
  match goal with |- t_date (match ?e with _ => _ end) = _ => destruct e as [td|] end;
    [destruct (str_truthy (Some td))|]; reflexivity.
Qed.

(** C6: with no [dateFilter], the target date is the most recent distinct row
    date of the pooled rows ("YYYY-MM-DD" strings, most recent = greatest),
    and in dashboard mode the second most recent, or the most recent when
    there is only one. *)
Theorem default_target_date : forall c s uf dmax,
  let ds := filter_some (map row_date (pooled c (units_of uf))) in
  In dmax ds -> (forall d, In d ds -> String.leb d dmax = true) ->
  t_date (resolve c None s uf false) = Some dmax /\
  ((forall d, In d ds -> d = dmax) -> t_date (resolve c None s uf true) = Some dmax) /\
  (forall d2, In d2 ds -> d2 <> dmax -> (forall d, In d ds -> d <> dmax -> String.leb d d2 = true) ->
     t_date (resolve c None s uf true) = Some d2).
Proof.
  intros c s uf dmax ds Hmax Hle.
  assert (Hne : pooled c (units_of uf) <> []).
  { intros E. unfold ds in Hmax. rewrite E in Hmax. destruct Hmax. }
  destruct (sorted_dates (pooled c (units_of uf))) as [Hs [Hnd [Hin Hav]]].
  set (L := sort_by String.ltb (filter_some (dedup opt_str_eqb (map row_date (pooled c (units_of uf)))))) in *.
  fold ds in Hin.
  rewrite !resolve_default_date by exact Hne. cbn zeta. rewrite Hav.
  destruct (rev L) as [|h t] eqn:Er.
  { exfalso. apply (proj2 (Hin dmax)) in Hmax. apply in_rev in Hmax. rewrite Er in Hmax. destruct Hmax. }
  assert (EL : L = rev t ++ [h]) by (rewrite <- (rev_involutive L), Er; reflexivity).
  assert (Hh : In h ds) by (apply Hin; rewrite EL; apply in_or_app; right; left; reflexivity).
  assert (Htop : forall x, In x L -> x = h \/ String.compare x h = Lt).
  { intros x Hx. rewrite EL in Hx. apply in_app_or in Hx. destruct Hx as [Hx|[<-|[]]]; [|left; reflexivity].
    right. rewrite EL in Hs. exact (ss_app _ _ _ Hs x h Hx (or_introl eq_refl)). }
  assert (Hhmax : h = dmax).
  { apply String.leb_antisym; [apply Hle, Hh|].
    destruct (Htop dmax (proj2 (Hin dmax) Hmax)) as [->|Hlt]; [|apply str_lt_leb, Hlt].
    unfold String.leb. rewrite str_compare_refl. reflexivity. }
  subst h. simpl. split; [reflexivity|]. split.
  - intros Hall. destruct t as [|h' t']; [reflexivity|].
    exfalso. assert (Hnd' : NoDup (dmax :: h' :: t')) by (rewrite <- Er; apply NoDup_rev, Hnd).
    inversion Hnd' as [|x y Hx _]; subst. apply Hx. left.
    apply Hall. apply Hin. apply in_rev. rewrite Er. right. left. reflexivity.
  - intros d2 Hd2 Hne2 Hsec. destruct t as [|h' t'].
    { exfalso. apply (proj2 (Hin d2)) in Hd2. apply in_rev in Hd2. rewrite Er in Hd2.
      destruct Hd2 as [->|[]]; apply Hne2; reflexivity. }
    assert (Hh' : In h' ds) by (apply Hin, in_rev; rewrite Er; right; left; reflexivity).
    assert (Hnd' : NoDup (dmax :: h' :: t')) by (rewrite <- Er; apply NoDup_rev, Hnd).
    inversion Hnd' as [|x y Hx _]; subst.
    assert (Hh'd : h' <> dmax) by (intros ->; apply Hx; left; reflexivity).
    replace (str_truthy (Some h')) with true
      by (symmetry; simpl; apply negb_true_iff, String.eqb_neq;
          unfold ds in Hh'; apply in_filter_some, in_map_iff in Hh';
          destruct Hh' as [r [Hr _]]; exact (row_date_nonempty r h' Hr)).
    f_equal. apply String.leb_antisym; [apply Hsec; [exact Hh'|exact Hh'd]|].
    assert (EL' : L = rev t' ++ [h'; dmax])
      by (rewrite <- (rev_involutive L), Er; simpl; rewrite <- app_assoc; reflexivity).
    apply (proj2 (Hin d2)) in Hd2. rewrite EL' in Hd2. apply in_app_or in Hd2.
    destruct Hd2 as [Hd2|[<-|[<-|[]]]].
    + rewrite EL' in Hs. apply str_lt_leb. exact (ss_app _ _ _ Hs d2 h' Hd2 (or_introl eq_refl)).
    + unfold String.leb. rewrite str_compare_refl. reflexivity.
    + contradiction.
Qed.

(** *** The shifts of a date, sorted with [(a, b) => b - a] *)

Lemma dedup_cover_acc {A} (eqb : A -> A -> bool) l : forall acc,
  let res := fold_left (fun acc x => if existsb (eqb x) acc then acc else x :: acc) l acc in
  (forall x, In x acc -> In x res) /\ (forall x, In x res -> In x acc \/ In x l) /\
  (forall y, In y l -> In y res \/ exists x, In x res /\ eqb y x = true).
Proof.
  induction l as [|z l IH]; simpl; intros acc.
  - split; [tauto|]. split; [tauto|]. intros y [].
  - destruct (existsb (eqb z) acc) eqn:E.
    + destruct (IH acc) as [H1 [H2 H3]]. split; [exact H1|]. split.
      * intros x Hx. destruct (H2 x Hx); tauto.
      * intros y [<-|Hy]; [|exact (H3 y Hy)].
        apply existsb_exists in E. destruct E as [x [Hx He]]. right. exists x. auto.
    + destruct (IH (z :: acc)) as [H1 [H2 H3]]. split; [intros x Hx; apply H1; right; exact Hx|].
      split.
      * intros x Hx. destruct (H2 x Hx) as [[<-|Hx']|Hx']; tauto.
      * intros y [<-|Hy]; [left; apply H1; left; reflexivity|exact (H3 y Hy)].
Qed.

Lemma dedup_cover {A} (eqb : A -> A -> bool) l :
  (forall x, In x (dedup eqb l) -> In x l) /\
  (forall y, In y l -> In y (dedup eqb l) \/ exists x, In x (dedup eqb l) /\ eqb y x = true).
Proof.
  unfold dedup. destruct (dedup_cover_acc eqb l []) as [_ [H2 H3]]. split.
  - intros x Hx. apply in_rev in Hx. destruct (H2 x Hx) as [[]|H]; exact H.
  - intros y Hy. destruct (H3 y Hy) as [H|[x [Hx He]]]; [left; rewrite <- in_rev; exact H|].
    right. exists x. split; [rewrite <- in_rev; exact Hx|exact He].
Qed.

Lemma cell_same_sound a b :
  cell_same a b = true ->
  truthy a = truthy b /\ (num_or0 (to_number a) == num_or0 (to_number b)) /\
  (to_number a = None <-> to_number b = None).
Proof.
  destruct a as [[x|x|x]|], b as [[y|y|y]|]; simpl; try discriminate.
  - intros H. apply Qeq_bool_iff in H. split; [|split; [exact H|split; discriminate]].
    f_equal. destruct (Qeq_bool x 0) eqn:E1, (Qeq_bool y 0) eqn:E2; auto.
    + apply Qeq_bool_iff in E1. apply Qeq_bool_neq in E2. exfalso. apply E2. rewrite <- H. exact E1.
    + apply Qeq_bool_iff in E2. apply Qeq_bool_neq in E1. exfalso. apply E1. rewrite H. exact E2.
  - intros H. apply String.eqb_eq in H. subst. split; [reflexivity|]. split; [reflexivity|tauto].
  - intros _. split; [reflexivity|]. split; [reflexivity|tauto].
Qed.

Lemma shift_insert_max x l :
  (forall y, y = x \/ In y l -> to_number y <> None) ->
  (forall h t, l = h :: t -> forall y, In y l -> num_or0 (to_number y) <= num_or0 (to_number h)) ->
  forall h t, insert_by shift_before x l = h :: t ->
  forall y, y = x \/ In y l -> num_or0 (to_number y) <= num_or0 (to_number h).
Proof.
  intros Hnum Hmax h t Hins y Hy. destruct l as [|z l'].
  - simpl in Hins. injection Hins as <- <-. destruct Hy as [->|[]]. apply Qle_refl.
  - simpl in Hins. assert (Hz : forall w, In w (z :: l') -> num_or0 (to_number w) <= num_or0 (to_number z))
      by (apply (Hmax z l'); reflexivity).
    unfold shift_before in Hins.
    destruct (to_number x) as [qx|] eqn:Ex; [|exfalso; apply (Hnum x); auto].
    destruct (to_number z) as [qz|] eqn:Ez; [|exfalso; apply (Hnum z); simpl; auto].
    destruct (Qltb (qz - qx) 0) eqn:E.
    + injection Hins as <- _. unfold Qltb in E. apply negb_true_iff in E.
      assert (Hlt : qz < qx).
      { destruct (Qlt_le_dec qz qx) as [H|H]; [exact H|].
        assert (Hb : Qle_bool 0 (qz - qx) = true) by (apply Qle_bool_iff; lra). congruence. }
      try rewrite Ex. destruct Hy as [->|Hy]; [try rewrite Ex; apply Qle_refl|].
      specialize (Hz y Hy). try rewrite Ez in Hz. simpl in *. lra.
    + injection Hins as <- _. unfold Qltb in E. apply negb_false_iff, Qle_bool_iff in E.
      try rewrite Ez. destruct Hy as [->|Hy]; [try rewrite Ex; simpl; lra|].
      specialize (Hz y Hy). try rewrite Ez in Hz. exact Hz.
Qed.

Lemma shift_sort_max_acc l : forall acc,
  (forall y, In y acc \/ In y l -> to_number y <> None) ->
  (forall h t, acc = h :: t -> forall y, In y acc -> num_or0 (to_number y) <= num_or0 (to_number h)) ->
  forall h t, fold_left (fun acc x => insert_by shift_before x acc) l acc = h :: t ->
  forall y, In y acc \/ In y l -> num_or0 (to_number y) <= num_or0 (to_number h).
Proof.
  induction l as [|x l IH]; simpl; intros acc Hnum Hmax h t Hres y Hy.
  - destruct Hy as [Hy|[]]. exact (Hmax h t Hres y Hy).
  - assert (Hins : forall h' t', insert_by shift_before x acc = h' :: t' ->
                   forall w, In w (insert_by shift_before x acc) ->
                   num_or0 (to_number w) <= num_or0 (to_number h')).
    { intros h' t' E w Hw. apply in_insert_by in Hw.
      assert (Hnum' : forall y, y = x \/ In y acc -> to_number y <> None)
        by (intros w' Hw'; apply Hnum; destruct Hw'; subst; simpl; tauto).
      exact (shift_insert_max x acc Hnum' Hmax h' t' E w Hw). }
    apply (IH (insert_by shift_before x acc)) with (t := t); auto.
    + intros w [Hw|Hw]; apply Hnum; [apply in_insert_by in Hw; destruct Hw as [->|Hw]|]; tauto.
    + rewrite in_insert_by. destruct Hy as [Hy|[<-|Hy]]; [tauto|left; left; reflexivity|tauto].
Qed.

(** The first of the sorted shifts has the largest number. *)
Lemma shift_sort_max l h t :
  (forall y, In y l -> to_number y <> None) ->
  sort_by shift_before l = h :: t ->
  forall y, In y l -> num_or0 (to_number y) <= num_or0 (to_number h).
Proof.
  intros Hnum Hs y Hy. apply (shift_sort_max_acc l [] ) with (t := t); auto.
  - intros w [[]|Hw]. auto.
  - intros h' t' E. discriminate.
Qed.

Lemma filter_all_false {A} (f : A -> bool) l : (forall x, In x l -> f x = false) -> filter f l = [].
Proof.
  induction l as [|x l IH]; simpl; intros H; [reflexivity|].
  rewrite (H x (or_introl eq_refl)). apply IH. intros y Hy. apply H. right. exact Hy.
Qed.

(** C7, as the code does it: [latestShift] is [latestShiftForDate] only when
    the defaulting block runs, that is when [dateFilter] or [shiftFilter] is
    absent ('all' counts as given), rows are pooled and a target date is
    found; it is then the numerically largest truthy shift among the rows of
    the target date ('All' when they have none). When both a date and a shift
    (or 'all') are given, [latestShift] is 'All'. *)
Theorem latest_shift_exposure : forall c dateF shiftF unitF dash,
  (str_truthy dateF = true -> str_truthy shiftF = true ->
     t_latest (resolve c dateF shiftF unitF dash) = str "All") /\
  (str_truthy dateF = false \/ str_truthy shiftF = false ->
     forall td, t_date (resolve c dateF shiftF unitF dash) = Some td -> td <> EmptyString ->
     pooled c (units_of unitF) <> [] ->
     t_latest (resolve c dateF shiftF unitF dash) = latest_shift_for_date (pooled c (units_of unitF)) td) /\
  (forall all td,
     (forall r, In r all -> row_date_unguarded r = Some td -> truthy (row_shift r) = false) ->
     latest_shift_for_date all td = str "All") /\
  (forall all td,
     (forall r, In r all -> row_date_unguarded r = Some td -> truthy (row_shift r) = true ->
                to_number (row_shift r) <> None) ->
     (exists r, In r all /\ row_date_unguarded r = Some td /\ truthy (row_shift r) = true) ->
     exists r, In r all /\ row_date_unguarded r = Some td /\ truthy (row_shift r) = true /\
       latest_shift_for_date all td = row_shift r /\
       forall r', In r' all -> row_date_unguarded r' = Some td -> truthy (row_shift r') = true ->
         num_or0 (to_number (row_shift r')) <= num_or0 (to_number (row_shift r))).
Proof.
  intros c dateF shiftF unitF dash. split; [|split; [|split]].
  - intros Hd Hs. unfold resolve. cbn zeta. rewrite Hd. simpl negb. simpl orb.
    destruct shiftF as [sf|]; [|discriminate]. simpl in Hs |- *.
    destruct (String.eqb sf "all"); simpl; [reflexivity|]. rewrite Hs. reflexivity.
  - intros Hcond td Htd Hne Hp. revert Htd. unfold resolve. cbn zeta.
    replace (negb (str_truthy dateF) ||
             negb (truthy (if opt_str_eqb shiftF (Some "all"%string) then None else option_map CStr shiftF)) &&
             negb (opt_str_eqb shiftF (Some "all"%string))) with true.
    2:{ symmetry. destruct Hcond as [H|H]; [rewrite H; reflexivity|].
        destruct shiftF as [sf|]; simpl in H |- *; [|apply orb_true_r].
        apply negb_false_iff, String.eqb_eq in H. subst sf. apply orb_true_r. }
    destruct (pooled c (units_of unitF)) as [|r0 rs0]; [contradiction|].
    match goal with |- context [match ?e with Some _ => _ | None => _ end] => destruct e as [td'|] end;
      [|discriminate].
    destruct (str_truthy (Some td')) eqn:Et; simpl; intros E; injection E as ->; [reflexivity|].
    simpl in Et. apply negb_false_iff, String.eqb_eq in Et. contradiction.
  - intros all td Hnone. unfold latest_shift_for_date, shifts_for_date.
    destruct (dedup_cover cell_same
                (map row_shift (filter (fun r => opt_str_eqb (row_date_unguarded r) (Some td)) all)))
      as [Hsub _].
    replace (filter truthy _) with (@nil (option cell)); [reflexivity|].
    symmetry. apply filter_all_false. intros x Hx. apply Hsub, in_map_iff in Hx.
    destruct Hx as [r [<- Hr]]. apply filter_In in Hr. destruct Hr as [Hr Hd].
    apply opt_str_eqb_iff in Hd. exact (Hnone r Hr Hd).
  - intros all td Hnum [r1 [Hr1 [Hd1 Ht1]]]. unfold latest_shift_for_date, shifts_for_date.
    set (F := filter (fun r => opt_str_eqb (row_date_unguarded r) (Some td)) all).
    destruct (dedup_cover cell_same (map row_shift F)) as [Hsub Hcov].
    set (D := dedup cell_same (map row_shift F)) in *.
    assert (HinF : forall r, In r F <-> In r all /\ row_date_unguarded r = Some td).
    { intros r. unfold F. rewrite filter_In, opt_str_eqb_iff. tauto. }
    assert (HT : forall x, In x (filter truthy D) ->
                 exists r, In r all /\ row_date_unguarded r = Some td /\ truthy (row_shift r) = true /\
                           x = row_shift r).
    { intros x Hx. apply filter_In in Hx. destruct Hx as [Hx Htx].
      apply Hsub, in_map_iff in Hx. destruct Hx as [r [<- Hr]]. apply HinF in Hr.
      exists r. tauto. }
    (* every truthy shift of the date has a truthy representative in [D] *)
    assert (Hrep : forall r, In r all -> row_date_unguarded r = Some td -> truthy (row_shift r) = true ->
                   exists x, In x (filter truthy D) /\
                             num_or0 (to_number (row_shift r)) == num_or0 (to_number x)).
    { intros r Hr Hd Ht. assert (Hm : In (row_shift r) (map row_shift F))
        by (apply in_map, HinF; auto).
      destruct (Hcov _ Hm) as [Hin|[x [Hx Hs]]].
      - exists (row_shift r). split; [apply filter_In; auto|reflexivity].
      - destruct (cell_same_sound _ _ Hs) as [Etr [Enum _]].
        exists x. split; [apply filter_In; split; [exact Hx|congruence]|exact Enum]. }
    destruct (sort_by shift_before (filter truthy D)) as [|h t] eqn:ES.
    { exfalso. destruct (Hrep r1 Hr1 Hd1 Ht1) as [x [Hx _]].
      apply (in_sort_by shift_before) in Hx. rewrite ES in Hx. destruct Hx. }
    assert (Hh : In h (filter truthy D)) by (apply (in_sort_by shift_before); rewrite ES; left; reflexivity).
    destruct (HT h Hh) as [r0 [Hr0 [Hd0 [Ht0 ->]]]].
    exists r0. split; [exact Hr0|]. split; [exact Hd0|]. split; [exact Ht0|]. split.
    + unfold js_or. rewrite Ht0. reflexivity.
    + intros r' Hr' Hd' Ht'. destruct (Hrep r' Hr' Hd' Ht') as [x [Hx Ex]].
      rewrite Ex. apply (shift_sort_max (filter truthy D) (row_shift r0) t); auto.
      intros y Hy. destruct (HT y Hy) as [r2 [Hr2 [Hd2 [Ht2 ->]]]]. auto.
Qed.


Set Default Proof Using "Type".

(** [tauto] on a goal that does not mention the runtime functions, without
    making the proof depend on them. *)
Ltac clear_runtime :=
  try clear local_ymd; try clear str_to_num; try clear num_to_string; try clear date_to_string.
Ltac tauto_s := clear_runtime; tauto.

(** ** The other endpoints *)

(** *** White space and comma lists *)

Lemma trim_start_first s :
  trim_start s = EmptyString \/ exists c t, trim_start s = String c t /\ is_ws c = false.
Proof.
  induction s as [|c s IH]; simpl; auto.
  destruct (is_ws c) eqn:E; auto. right; eauto.
Qed.

Lemma trim_end_head c t : trim_end (String c t) = EmptyString \/ exists t', trim_end (String c t) = String c t'.
Proof. simpl. destruct (is_ws c && String.eqb (trim_end t) EmptyString); eauto. Qed.

Lemma trim_first s c t : trim s = String c t -> is_ws c = false.
Proof.
  unfold trim. intros H.
  destruct (trim_start_first s) as [E | (c0 & t0 & E & W)]; rewrite E in H.
  - discriminate.
  - destruct (trim_end_head c0 t0) as [E2 | (t' & E2)]; rewrite E2 in H.
    + discriminate.
    + injection H as <- _. exact W.
Qed.

Lemma trim_end_last s : forall t c, trim_end s = (t ++ String c EmptyString)%string -> is_ws c = false.
Proof.
  induction s as [|c0 s IH]; intros t c H; simpl in H.
  - destruct t; discriminate.
  - destruct (is_ws c0 && String.eqb (trim_end s) EmptyString) eqn:E.
    + destruct t; discriminate.
    + destruct t as [|c1 t'].
      * simpl in H. injection H as -> H2. rewrite H2 in E. simpl in E.
        rewrite andb_true_r in E. exact E.
      * simpl in H. injection H as -> H2. exact (IH t' c H2).
Qed.

Lemma trim_last s t c : trim s = (t ++ String c EmptyString)%string -> is_ws c = false.
Proof. apply trim_end_last. Qed.




Lemma no_comma_app a b : no_comma (a ++ b) = no_comma a && no_comma b.
Proof. induction a as [|c a IH]; simpl; auto. rewrite IH, andb_assoc. reflexivity. Qed.




Lemma split_comma_aux_pieces s : forall cur x,
  no_comma cur = true -> In x (split_comma_aux s cur) -> no_comma x = true.
Proof.
  induction s as [|c s IH]; intros cur x Hc Hx; simpl in Hx.
  - destruct Hx as [<-|[]]. exact Hc.
  - destruct (Ascii.eqb c ","%char) eqn:E.
    + destruct Hx as [<-|Hx]; [exact Hc|]. exact (IH EmptyString x eq_refl Hx).
    + refine (IH _ x _ Hx). rewrite no_comma_app, Hc. simpl. rewrite E. reflexivity.
Qed.

Lemma str_app_nil s : (s ++ EmptyString)%string = s.
Proof. induction s as [|c s IH]; simpl; congruence. Qed.

Lemma str_app_assoc a b c : (a ++ (b ++ c))%string = ((a ++ b) ++ c)%string.
Proof. induction a as [|x a IH]; simpl; congruence. Qed.

Lemma split_comma_aux_plain x : forall s cur, no_comma x = true ->
  split_comma_aux (x ++ s) cur = split_comma_aux s (cur ++ x).
Proof.
  induction x as [|c x IH]; intros s cur H; simpl.
  - rewrite str_app_nil. reflexivity.
  - simpl in H. apply andb_true_iff in H as [H1 H2].
    apply negb_true_iff in H1. rewrite H1, IH by exact H2.
    rewrite <- str_app_assoc. reflexivity.
Qed.

Lemma split_join_comma l : l <> [] -> Forall (fun x => no_comma x = true) l ->
  split_comma (join_comma l) = l.
Proof.
  unfold split_comma.
  induction l as [|x l IH]; intros Hne Hf; [congruence|].
  inversion Hf as [|? ? Hx Hl]; subst.
  destruct l as [|y l].
  - simpl. rewrite <- (str_app_nil x) at 1. rewrite split_comma_aux_plain by exact Hx.
    reflexivity.
  - change (join_comma (x :: y :: l)) with (x ++ String ","%char (join_comma (y :: l)))%string.
    rewrite split_comma_aux_plain by exact Hx.
    change (split_comma_aux (String ","%char (join_comma (y :: l))) (EmptyString ++ x))
      with ((EmptyString ++ x)%string :: split_comma_aux (join_comma (y :: l)) EmptyString).
    rewrite IH by (congruence || exact Hl). reflexivity.
Qed.


Lemma trim_end_cons_empty c t : trim_end (String c t) = EmptyString -> is_ws c = true.
Proof.
  simpl. destruct (is_ws c) eqn:E; auto.
  simpl. discriminate.
Qed.

Lemma trim_start_empty_iff x : no_comma x = true ->
  (trim_start x = EmptyString <-> commas_ws x = true).
Proof.
  induction x as [|c x IH]; simpl; [tauto_s|].
  intros H. apply andb_true_iff in H as [H1 H2]. apply negb_true_iff in H1.
  rewrite H1. simpl. destruct (is_ws c); simpl.
  - apply IH, H2.
  - split; discriminate.
Qed.

Lemma trim_empty_iff x : no_comma x = true -> (trim x = EmptyString <-> commas_ws x = true).
Proof.
  intros H. rewrite <- trim_start_empty_iff by exact H. unfold trim.
  destruct (trim_start_first x) as [E | (c & t & E & W)]; rewrite E; [split; intros _; reflexivity|].
  split; [|discriminate]. intros E2. apply trim_end_cons_empty in E2. rewrite W in E2. discriminate.
Qed.

Lemma commas_ws_app a b : commas_ws (a ++ b) = commas_ws a && commas_ws b.
Proof. induction a as [|c a IH]; simpl; auto. rewrite IH, andb_assoc. reflexivity. Qed.

Lemma split_comma_aux_blank s : forall cur,
  (forall x, In x (split_comma_aux s cur) -> commas_ws x = true) <-> commas_ws cur && commas_ws s = true.
Proof.
  induction s as [|c s IH]; intros cur; simpl.
  - rewrite andb_true_r. split; [intros H; apply H; left; reflexivity|].
    intros H x [<-|[]]. exact H.
  - destruct (Ascii.eqb c ","%char) eqn:E; simpl.
    + rewrite andb_true_iff. rewrite <- (IH EmptyString). split.
      * intros H. split; [apply H; left; reflexivity|]. intros x Hx. apply H; right; exact Hx.
      * intros [H1 H2] x [<-|Hx]; auto.
    + rewrite IH, commas_ws_app. simpl. rewrite E. simpl.
      rewrite andb_true_r, andb_assoc. tauto_s.
Qed.

Lemma filter_nil_iff {A} (f : A -> bool) l : filter f l = [] <-> forall x, In x l -> f x = false.
Proof.
  split; [|apply filter_all_false].
  intros H x Hx. destruct (f x) eqn:E; auto.
  assert (In x (filter f l)) by (apply filter_In; auto). rewrite H in H0. destruct H0.
Qed.

Lemma split_trim_nil_iff s : split_trim s = [] <-> commas_ws s = true.
Proof.
  unfold split_trim, split_comma. rewrite filter_nil_iff.
  change (commas_ws s) with (commas_ws EmptyString && commas_ws s).
  rewrite <- split_comma_aux_blank. split.
  - intros H x Hx. rewrite <- trim_empty_iff by (exact (split_comma_aux_pieces s EmptyString x eq_refl Hx)).
    specialize (H (trim x) (in_map trim _ _ Hx)). apply negb_false_iff, String.eqb_eq in H. exact H.
  - intros H y Hy. apply in_map_iff in Hy as (x & <- & Hx).
    apply negb_false_iff, String.eqb_eq.
    apply trim_empty_iff; [exact (split_comma_aux_pieces s EmptyString x eq_refl Hx) | auto].
Qed.




(** *** [/api/quality/data] *)



(** A [lotId] or [articles] value made only of commas and white space (for
    instance [","]) passes the check, but adds no condition to the query:
    alone, it makes the handler read the whole [uqe_data] table. *)
Theorem quality_data_separator_only : forall fuel db l,
  commas_ws l = true -> has_text (Some l) = true ->
  (forall sd ed x u, quality_conds sd ed (Some l) x u = quality_conds sd ed None x u /\
                     quality_conds sd ed x (Some l) u = quality_conds sd ed x None u) /\
  quality_data fuel db None None (Some l) None None =
    paged_response (fetch_pages fuel (db (uqe_query "*" [])) (@app row) 0 []) (fun rows => resp_ok (BRows rows)) /\
  quality_data fuel db None None None (Some l) None =
    paged_response (fetch_pages fuel (db (uqe_query "*" [])) (@app row) 0 []) (fun rows => resp_ok (BRows rows)).
Proof.
  intros fuel db l Hc Ht. apply split_trim_nil_iff in Hc.
  assert (Hq : forall sd ed x u, quality_conds sd ed (Some l) x u = quality_conds sd ed None x u /\
                                 quality_conds sd ed x (Some l) u = quality_conds sd ed x None u).
  { intros. unfold quality_conds. rewrite Ht, Hc. simpl. split; reflexivity. }
  split; [exact Hq|].
  unfold quality_data. rewrite Ht. simpl.
  rewrite (proj1 (Hq None None None None)), (proj2 (Hq None None None None)). split; reflexivity.
Qed.


(** *** [/api/login] and [/api/change-password] *)

Lemma in_with_password tbl p e : In e (with_password tbl p) <-> In e tbl /\ le_password e = p.
Proof. unfold with_password. rewrite filter_In, String.eqb_eq. tauto_s. Qed.



(** A stored password that begins or ends with white space can never be
    entered: the submitted password is trimmed before the exact comparison.
    When every row is like that, no request logs in. *)
Theorem login_padded_password_unusable : forall tbl qerr f,
  (forall e, In e tbl -> exists c t, is_ws c = true /\
       (le_password e = String c t \/ le_password e = (t ++ String c EmptyString)%string)) ->
  status (login tbl qerr f) <> 200%Z.
Proof.
  intros tbl qerr f Hall. unfold login.
  destruct (jtruthy f); simpl; [|discriminate].
  destruct f as [|p|b]; simpl; try discriminate.
  destruct qerr; simpl; [discriminate|].
  destruct (with_password tbl (trim p)) as [|e l] eqn:W; simpl; [discriminate|].
  assert (Hin : In e (with_password tbl (trim p))) by (rewrite W; left; reflexivity).
  apply in_with_password in Hin as [He Ep].
  destruct (Hall e He) as (c & t & Hw & [E|E]); rewrite E in Ep.
  - symmetry in Ep. apply trim_first in Ep. congruence.
  - symmetry in Ep. apply trim_last in Ep. congruence.
Qed.


(** *** [/api/restart-server] *)

(** Without a usable API key (unset, empty, or the placeholder of the sample
    configuration) no request is sent and the answer is 500. With one,
    exactly one POST goes to the restart URL of the service, authorized by
    the key as a Bearer token, and the answer is 200 exactly when the reply
    is [ok], 500 otherwise. *)
Theorem restart_server_guard : forall key send,
  (str_truthy key = false \/ key = Some "your_render_api_key_here"%string ->
   restart_server key send = ([], resp_err 500 "Render API key not configured")) /\
  (forall k, key = Some k -> k <> EmptyString -> k <> "your_render_api_key_here"%string ->
   exists rq, fst (restart_server key send) = [rq] /\ req_method rq = "POST"%string /\
     req_url rq = "https://api.render.com/v1/services/srv-d68887ur433s73cg6q1g/restart"%string /\
     In ("Authorization", "Bearer " ++ k)%string (req_headers rq) /\
     (status (snd (restart_server key send)) = 200%Z <-> exists st m, send rq = FetchReply true st m) /\
     (status (snd (restart_server key send)) = 200%Z \/ status (snd (restart_server key send)) = 500%Z)).
Proof.
  intros key send. split.
  - intros [H | ->]; [|reflexivity].
    destruct key as [k|]; [|reflexivity]. simpl in H. unfold restart_server. simpl.
    rewrite H. reflexivity.
  - intros k -> Hk Hp. unfold restart_server. simpl.
    destruct (String.eqb_spec k EmptyString); [contradiction|].
    destruct (String.eqb_spec k "your_render_api_key_here"); [contradiction|]. simpl.
    eexists. split; [reflexivity|]. split; [reflexivity|]. split; [reflexivity|].
    split; [simpl; auto|].
    destruct (send _) as [m|ok st m]; [|destruct ok]; simpl.
    + split; [split; [discriminate | intros (st & m' & E); discriminate] | right; reflexivity].
    + split; [split; [intros _; eauto | intros _; reflexivity] | left; reflexivity].
    + split; [split; [discriminate | intros (st' & m' & E); discriminate] | right; reflexivity].
Qed.


(** *** CORS *)

Lemma existsb_eqb_in a l : existsb (String.eqb a) l = true <-> In a l.
Proof.
  rewrite existsb_exists. split.
  - intros (x & Hx & E). apply String.eqb_eq in E. subst. exact Hx.
  - intros H. exists a. split; [exact H | apply String.eqb_refl].
Qed.

(** [ALLOWED_ORIGINS] is split at every comma with nothing trimmed: a list
    of comma-free origins joined by commas is read back exactly. An [Origin]
    header is then accepted when it is one of them verbatim, or when ["*"] is
    one of them, and also when it is empty or absent. Unset or empty,
    [ALLOWED_ORIGINS] gives the two local development origins. *)
Theorem cors_origin_policy : forall l o,
  l <> [] -> Forall (fun x => no_comma x = true) l -> join_comma l <> EmptyString ->
  allowed_origins (Some (join_comma l)) = l /\
  (cors_origin (allowed_origins (Some (join_comma l))) (Some o) = CorsAllow <->
     o = EmptyString \/ In o l \/ In "*"%string l) /\
  (forall allowed, cors_origin allowed None = CorsAllow) /\
  allowed_origins None = ["http://localhost:5173"; "http://localhost:3000"]%string /\
  allowed_origins (Some EmptyString) = ["http://localhost:5173"; "http://localhost:3000"]%string.
Proof.
  intros l o Hne Hl Hj.
  assert (Ha : allowed_origins (Some (join_comma l)) = l).
  { unfold allowed_origins. simpl. destruct (String.eqb_spec (join_comma l) EmptyString); [contradiction|].
    simpl. apply split_join_comma; assumption. }
  split; [exact Ha|]. split; [|split; [reflexivity | split; reflexivity]].
  rewrite Ha. unfold cors_origin, str_truthy.
  destruct (String.eqb_spec o EmptyString) as [E|E]; cbn [negb];
    [split; intros _; [left; exact E | reflexivity]|].
  rewrite <- (existsb_eqb_in o l), <- (existsb_eqb_in "*"%string l).
  destruct (existsb (String.eqb o) l), (existsb (String.eqb "*") l); cbn [orb];
    split; intros H; try tauto_s; try discriminate; destruct H as [H|[H|H]]; congruence.
Qed.

(** *** [/api/quantum/data/:unit] *)

Lemma find_key_some (m : list (string * string)) k kv :
  find (fun kv => String.eqb (fst kv) k) m = Some kv -> In kv m /\ fst kv = k.
Proof.
  intros H. apply find_some in H as [H1 H2]. apply String.eqb_eq in H2. auto.
Qed.

Lemma find_key_none (m : list (string * string)) k :
  find (fun kv => String.eqb (fst kv) k) m = None -> forall kv, In kv m -> fst kv <> k.
Proof.
  intros H kv Hkv E. apply (find_none _ _ H) in Hkv. rewrite E, String.eqb_refl in Hkv. discriminate.
Qed.

Lemma units_not_proto u : In u units_all -> is_proto_key u = false.
Proof. simpl. intros [<-|[<-|[<-|[<-|[<-|[<-|[]]]]]]]; reflexivity. Qed.

Lemma in_unit_map u f : In (u, f) unit_map -> In u units_all /\ f <> EmptyString.
Proof.
  simpl. intros H.
  repeat (destruct H as [H|H]; [injection H as <- <-; split; [simpl; tauto_s | discriminate]|]).
  destruct H.
Qed.

Lemma unit_map_functional u f g : In (u, f) unit_map -> In (u, g) unit_map -> f = g.
Proof. simpl. intros H1 H2. clear_runtime. intuition congruence. Qed.

Lemma unit_map_keys u : In u units_all -> exists f, In (u, f) unit_map.
Proof.
  simpl. intros H. repeat (destruct H as [<-|H]; [eexists; simpl; tauto_s|]). destruct H.
Qed.

(** The unit name of the path is checked against [unitMap] with a plain
    property read: the six units give their own files, any other name is
    refused with 400 before any download, except the names of
    [Object.prototype] properties, which pass the check and go on to a
    download with an inherited function as the file name. *)
Theorem quantum_data_unit_check : forall u,
  (quantum_data_unit u = UnitBadRequest <-> ~ In u units_all /\ is_proto_key u = false) /\
  (forall f, quantum_data_unit u = UnitDownload (OwnProp f) <-> In (u, f) unit_map) /\
  (forall k, quantum_data_unit u = UnitDownload (Inherited k) <-> is_proto_key u = true /\ k = u).
Proof.
  intros u. unfold quantum_data_unit, object_get.
  destruct (find (fun kv => String.eqb (fst kv) u) unit_map) as [[k v]|] eqn:F.
  - apply find_key_some in F as [Hin Ek]. simpl in Ek. subst k. cbn [snd].
    destruct (in_unit_map _ _ Hin) as [Hu Hv].
    destruct (String.eqb_spec v EmptyString) as [E|_]; [contradiction|].
    split; [split; [discriminate | intros [H _]; contradiction]|].
    split.
    + intros f. split.
      * intros H. injection H as <-. exact Hin.
      * intros Hf. rewrite (unit_map_functional _ _ _ Hin Hf). reflexivity.
    + intros k. rewrite (units_not_proto u Hu). split; [discriminate | intros [H _]; discriminate].
  - pose proof (find_key_none _ _ F) as Hn.
    assert (Hu : ~ In u units_all).
    { intros Hu. destruct (unit_map_keys u Hu) as [f Hf]. exact (Hn _ Hf eq_refl). }
    destruct (is_proto_key u) eqn:P.
    + split; [split; [discriminate | intros [_ H]; discriminate]|].
      split.
      * intros f. split; [discriminate|]. intros Hf. destruct (Hn _ Hf eq_refl).
      * intros k. split; [intros H; injection H as <-; auto | intros [_ ->]; reflexivity].
    + split; [split; auto|].
      split.
      * intros f. split; [discriminate|]. intros Hf. destruct (Hn _ Hf eq_refl).
      * intros k. split; [discriminate | intros [H _]; discriminate].
Qed.


(** *** The paged queries *)

Lemma fetch_pages_table {B} (get : Z -> Z -> page) (add : B -> list row -> B) (tbl : list row) :
  (forall from, (0 <= from)%Z ->
     get from (from + page_step - 1)%Z = PageData (Some (firstn 1000 (skipn (Z.to_nat from) tbl)))) ->
  (forall b, add b [] = b) -> (forall b x y, add (add b x) y = add b (x ++ y)) ->
  forall fuel n acc,
  fetch_pages fuel get add (Z.of_nat (1000 * n)) acc =
    if (length (skipn (1000 * n) tbl) / 1000 <? fuel)%nat
    then Some (inr (add acc (skipn (1000 * n) tbl))) else None.
Proof.
  intros Hget Hnil Happ fuel. induction fuel as [|f IH]; intros n acc.
  - destruct (length (skipn (1000 * n) tbl) / 1000)%nat; reflexivity.
  - change (fetch_pages (S f) get add (Z.of_nat (1000 * n)) acc) with
      (match get (Z.of_nat (1000 * n)) (Z.of_nat (1000 * n) + page_step - 1)%Z with
       | PageError e => Some (inl e)
       | PageData None => Some (inr acc)
       | PageData (Some []) => Some (inr acc)
       | PageData (Some data) =>
           if (Z.of_nat (length data) <? page_step)%Z then Some (inr (add acc data))
           else fetch_pages f get add (Z.of_nat (1000 * n) + page_step)%Z (add acc data)
       end).
    rewrite Hget by lia. rewrite Nat2Z.id.
    destruct (skipn (1000 * n) tbl) as [|r0 rest'] eqn:R.
    + replace (add acc []) with acc by (symmetry; apply Hnil). reflexivity.
    + set (rest := r0 :: rest').
      assert (Hne : firstn 1000 rest = r0 :: firstn 999 rest') by reflexivity.
      rewrite Hne. cbv beta iota. rewrite <- Hne.
      destruct (Z.ltb_spec (Z.of_nat (length (firstn 1000 rest))) page_step) as [Lt|Ge].
      * unfold page_step in Lt. rewrite length_firstn in Lt.
        rewrite firstn_all2 by lia. rewrite Nat.div_small by lia. reflexivity.
      * unfold page_step in Ge. rewrite length_firstn in Ge.
        replace (Z.of_nat (1000 * n) + page_step)%Z with (Z.of_nat (1000 * S n)) by (unfold page_step; lia).
        rewrite IH.
        replace (skipn (1000 * S n) tbl) with (skipn 1000 rest)
          by (unfold rest; rewrite <- R, skipn_skipn; f_equal; lia).
        rewrite Happ, (firstn_skipn 1000 rest), length_skipn.
        assert (E : (length rest / 1000 = S ((length rest - 1000) / 1000))%nat).
        { replace (length rest) with (1 * 1000 + (length rest - 1000))%nat at 1 by lia.
          rewrite Nat.div_add_l by lia. reflexivity. }
        rewrite E. reflexivity.
Qed.

Lemma perm_insert_by {A} (f : A -> A -> bool) x l : Permutation (insert_by f x l) (x :: l).
Proof.
  induction l as [|y l IH]; simpl; [reflexivity|].
  destruct (f x y); [reflexivity|].
  rewrite IH. apply perm_swap.
Qed.

Lemma perm_sort_by {A} (f : A -> A -> bool) l : Permutation (sort_by f l) l.
Proof.
  unfold sort_by. rewrite <- (app_nil_r l) at 2. generalize (@nil A) as acc.
  induction l as [|x l IH]; intros acc; simpl; [reflexivity|].
  rewrite IH, perm_insert_by. symmetry. apply Permutation_middle.
Qed.

Lemma sorted_insert_by {A} (R : A -> A -> Prop) (f : A -> A -> bool) x l :
  (forall a b, f a b = true -> R a b) -> (forall a b, f a b = false -> R b a) ->
  Sorted R l -> Sorted R (insert_by f x l).
Proof.
  intros Ht Hf. induction l as [|y l IH]; simpl; intros Hs.
  - repeat constructor.
  - destruct (f x y) eqn:E.
    + constructor; [exact Hs|]. constructor. apply Ht, E.
    + inversion Hs as [|y' l' Hs' Hh]; subst. constructor; [apply IH, Hs'|].
      destruct l as [|z l]; simpl; [constructor; apply Hf, E|].
      destruct (f x z); constructor; [apply Hf, E|]. inversion Hh; assumption.
Qed.

Lemma sorted_sort_by {A} (R : A -> A -> Prop) (f : A -> A -> bool) l :
  (forall a b, f a b = true -> R a b) -> (forall a b, f a b = false -> R b a) ->
  Sorted R (sort_by f l).
Proof.
  intros Ht Hf. unfold sort_by.
  assert (H : forall acc, Sorted R acc ->
                Sorted R (fold_left (fun acc x => insert_by f x acc) l acc)).
  { induction l as [|x l IH]; intros acc Hs; simpl; [exact Hs|].
    apply IH, sorted_insert_by; assumption. }
  apply H. constructor.
Qed.

Lemma str_ltb_false_leb x y : String.ltb x y = false -> String.leb y x = true.
Proof.
  unfold String.ltb, String.leb. rewrite (String.compare_antisym y x).
  destruct (String.compare x y); simpl; congruence.
Qed.

Lemma sorted_by_string {A} (k : A -> string) l :
  Sorted (fun a b => String.leb (k a) (k b) = true) (sort_by (fun a b => String.ltb (k a) (k b)) l).
Proof.
  apply sorted_sort_by.
  - intros a b H. apply str_lt_leb, str_ltb_true, H.
  - intros a b H. apply str_ltb_false_leb, H.
Qed.

Lemma fop_perm {A} (R : A -> A -> Prop) (Hsym : forall a b, R a b -> R b a) l l' :
  Permutation l l' -> ForallOrdPairs R l -> ForallOrdPairs R l'.
Proof.
  induction 1 as [|x l l' Hp IH|x y l|l l' l'' _ IH1 _ IH2]; intros H.
  - constructor.
  - inversion H as [|? ? Hf Hr]; subst. constructor; [|apply IH, Hr].
    rewrite Forall_forall in *. intros z Hz. apply Hf. apply Permutation_in with l'; [symmetry; exact Hp|exact Hz].
  - inversion H as [|? ? Hf1 Hr1]; subst. inversion Hr1 as [|? ? Hf2 Hr2]; subst.
    inversion Hf1 as [|? ? Hyx Hf1']; subst.
    constructor; [constructor; [apply Hsym, Hyx | exact Hf2]|]. constructor; assumption.
  - auto.
Qed.

Lemma fop_snoc {A} (R : A -> A -> Prop) l x :
  ForallOrdPairs R l -> (forall y, In y l -> R y x) -> ForallOrdPairs R (l ++ [x]).
Proof.
  induction l as [|y l IH]; simpl; intros H Hx.
  - repeat constructor.
  - inversion H as [|? ? Hf Hr]; subst. constructor.
    + apply Forall_app. split; [exact Hf|]. constructor; [apply Hx; left; reflexivity|constructor].
    + apply IH; [exact Hr|]. intros z Hz. apply Hx. right. exact Hz.
Qed.

Lemma cell_same_sym a b : cell_same a b = cell_same b a.
Proof.
  destruct a as [[x|x|x]|], b as [[y|y|y]|]; simpl; try reflexivity.
  - destruct (Qeq_bool x y) eqn:E1, (Qeq_bool y x) eqn:E2; try reflexivity;
      apply Qeq_bool_iff in E1 || apply Qeq_bool_iff in E2;
      [rewrite (proj2 (Qeq_bool_iff y x)) in E2 | rewrite (proj2 (Qeq_bool_iff x y)) in E1];
      congruence || (symmetry; assumption).
  - apply String.eqb_sym.
Qed.

(** The set built from the values [f r] of rows [data]: the invariants of
    [set.add] with SameValueZero, for a set grown from [s]. *)
Section SetAdd.
Variable f : row -> option cell.

Definition add_truthy (s : list (option cell)) (data : list row) : list (option cell) :=
  fold_left (fun s item => if truthy (f item) then set_add cell_same (f item) s else s) data s.

Lemma add_truthy_mono data : forall s x, In x s -> In x (add_truthy s data).
Proof.
  induction data as [|r data IH]; simpl; intros s x Hx; [exact Hx|].
  apply IH. destruct (truthy (f r)); [|exact Hx]. unfold set_add.
  destruct (existsb (cell_same (f r)) s); [exact Hx|]. apply in_or_app. left. exact Hx.
Qed.

Lemma add_truthy_spec data : forall s,
  (forall x, In x (add_truthy s data) ->
     In x s \/ (truthy x = true /\ exists r, In r data /\ f r = x)) /\
  (forall r, In r data -> truthy (f r) = true ->
     exists x, In x (add_truthy s data) /\ (cell_same (f r) x = true \/ x = f r)) /\
  (ForallOrdPairs (fun a b => cell_same a b = false) s ->
     ForallOrdPairs (fun a b => cell_same a b = false) (add_truthy s data)).
Proof.
  induction data as [|r data IH]; intros s; simpl.
  - split; [auto|]. split; [intros r []|auto].
  - set (s' := if truthy (f r) then set_add cell_same (f r) s else s).
    destruct (IH s') as (H1 & H2 & H3). split; [|split].
    + intros x Hx. destruct (H1 x Hx) as [Hs|(Ht & r' & Hr' & E)]; [|right; eauto].
      unfold s', set_add in Hs. destruct (truthy (f r)) eqn:T; [|left; exact Hs].
      destruct (existsb (cell_same (f r)) s); [left; exact Hs|].
      apply in_app_or in Hs as [Hs|[<-|[]]]; [left; exact Hs|]. right. eauto.
    + intros r' [<-|Hr'] Ht; [|apply H2; assumption].
      unfold s'. rewrite Ht. unfold set_add.
      destruct (existsb (cell_same (f r)) s) eqn:E.
      * apply existsb_exists in E as (x & Hx & Ex). exists x.
        split; [apply add_truthy_mono, Hx|left; exact Ex].
      * exists (f r). split; [apply add_truthy_mono, in_or_app; right; left; reflexivity|].
        right. reflexivity.
    + intros Hs. apply H3. unfold s'. destruct (truthy (f r)); [|exact Hs].
      unfold set_add. destruct (existsb (cell_same (f r)) s) eqn:E; [exact Hs|].
      apply fop_snoc; [exact Hs|]. intros y Hy. rewrite cell_same_sym.
      destruct (cell_same (f r) y) eqn:E2; [|reflexivity].
      assert (existsb (cell_same (f r)) s = true) by (apply existsb_exists; eauto). congruence.
Qed.

End SetAdd.

(** The article search: for a non-empty [q], served page by page from the
    table of rows that match [%q%], the answer lists the article numbers
    once each (no two SameValueZero), all truthy, each one taken from a row,
    one for every row with a truthy article number, ordered by their
    [String] form. *)
Theorem unique_article_numbers_spec : forall fuel db s tbl,
  s <> EmptyString ->
  (forall from, (0 <= from)%Z ->
     db (uqe_query "ArticleNumber" [QILike "ArticleNumber" ("%" ++ s ++ "%")%string]) from (from + page_step - 1)%Z
     = PageData (Some (firstn 1000 (skipn (Z.to_nat from) tbl)))) ->
  (length tbl / 1000 < fuel)%nat ->
  exists L, unique_article_numbers fuel db (Some s) = Some (resp_ok (BValues L)) /\
    set_values_props (fun r => prop r "ArticleNumber"%string) tbl L.
Proof.
  intros fuel db s tbl Hs Hdb Hf.
  pose proof (fetch_pages_table _ add_articles tbl Hdb (fun b => eq_refl)
                (fun b x y => eq_sym (fold_left_app _ x y b)) fuel 0 []) as Hp.
  rewrite Nat.mul_0_r in Hp. simpl skipn in Hp.
  replace (length tbl / 1000 <? fuel)%nat with true in Hp by (symmetry; apply Nat.ltb_lt, Hf).
  set (S0 := add_articles [] tbl) in Hp.
  exists (sort_by (fun a b => String.ltb (to_js_string a) (to_js_string b)) S0).
  split.
  - unfold unique_article_numbers. simpl str_truthy.
    destruct (String.eqb_spec s EmptyString) as [E|_]; [contradiction|]. simpl negb.
    change (Z.of_nat 0) with 0%Z in Hp. rewrite Hp. reflexivity.
  - destruct (add_truthy_spec (fun r => prop r "ArticleNumber"%string) tbl []) as (H1 & H2 & H3).
    change (add_truthy (fun r => prop r "ArticleNumber"%string) [] tbl) with S0 in H1, H2, H3.
    pose proof (perm_sort_by (fun a b => String.ltb (to_js_string a) (to_js_string b)) S0) as Hperm.
    split; [apply (sorted_by_string to_js_string)|]. split; [|split].
    + intros x Hx. apply (Permutation_in _ Hperm), H1 in Hx as [[]|Hx]. exact Hx.
    + intros r Hr Ht. destruct (H2 r Hr Ht) as (x & Hx & E). exists x.
      split; [apply (Permutation_in _ (Permutation_sym Hperm)), Hx | exact E].
    + apply (fop_perm _ (fun a b H => eq_trans (cell_same_sym b a) H) _ _ (Permutation_sym Hperm)).
      apply H3. constructor.
Qed.

(** Looking up an article: without [articleNumber] the answer is 400 and no
    query is made; with one, served page by page, the answer is every row the
    database holds for it, in the database's order, once the loop has run its
    [length / 1000 + 1] requests. *)
Theorem data_by_article_rows : forall fuel db a tbl,
  a <> EmptyString ->
  (forall from, (0 <= from)%Z ->
     db (uqe_query "*" [QEq "ArticleNumber" a]) from (from + page_step - 1)%Z
     = PageData (Some (firstn 1000 (skipn (Z.to_nat from) tbl)))) ->
  (length tbl / 1000 < fuel)%nat ->
  data_by_article fuel db (Some a) = Some (resp_ok (BRows tbl)) /\
  data_by_article fuel db None = Some (resp_err 400 "Article number is required") /\
  data_by_article fuel db (Some EmptyString) = Some (resp_err 400 "Article number is required").
Proof.
  intros fuel db a tbl Ha Hdb Hf. split; [|split; reflexivity].
  pose proof (fetch_pages_table _ (@app row) tbl Hdb (@app_nil_r row)
                (fun b x y => eq_sym (app_assoc b x y)) fuel 0 []) as Hp.
  rewrite Nat.mul_0_r in Hp. simpl skipn in Hp.
  replace (length tbl / 1000 <? fuel)%nat with true in Hp by (symmetry; apply Nat.ltb_lt, Hf).
  unfold data_by_article. simpl str_truthy.
  destruct (String.eqb_spec a EmptyString) as [E|_]; [contradiction|]. simpl negb.
  change (Z.of_nat 0) with 0%Z in Hp. rewrite Hp. reflexivity.
Qed.

(** The paging loop of the three [uqe_data] handlers, on a database that
    serves a fixed table: it collects the whole table, and it takes exactly
    [length / 1000 + 1] requests (the last page is short, possibly empty):
    with fewer it is still running. *)
Theorem fetch_pages_whole_table : forall (B : Type) (get : Z -> Z -> page) (add : B -> list row -> B)
  (tbl : list row) (acc : B) (fuel : nat),
  (forall from, (0 <= from)%Z ->
     get from (from + page_step - 1)%Z = PageData (Some (firstn 1000 (skipn (Z.to_nat from) tbl)))) ->
  (forall b, add b [] = b) -> (forall b x y, add (add b x) y = add b (x ++ y)) ->
  fetch_pages fuel get add 0 acc =
    if (length tbl / 1000 <? fuel)%nat then Some (inr (add acc tbl)) else None.
Proof.
  intros B get add tbl acc fuel Hget Hnil Happ.
  exact (fetch_pages_table get add tbl Hget Hnil Happ fuel 0 acc).
Qed.


(** *** [/api/quantum/available-filters] *)

Lemma fop_filter {A} (R : A -> A -> Prop) (f : A -> bool) l :
  ForallOrdPairs R l -> ForallOrdPairs R (filter f l).
Proof.
  induction 1 as [|a l Hf _ IH]; simpl; [constructor|].
  destruct (f a); [|exact IH]. constructor; [|exact IH].
  rewrite Forall_forall in *. intros x Hx. apply filter_In in Hx as [Hx _]. apply Hf, Hx.
Qed.

Lemma dedup_fop l : ForallOrdPairs (fun a b => cell_same a b = false) (dedup cell_same l).
Proof.
  unfold dedup.
  assert (H : forall acc, ForallOrdPairs (fun a b => cell_same a b = false) acc ->
     ForallOrdPairs (fun a b => cell_same a b = false)
       (fold_left (fun acc x => if existsb (cell_same x) acc then acc else x :: acc) l acc)).
  { induction l as [|x l IH]; intros acc Hacc; simpl; [exact Hacc|].
    apply IH. destruct (existsb (cell_same x) acc) eqn:E; [exact Hacc|].
    constructor; [|exact Hacc]. apply Forall_forall. intros y Hy.
    destruct (cell_same x y) eqn:E2; [|reflexivity].
    assert (existsb (cell_same x) acc = true) by (apply existsb_exists; eauto). congruence. }
  apply (fop_perm _ (fun a b H => eq_trans (cell_same_sym b a) H) _ _ (Permutation_rev _)).
  apply H. constructor.
Qed.

Lemma cell_same_truthy a b : cell_same a b = true -> truthy a = truthy b.
Proof.
  destruct a as [[x|x|x]|], b as [[y|y|y]|]; simpl; try discriminate; try reflexivity.
  - intros H. apply Qeq_bool_iff in H. f_equal.
    destruct (Qeq_bool x 0) eqn:E1, (Qeq_bool y 0) eqn:E2; try reflexivity.
    + apply Qeq_bool_iff in E1. apply Qeq_bool_neq in E2. exfalso. apply E2. rewrite <- H. exact E1.
    + apply Qeq_bool_iff in E2. apply Qeq_bool_neq in E1. exfalso. apply E1. rewrite H. exact E2.
  - intros H. apply String.eqb_eq in H. subst. reflexivity.
Qed.

Lemma set_values_spec (f : row -> option cell) rs : set_values_props f rs (set_values (map f rs)).
Proof.
  unfold set_values.
  set (D := dedup cell_same (map f rs)).
  pose proof (perm_sort_by (fun a b => String.ltb (to_js_string a) (to_js_string b)) (filter truthy D)) as Hperm.
  destruct (dedup_cover cell_same (map f rs)) as [Hc1 Hc2]. fold D in Hc1, Hc2.
  split; [apply (sorted_by_string to_js_string)|]. split; [|split].
  - intros x Hx. apply (Permutation_in _ Hperm), filter_In in Hx as [Hx Ht].
    split; [exact Ht|]. apply Hc1, in_map_iff in Hx as (r & Er & Hr). eauto.
  - intros r Hr Ht. destruct (Hc2 (f r) (in_map f rs r Hr)) as [Hd|(x & Hx & Ex)].
    + exists (f r). split; [|right; reflexivity].
      apply (Permutation_in _ (Permutation_sym Hperm)), filter_In. auto.
    + exists x. split; [|left; exact Ex].
      apply (Permutation_in _ (Permutation_sym Hperm)), filter_In. split; [exact Hx|].
      rewrite <- (cell_same_truthy _ _ Ex). exact Ht.
  - apply (fop_perm _ (fun a b H => eq_trans (cell_same_sym b a) H) _ _ (Permutation_sym Hperm)).
    apply fop_filter, dedup_fop.
Qed.

Lemma perm_filter_split {A} (f : A -> bool) l :
  Permutation (filter f l ++ filter (fun x => negb (f x)) l) l.
Proof.
  induction l as [|a l IH]; simpl; [constructor|].
  destruct (f a); simpl.
  - constructor. exact IH.
  - rewrite <- Permutation_middle. constructor. exact IH.
Qed.

Lemma object_values_perm {A} (m : list (string * A)) : Permutation (object_values m) (map snd m).
Proof.
  unfold object_values. apply Permutation_map.
  rewrite (perm_sort_by index_before). apply perm_filter_split.
Qed.

Lemma object_values_single {A} k (v : A) : object_values [(k, v)] = [v].
Proof. unfold object_values. simpl. destruct (array_index k); reflexivity. Qed.

Lemma cache_get_in (c : cache) u rs : cache_get c u = Some rs -> In (u, rs) c.
Proof.
  induction c as [|[u' rs'] c IH]; simpl; [discriminate|].
  destruct (String.eqb_spec u' u) as [->|_]; [intros H; injection H as ->; left; reflexivity|].
  intros H. right. exact (IH H).
Qed.

Lemma in_cache_get (c : cache) u rs : NoDup (map fst c) -> In (u, rs) c -> cache_get c u = Some rs.
Proof.
  induction c as [|[u' rs'] c IH]; simpl; [intros _ []|].
  intros Hnd Hin. inversion Hnd as [|? ? Hu Hnd']; subst.
  destruct Hin as [E|Hin].
  - injection E as -> ->. rewrite String.eqb_refl. reflexivity.
  - destruct (String.eqb_spec u' u) as [->|_]; [|exact (IH Hnd' Hin)].
    exfalso. apply Hu. apply (in_map fst) in Hin. exact Hin.
Qed.

Lemma cache_get_key (c : cache) u rs : cache_get c u = Some rs -> In u (map fst c).
Proof. intros H. apply cache_get_in, (in_map fst) in H. exact H. Qed.

Lemma cache_get_none (c : cache) u : cache_get c u = None -> ~ In u (map fst c).
Proof.
  induction c as [|[u' rs'] c IH]; simpl; [auto|].
  destruct (String.eqb_spec u' u); [discriminate|]. intros H [E|Hin]; [congruence|exact (IH H Hin)].
Qed.

Lemma nodup_units_all : NoDup units_all.
Proof. repeat constructor; simpl; clear_runtime; intuition discriminate. Qed.

Lemma units_all_nonempty u : In u units_all -> u <> EmptyString.
Proof. simpl. intros H. repeat (destruct H as [<-|H]; [discriminate|]). destruct H. Qed.

(** The rows of a cache whose keys are the six units: all its values, as
    [Object.values(...).flat()] gives them, are the rows pooled over
    [units]. *)
Lemma flat_values_pooled (c : cache) r :
  Permutation (map fst c) units_all ->
  In r (concat (object_values c)) <-> In r (pooled c units_all).
Proof.
  intros Hp. assert (Hnd : NoDup (map fst c)) by (apply (Permutation_NoDup (Permutation_sym Hp)), nodup_units_all).
  rewrite in_concat. unfold pooled. rewrite in_flat_map. split.
  - intros (rs & Hrs & Hr). apply (Permutation_in _ (object_values_perm c)), in_map_iff in Hrs as ([u rs'] & E & Hin).
    simpl in E. subst rs'. exists u. split.
    + apply (Permutation_in _ Hp). apply (in_map fst) in Hin. exact Hin.
    + unfold unit_pool, cache_prop. rewrite (in_cache_get c u rs Hnd Hin). exact Hr.
  - intros (u & Hu & Hr). unfold unit_pool, cache_prop in Hr.
    destruct (cache_get c u) as [rs|] eqn:E; [|rewrite (units_not_proto u Hu) in Hr; destruct Hr].
    exists rs. split; [|exact Hr]. apply (Permutation_in _ (Permutation_sym (object_values_perm c))).
    apply in_map_iff. exists (u, rs). split; [reflexivity|]. apply cache_get_in, E.
Qed.

Lemma ss_unique (L1 L2 : list string) :
  StronglySorted (fun a b => String.compare a b = Lt) L1 ->
  StronglySorted (fun a b => String.compare a b = Lt) L2 ->
  (forall x, In x L1 <-> In x L2) -> L1 = L2.
Proof.
  revert L2. induction L1 as [|a L1 IH]; intros [|b L2] H1 H2 Hin.
  - reflexivity.
  - exfalso. apply (proj2 (Hin b)). left. reflexivity.
  - exfalso. apply (proj1 (Hin a)). left. reflexivity.
  - inversion H1 as [|? ? H1' F1]; subst. inversion H2 as [|? ? H2' F2]; subst.
    rewrite Forall_forall in F1, F2.
    assert (Eab : a = b).
    { destruct (proj1 (Hin a) (or_introl eq_refl)) as [->|Ha]; [reflexivity|].
      destruct (proj2 (Hin b) (or_introl eq_refl)) as [->|Hb]; [reflexivity|].
      exfalso. apply (str_lt_neq a a); [|reflexivity]. eapply str_lt_trans; [apply F1, Hb|apply F2, Ha]. }
    subst b. f_equal. apply IH; [exact H1'|exact H2'|].
    intros x. split; intros Hx.
    + destruct (proj1 (Hin x) (or_intror Hx)) as [E|H]; [|exact H].
      exfalso. subst x. exact (str_lt_neq a a (F1 a Hx) eq_refl).
    + destruct (proj2 (Hin x) (or_intror Hx)) as [E|H]; [|exact H].
      exfalso. subst x. exact (str_lt_neq a a (F2 a Hx) eq_refl).
Qed.

Lemma available_dates_ext l1 l2 : (forall r, In r l1 <-> In r l2) -> available_dates l1 = available_dates l2.
Proof using local_ymd str_to_num.
  intros H.
  destruct (sorted_dates l1) as (S1 & _ & I1 & A1). destruct (sorted_dates l2) as (S2 & _ & I2 & A2).
  rewrite A1, A2. f_equal. apply ss_unique; [exact S1|exact S2|].
  intros d. rewrite I1, I2, !in_filter_some, !in_map_iff.
  split; intros (r & E & Hr); exists r; split; auto; apply H; auto.
Qed.

(** How [available-filters] picks its rows. A unit held in the cache gives
    exactly the lists of a cache that holds that unit alone, even when its
    rows are empty (then every list is empty); a unit name the cache does not
    hold gives the lists of the whole cache, as no unit does, except the
    name of an [Object.prototype] property, which fails with 500. *)
Theorem available_filters_unit_selection : forall c u,
  u <> EmptyString ->
  (forall rs, cache_get c u = Some rs -> available_filters c (Some u) = available_filters [(u, rs)] None) /\
  (cache_get c u = Some [] ->
     available_filters c (Some u) =
       FiltersOk {| fo_dates := []; fo_shifts := []; fo_units := units_all; fo_machines := [];
                    fo_articles := []; fo_articleNames := []; fo_lotIds := [] |}) /\
  (cache_get c u = None -> is_proto_key u = false -> available_filters c (Some u) = available_filters c None) /\
  (cache_get c u = None -> is_proto_key u = true ->
     available_filters c (Some u) = FiltersError "allRecords.map is not a function").
Proof.
  intros c u Hu.
  assert (Ht : str_truthy (Some u) = true) by (simpl; apply negb_true_iff, String.eqb_neq, Hu).
  split; [|split; [|split]].
  - intros rs E. unfold available_filters. rewrite Ht, E, object_values_single. simpl concat.
    rewrite app_nil_r. reflexivity.
  - intros E. unfold available_filters. rewrite Ht, E. reflexivity.
  - intros E P. unfold available_filters. rewrite Ht, E, P. reflexivity.
  - intros E P. unfold available_filters. rewrite Ht, E, P. reflexivity.
Qed.

(** Each option list of [available-filters] (shifts, machines, article
    numbers, article names, lot ids) holds the truthy values of the selected
    rows, no two SameValueZero, one for every row with a truthy value, in the
    order of their [String] form; the rows come from the cache, the dates
    are [availableDates] of the same rows, and the units are always the six. *)
Theorem available_filters_lists : forall c unit o,
  available_filters c unit = FiltersOk o ->
  exists rs, (forall r, In r rs -> exists u rs', In (u, rs') c /\ In r rs') /\
    fo_dates o = available_dates rs /\ fo_units o = units_all /\
    set_values_props row_shift rs (fo_shifts o) /\
    set_values_props row_machine rs (fo_machines o) /\
    set_values_props (fun r => js_or (prop r "ArticleNumber"%string) (prop r "articlenumber"%string))
                     rs (fo_articles o) /\
    set_values_props row_article_name rs (fo_articleNames o) /\
    set_values_props row_lot rs (fo_lotIds o).
Proof.
  intros c unit o H.
  assert (Hall : forall r, In r (concat (object_values c)) -> exists u rs', In (u, rs') c /\ In r rs').
  { intros r Hr. apply in_concat in Hr as (rs & Hrs & Hr).
    apply (Permutation_in _ (object_values_perm c)), in_map_iff in Hrs as ([u rs'] & E & Hin).
    simpl in E. subst. eauto. }
  unfold available_filters in H.
  destruct unit as [u|]; [destruct (str_truthy (Some u)) eqn:Ht|].
  - destruct (cache_get c u) as [rs|] eqn:E; [|destruct (is_proto_key u); [discriminate|]].
    + injection H as <-. exists rs. split; [intros r Hr; exists u, rs; split; [apply cache_get_in, E|exact Hr]|].
      simpl. split; [reflexivity|]. split; [reflexivity|].
      repeat (split; [apply set_values_spec|]). apply set_values_spec.
    + injection H as <-. exists (concat (object_values c)). split; [exact Hall|].
      simpl. split; [reflexivity|]. split; [reflexivity|].
      repeat (split; [apply set_values_spec|]). apply set_values_spec.
  - injection H as <-. exists (concat (object_values c)). split; [exact Hall|].
    simpl. split; [reflexivity|]. split; [reflexivity|].
      repeat (split; [apply set_values_spec|]). apply set_values_spec.
  - injection H as <-. exists (concat (object_values c)). split; [exact Hall|].
    simpl. split; [reflexivity|]. split; [reflexivity|].
      repeat (split; [apply set_values_spec|]). apply set_values_spec.
Qed.

(** On a cache holding the six units (as every refresh leaves it), the dates
    [available-filters] offers for no unit or for one of the six are the
    [availableDates] [getQuantumData] works with for the same unit filter:
    without a date, the live view targets the first date offered, and the
    dashboard the second one when there are two or more. *)
Theorem available_filters_default_date : forall c unit,
  Permutation (map fst c) units_all ->
  (str_truthy unit = false \/ exists u, unit = Some u /\ In u units_all) ->
  exists o, available_filters c unit = FiltersOk o /\
    fo_dates o = available_dates (pooled c (units_of unit)) /\
    (forall s, t_date (resolve c None s unit false) = hd_error (fo_dates o)) /\
    (forall s, t_date (resolve c None s unit true) =
               match fo_dates o with _ :: d1 :: _ => Some d1 | l => hd_error l end).
Proof.
  intros c unit Hp Hunit.
  assert (Hnd : NoDup (map fst c)) by (apply (Permutation_NoDup (Permutation_sym Hp)), nodup_units_all).
  assert (Hsel : exists o, available_filters c unit = FiltersOk o /\
                           fo_dates o = available_dates (pooled c (units_of unit))).
  { unfold available_filters. destruct Hunit as [Hf | (u & -> & Hu)].
    - assert (Hall : available_dates (concat (object_values c)) = available_dates (pooled c (units_of unit))).
      { unfold units_of. rewrite Hf. apply available_dates_ext. intros r. apply flat_values_pooled, Hp. }
      destruct unit as [u|]; [rewrite Hf|]; eexists; (split; [reflexivity|]); exact Hall.
    - assert (Ht : str_truthy (Some u) = true)
        by (simpl; apply negb_true_iff, String.eqb_neq, units_all_nonempty, Hu).
      assert (Hk : In u (map fst c)) by (apply (Permutation_in _ (Permutation_sym Hp)), Hu).
      destruct (cache_get c u) as [rs|] eqn:E; [|exfalso; exact (cache_get_none c u E Hk)].
      rewrite Ht. eexists. split; [reflexivity|]. simpl.
      unfold units_of, pooled. rewrite Ht. simpl. unfold unit_pool, cache_prop.
      rewrite E, app_nil_r. reflexivity. }
  destruct Hsel as (o & Ho & Hd). exists o. split; [exact Ho|]. split; [exact Hd|].
  destruct (pooled c (units_of unit)) as [|r0 rs0] eqn:Ep.
  - simpl in Hd. rewrite Hd.
    assert (Hr : forall dash s, t_date (resolve c None s unit dash) = None).
    { intros dash s. unfold resolve. cbn zeta. simpl negb. simpl orb. rewrite Ep. reflexivity. }
    split; intros s; rewrite Hr; reflexivity.
  - assert (Hne : pooled c (units_of unit) <> []) by (rewrite Ep; discriminate).
    split; intros s; rewrite resolve_default_date by exact Hne; cbn zeta; rewrite Ep, <- Hd;
      destruct (fo_dates o) as [|d0 [|d1 t]]; simpl; try reflexivity.
    (* dashboard with two or more dates: the second one is a non-empty string *)
    destruct (sorted_dates (pooled c (units_of unit))) as (_ & _ & Hin & Hav).
    rewrite Ep in Hin, Hav. rewrite <- Hd in Hav.
    assert (Hd1 : In d1 (filter_some (map row_date (r0 :: rs0)))).
    { apply Hin, in_rev. rewrite <- Hav. right. left. reflexivity. }
    apply in_filter_some, in_map_iff in Hd1 as (r & Er & _).
    apply row_date_nonempty in Er. apply String.eqb_neq in Er. rewrite Er. reflexivity.
Qed.

(** *** [GET /api/quantum/live] and the refresh *)

Lemma remove_perm (u : string) p : NoDup p -> In u p -> Permutation p (u :: remove string_dec u p).
Proof.
  induction p as [|a p IH]; simpl; [intros _ []|]. intros Hnd Hin.
  inversion Hnd as [|? ? Ha Hnd']; subst.
  destruct (string_dec u a) as [->|Hne].
  - rewrite notin_remove by exact Ha. reflexivity.
  - destruct Hin as [->|Hin]; [contradiction|].
    rewrite (IH Hnd' Hin) at 1. apply perm_swap.
Qed.

Lemma refresh_runs_publish outcome now ph ph' :
  refresh_runs outcome now ph ph' ->
  forall st nd p st', ph = Loading st nd p -> ph' = Published st' ->
  Permutation (map fst nd ++ p) units_all ->
  exists nd', st' = publish st nd' now /\ Permutation (map fst nd') units_all.
Proof.
  induction 1 as [x|x y z Hxy Hyz IH]; intros st nd p st' Ex Ez Hp; [subst; discriminate|].
  subst. inversion Hxy as [st0 nd0 p0 u Hu|st0 nd0]; subst.
  - eapply IH; [reflexivity|reflexivity|].
    assert (Hnd : NoDup p) by (apply (NoDup_app_remove_l (map fst nd)),
                                 (Permutation_NoDup (Permutation_sym Hp)), nodup_units_all).
    rewrite map_app, <- app_assoc. simpl. rewrite <- Hp.
    apply Permutation_app_head. symmetry. apply remove_perm; assumption.
  - inversion Hyz as [E0|y0 z0 Hs Hr]; subst; [|inversion Hs].
    exists nd. split; [reflexivity|]. rewrite app_nil_r in Hp. exact Hp.
Qed.

(** Every completed refresh ([fetchAllUnitsData] then the publication of
    [updateQuantumLiveData]) leaves a cache with the six unit keys, each
    once, whatever the downloads gave; the snapshot is [getQuantumData()] of
    that cache and the time is the refresh's. *)
Theorem refresh_cache_keys : forall outcome now st st',
  refresh_runs outcome now (Loading st [] units_all) (Published st') ->
  Permutation (map fst st'.(cachedUnitsData)) units_all /\ NoDup (map fst st'.(cachedUnitsData)) /\
  st'.(cachedLiveData) = Some (getQuantumData st'.(cachedUnitsData) None None None None false) /\
  st'.(lastFetchTime) = Some now.
Proof.
  intros outcome now st st' H.
  destruct (refresh_runs_publish outcome now _ _ H st [] units_all st' eq_refl eq_refl
              (Permutation_refl _)) as (nd & -> & Hp).
  simpl. split; [exact Hp|]. split; [|split; reflexivity].
  apply (Permutation_NoDup (Permutation_sym Hp)), nodup_units_all.
Qed.

(** The live endpoint. With any filter (or [mode=dashboard]) it computes
    [getQuantumData] on the current cache and changes nothing. Without, it
    serves the snapshot and changes nothing when there is one; when there is
    none it first runs a complete refresh, and then serves [getQuantumData()]
    of the refreshed cache, which becomes the snapshot, stamped with the
    time of the request. *)
Theorem live_endpoint_dispatch : forall outcome now date shift unit machine mode st resp st',
  live_request outcome now date shift unit machine mode st resp st' ->
  (live_filtered date shift unit machine mode = true ->
     resp = getQuantumData st.(cachedUnitsData) date shift unit machine
                           (opt_str_eqb mode (Some "dashboard"%string)) /\ st' = st) /\
  (live_filtered date shift unit machine mode = false ->
     st'.(cachedLiveData) = Some resp /\
     (st.(cachedLiveData) <> None -> st' = st) /\
     (st.(cachedLiveData) = None ->
        resp = getQuantumData st'.(cachedUnitsData) None None None None false /\
        st'.(lastFetchTime) = Some now /\
        Permutation (map fst st'.(cachedUnitsData)) units_all)).
Proof.
  intros outcome now date shift unit machine mode st resp st' H.
  destruct H as [st Hf|st d Hf Hd|st st' Hf Hn Hr].
  - split; [auto|]. intros E. congruence.
  - split; [intros E; congruence|]. intros _. split; [exact Hd|]. split; [auto|]. intros E. congruence.
  - split; [intros E; congruence|]. intros _.
    destruct (refresh_runs_publish outcome now _ _ Hr st [] units_all st' eq_refl eq_refl
                (Permutation_refl _)) as (nd & -> & Hp).
    simpl. split; [reflexivity|]. split; [intros E; contradiction|]. intros _. auto.
Qed.

(** *** [getQuantumData]: one entry per unit asked for *)

Lemma unit_result_try_name c t machF u :
  match unit_result_try c t machF u with
  | Some x => unit_result_name x = u /\ unit_throws c t machF u = false
  | None => unit_throws c t machF u = true
  end.
Proof.
  unfold unit_result_try, unit_throws. destruct (cache_prop c u) as [[|r rs]|k|].
  - split; reflexivity.
  - cbv zeta. destruct (group_throws _); [reflexivity|split; reflexivity].
  - destruct (proto_length k) as [[|n|n]|]; try reflexivity. split; reflexivity.
  - split; reflexivity.
Qed.

Lemma map_try_units c t machF : forall us,
  match map_try (unit_result_try c t machF) us with
  | Some l => map unit_result_name l = us /\ forall u, In u us -> unit_throws c t machF u = false
  | None => exists u, In u us /\ unit_throws c t machF u = true
  end.
Proof.
  induction us as [|u us IH]; simpl.
  - split; [reflexivity|]. intros u [].
  - pose proof (unit_result_try_name c t machF u) as Hu.
    destruct (unit_result_try c t machF u) as [x|]; [|exists u; auto].
    destruct (map_try (unit_result_try c t machF) us) as [l|]; simpl.
    + destruct Hu as [Hn Ht]. destruct IH as [Hl Hall]. split; [rewrite Hn, Hl; reflexivity|].
      intros u' [<-|Hin]; [exact Ht|exact (Hall u' Hin)].
    + destruct IH as (u' & Hin & Ht). exists u'. auto.
Qed.

(** [getQuantumData] answers with one entry per unit asked for (the six
    units in order without a unit filter, the requested unit alone with
    one) unless the callback throws on one of them (an inherited
    [cachedUnitsData[unit]] of non-zero length, or a record whose article
    number or machine name is a key of [Object.prototype]), in which case
    its [catch] answers [[]]. A requested unit that is neither held nor
    inherited gets the "N/A" entry; an inherited one gets it when its length
    is 0. *)
Theorem getQuantumData_units : forall c dF sF uF mF dash,
  let t := resolve c dF sF uF dash in
  units_of None = units_all /\ units_of (Some EmptyString) = units_all /\
  (forall u, u <> EmptyString -> units_of (Some u) = [u]) /\
  ((forall u, In u (units_of uF) -> unit_throws c t mF u = false) ->
     map unit_result_name (getQuantumData c dF sF uF mF dash) = units_of uF) /\
  ((exists u, In u (units_of uF) /\ unit_throws c t mF u = true) ->
     getQuantumData c dF sF uF mF dash = []) /\
  (forall u, u <> EmptyString -> uF = Some u -> cache_get c u = None ->
     (is_proto_key u = false \/ proto_length u = Some 0%Z) ->
     getQuantumData c dF sF uF mF dash = [UEmpty u]).
Proof.
  intros c dF sF uF mF dash t.
  assert (Hu1 : forall u, u <> EmptyString -> units_of (Some u) = [u]).
  { intros u Hu. unfold units_of. simpl. destruct (String.eqb_spec u EmptyString); [contradiction|].
    reflexivity. }
  pose proof (map_try_units c t mF (units_of uF)) as Hm.
  split; [reflexivity|]. split; [reflexivity|]. split; [exact Hu1|]. split; [|split].
  - intros Hall. unfold getQuantumData. fold t.
    destruct (map_try (unit_result_try c t mF) (units_of uF)) as [l|]; [exact (proj1 Hm)|].
    destruct Hm as (u & Hin & Ht). rewrite (Hall u Hin) in Ht. discriminate.
  - intros (u & Hin & Ht). unfold getQuantumData. fold t.
    destruct (map_try (unit_result_try c t mF) (units_of uF)) as [l|]; [|reflexivity].
    rewrite (proj2 Hm u Hin) in Ht. discriminate.
  - intros u Hu -> Hc Hp. unfold getQuantumData. fold t. rewrite (Hu1 u Hu). simpl.
    unfold unit_result_try, cache_prop. rewrite Hc.
    destruct Hp as [Hp|Hp]; [rewrite Hp; reflexivity|].
    destruct (is_proto_key u); [rewrite Hp|]; reflexivity.
Qed.


(** *** Alarm totals and breakdowns of [getQuantumData] *)

Lemma sum_list_perm l l' : Permutation l l' -> sum_list l == sum_list l'.
Proof. induction 1; unfold sum_list in *; simpl; lra. Qed.

Lemma sum_entries_list {A} (g : A -> Q) m : sum_entries g m = sum_list (map g (map snd m)).
Proof. induction m as [|ka m IH]; simpl; [reflexivity|]. rewrite IH. reflexivity. Qed.

Lemma sum_values {A} (g : A -> Q) m : sum_list (map g (object_values m)) == sum_entries g m.
Proof. rewrite sum_entries_list. apply sum_list_perm, Permutation_map, object_values_perm. Qed.

Lemma forall_values {A} (P : A -> Prop) m :
  Forall (fun ka => P (snd ka)) m -> Forall P (object_values m).
Proof.
  rewrite !Forall_forall. intros H x Hx.
  apply (Permutation_in _ (object_values_perm m)), in_map_iff in Hx as (ka & <- & Hka).
  exact (H ka Hka).
Qed.

Lemma fold_left_plus (f : row -> Q) rs t :
  fold_left (fun acc r => acc + f r) rs t == t + rsum f rs.
Proof.
  revert t. induction rs as [|r rs IH]; intros t; simpl; [lra|].
  rewrite IH. lra.
Qed.

Lemma fold_left_cols (f : string -> Q) cols t :
  fold_left (fun acc c => acc + f c) cols t == t + sum_list (map f cols).
Proof.
  revert t. induction cols as [|c cols IH]; intros t; unfold sum_list in *; simpl; [lra|].
  rewrite IH. lra.
Qed.

Lemma row_alarms_cols r : row_alarms r == sum_list (map (col_val r) alarm_columns).
Proof. unfold row_alarms. rewrite fold_left_cols. lra. Qed.

Lemma sum_nmap_add (m : nmap) r :
  sum_list (map snd (nmap_add m r)) == sum_list (map snd m) + sum_list (map (col_val r) (map fst m)).
Proof. induction m as [|[k v] m IH]; unfold sum_list in *; simpl; lra. Qed.

Lemma sum_nmap0 cols : sum_list (map snd (nmap0 cols)) == 0.
Proof. induction cols as [|c cols IH]; unfold sum_list in *; simpl; lra. Qed.

Lemma alarm_pair_ok0 : alarm_pair_ok 0 (nmap0 alarm_columns).
Proof. split; [apply keys_nmap0|]. rewrite sum_nmap0. reflexivity. Qed.

Lemma alarm_pair_ok_add t bd r :
  alarm_pair_ok t bd -> alarm_pair_ok (t + row_alarms r) (nmap_add bd r).
Proof.
  intros [Hk Ht]. split; [rewrite keys_nmap_add; exact Hk|].
  rewrite sum_nmap_add, Hk, row_alarms_cols. lra.
Qed.

Lemma mach_alarm_ok_init n : mach_alarm_ok (mach_init n).
Proof. exact alarm_pair_ok0. Qed.

Lemma mach_alarm_ok_step r m : mach_alarm_ok m -> mach_alarm_ok (mach_step r m).
Proof. apply alarm_pair_ok_add. Qed.

Lemma art_alarm_ok_init n : art_alarm_ok (art_init n).
Proof.
  split; [exact alarm_pair_ok0|]. split; [constructor|].
  cbn [art_init a_machines a_alarms a_breakdown sum_entries fold_right].
  split; [reflexivity|]. intros col. rewrite nget_nmap0. reflexivity.
Qed.

Lemma art_alarm_ok_step r a : art_alarm_ok a -> art_alarm_ok (art_step r a).
Proof.
  intros [Hp [Hm [Hs Hc]]]. unfold art_alarm_ok. cbn [art_step a_alarms a_breakdown a_machines].
  split; [apply alarm_pair_ok_add, Hp|]. split; [|split].
  - apply (upsert_forall mach_alarm_ok); auto using mach_alarm_ok_init, mach_alarm_ok_step.
  - rewrite (upsert_sum mach_alarm_ok m_alarms _ _ _ _ (row_alarms r)).
    + rewrite Hs. reflexivity.
    + exact Hm.
    + apply mach_alarm_ok_init.
    + reflexivity.
    + intros m _. cbn [mach_step m_alarms]. reflexivity.
  - intros col.
    rewrite (upsert_sum mach_alarm_ok (fun m => nget (m_breakdown m) col) _ _ _ _
               (col_delta alarm_columns col r)).
    + rewrite Hc, nget_nmap_add. destruct Hp as [Hk _]. rewrite Hk. reflexivity.
    + exact Hm.
    + apply mach_alarm_ok_init.
    + cbn [mach_init m_breakdown]. rewrite nget_nmap0. reflexivity.
    + intros m [Hk _]. cbn [mach_step m_breakdown]. rewrite nget_nmap_add, Hk. reflexivity.
Qed.

Lemma group_alarm_fold rs m :
  Forall (fun ka => art_alarm_ok (snd ka)) m ->
  Forall (fun ka => art_alarm_ok (snd ka)) (fold_left group_step rs m) /\
  sum_entries a_alarms (fold_left group_step rs m) == sum_entries a_alarms m + rsum row_alarms rs /\
  (forall col, sum_entries (fun a => nget (a_breakdown a) col) (fold_left group_step rs m)
     == sum_entries (fun a => nget (a_breakdown a) col) m + rsum (col_delta alarm_columns col) rs).
Proof.
  revert m. induction rs as [|r rs IH]; simpl; intros m Hm.
  - split; [exact Hm|]. split; [lra|]. intros col. lra.
  - assert (Hm' : Forall (fun ka => art_alarm_ok (snd ka)) (group_step m r)).
    { unfold group_step. apply (upsert_forall art_alarm_ok); auto using art_alarm_ok_init, art_alarm_ok_step. }
    destruct (IH _ Hm') as [HF [HS HC]]. split; [exact HF|]. split.
    + rewrite HS. unfold group_step.
      rewrite (upsert_sum art_alarm_ok a_alarms _ _ _ _ (row_alarms r)).
      * lra.
      * exact Hm.
      * apply art_alarm_ok_init.
      * reflexivity.
      * intros a _. cbn [art_step a_alarms]. reflexivity.
    + intros col. rewrite HC. unfold group_step.
      rewrite (upsert_sum art_alarm_ok (fun a => nget (a_breakdown a) col) _ _ _ _
                 (col_delta alarm_columns col r)).
      * lra.
      * exact Hm.
      * apply art_alarm_ok_init.
      * cbn [art_init a_breakdown]. rewrite nget_nmap0. reflexivity.
      * intros a [[Hk _] _]. cbn [art_step a_breakdown]. rewrite nget_nmap_add, Hk. reflexivity.
Qed.

Lemma alarm_totals_split rs t m :
  fold_left (fun acc r => ((fst acc + row_alarms r)%Q, nmap_add (snd acc) r)) rs (t, m)
  = (fold_left (fun acc r => acc + row_alarms r) rs t, fold_left nmap_add rs m).
Proof. revert t m. induction rs as [|r rs IH]; intros t m; simpl; [reflexivity|]. apply IH. Qed.

Lemma alarm_totals_fst rs : fst (alarm_totals rs) == rsum row_alarms rs.
Proof. unfold alarm_totals. rewrite alarm_totals_split. cbn [fst snd]. rewrite fold_left_plus. lra. Qed.

Lemma alarm_totals_snd rs col :
  nget (snd (alarm_totals rs)) col == rsum (col_delta alarm_columns col) rs.
Proof.
  unfold alarm_totals. rewrite alarm_totals_split. cbn [fst snd].
  rewrite (nget_fold_nmap_add alarm_columns) by apply keys_nmap0. rewrite nget_nmap0. lra.
Qed.

Lemma alarm_totals_ok rs : alarm_pair_ok (fst (alarm_totals rs)) (snd (alarm_totals rs)).
Proof.
  unfold alarm_totals.
  assert (H : forall l t m, alarm_pair_ok t m ->
    alarm_pair_ok (fst (fold_left (fun acc r => ((fst acc + row_alarms r)%Q, nmap_add (snd acc) r)) l (t, m)))
                  (snd (fold_left (fun acc r => ((fst acc + row_alarms r)%Q, nmap_add (snd acc) r)) l (t, m)))).
  { induction l as [|r l IH]; intros t m Hp; simpl; [exact Hp|].
    apply IH, alarm_pair_ok_add, Hp. }
  apply H, alarm_pair_ok0.
Qed.

Lemma group_articles_alarm_ok records :
  Forall (fun ka => art_alarm_ok (snd ka)) (group_articles records).
Proof. exact (proj1 (group_alarm_fold records [] (Forall_nil _))). Qed.

(** Alarm roll-up of a unit entry: the [totalAlarms] of its articles add up
    to the unit's [totalAlarms], and column by column their
    [alarmBreakdown]s add up to the unit's; within each article the same
    holds of its machines. *)
Theorem alarm_rollup : forall u t records,
  sum_list (map ao_totalAlarms (uo_articles (aggregate u t records)))
    == uo_totalAlarms (aggregate u t records) /\
  (forall col, sum_list (map (fun a => nget (ao_alarmBreakdown a) col) (uo_articles (aggregate u t records)))
                 == nget (uo_alarmBreakdown (aggregate u t records)) col) /\
  Forall (fun a => sum_list (map mo_totalAlarms (ao_machines a)) == ao_totalAlarms a /\
                   forall col, sum_list (map (fun m => nget (mo_alarmBreakdown m) col) (ao_machines a))
                                 == nget (ao_alarmBreakdown a) col)
         (uo_articles (aggregate u t records)).
Proof.
  intros u t records. unfold aggregate; cbn zeta; cbn [uo_articles uo_totalAlarms uo_alarmBreakdown].
  destruct (group_alarm_fold records [] (Forall_nil _)) as [HF [HS HC]].
  fold (group_articles records) in HF, HS, HC. rewrite !map_map.
  split; [|split].
  - cbn [art_out_of ao_totalAlarms]. rewrite sum_values, HS, alarm_totals_fst. simpl. lra.
  - intros col. rewrite map_map. cbn [art_out_of ao_alarmBreakdown]. rewrite sum_values, HC, alarm_totals_snd. simpl. lra.
  - apply Forall_map. apply (forall_values art_alarm_ok) in HF.
    eapply Forall_impl; [|exact HF]. intros a [_ [_ [Hs Hc]]].
    cbn [art_out_of ao_machines ao_totalAlarms ao_alarmBreakdown]. rewrite !map_map.
    cbn [mach_out_of mo_totalAlarms mo_alarmBreakdown]. split.
    + rewrite sum_values. exact Hs.
    + intros col. rewrite map_map. cbn [mach_out_of mo_alarmBreakdown]. rewrite sum_values. exact (Hc col).
Qed.

(** Every [alarmBreakdown] of a unit entry, of its articles and of their
    machines has the eleven alarm columns as keys, in order, and the
    [totalAlarms] beside it is the sum of its values. *)
Theorem alarm_breakdown_total : forall u t records,
  map fst (uo_alarmBreakdown (aggregate u t records)) = alarm_columns /\
  uo_totalAlarms (aggregate u t records) == sum_list (map snd (uo_alarmBreakdown (aggregate u t records))) /\
  Forall (fun a => map fst (ao_alarmBreakdown a) = alarm_columns /\
                   ao_totalAlarms a == sum_list (map snd (ao_alarmBreakdown a)) /\
                   Forall (fun m => map fst (mo_alarmBreakdown m) = alarm_columns /\
                                    mo_totalAlarms m == sum_list (map snd (mo_alarmBreakdown m)))
                          (ao_machines a))
         (uo_articles (aggregate u t records)).
Proof.
  intros u t records. unfold aggregate; cbn zeta; cbn [uo_articles uo_totalAlarms uo_alarmBreakdown].
  destruct (alarm_totals_ok records) as [Hk Ht]. split; [exact Hk|]. split; [exact Ht|].
  apply Forall_map.
  pose proof (forall_values art_alarm_ok _ (group_articles_alarm_ok records)) as HF.
  eapply Forall_impl; [|exact HF]. intros a [[Hk' Ht'] [Hm _]].
  cbn [art_out_of ao_alarmBreakdown ao_totalAlarms ao_machines].
  split; [exact Hk'|]. split; [exact Ht'|].
  apply Forall_map. apply (forall_values mach_alarm_ok) in Hm.
  eapply Forall_impl; [|exact Hm]. intros m [Hk2 Ht2].
  cbn [mach_out_of mo_alarmBreakdown mo_totalAlarms]. split; [exact Hk2|exact Ht2].
Qed.


(** *** The dates of [/api/quantum/trend] *)














(** *** [formatDateToYYYYMMDD] strings sort chronologically *)

Lemma digits_pos_step f n acc :
  digits_pos (S f) n acc =
  if (n <? 10)%Z then String (digit_char (n mod 10)) acc
  else digits_pos f (n / 10) (String (digit_char (n mod 10)) acc).
Proof. reflexivity. Qed.

Lemma zstr_4 y : (1000 <= y <= 9999)%Z ->
  zstr y = String (digit_char (y / 1000)) (String (digit_char (y / 100 mod 10))
             (String (digit_char (y / 10 mod 10)) (String (digit_char (y mod 10)) EmptyString))).
Proof.
  clear_runtime.
  intros Hy. unfold zstr. rewrite (proj2 (Z.ltb_ge y 0)) by lia.
  assert (E1 : (y <? 10)%Z = false) by (apply Z.ltb_ge; lia).
  assert (E2 : (y / 10 <? 10)%Z = false) by (apply Z.ltb_ge; Z.div_mod_to_equations; lia).
  assert (E3 : (y / 10 / 10 <? 10)%Z = false) by (apply Z.ltb_ge; Z.div_mod_to_equations; lia).
  assert (E4 : (y / 10 / 10 / 10 <? 10)%Z = true) by (apply Z.ltb_lt; Z.div_mod_to_equations; lia).
  rewrite digits_pos_step, E1, digits_pos_step, E2, digits_pos_step, E3, digits_pos_step, E4.
  replace (y / 10 / 10 / 10 mod 10)%Z with (y / 1000)%Z by (Z.div_mod_to_equations; lia).
  replace (y / 10 / 10 mod 10)%Z with (y / 100 mod 10)%Z by (Z.div_mod_to_equations; lia).
  reflexivity.
Qed.

Lemma pad2_2 m : (0 <= m <= 99)%Z ->
  pad2 m = String (digit_char (m / 10)) (String (digit_char (m mod 10)) EmptyString).
Proof.
  clear_runtime.
  intros Hm. unfold pad2, zstr. rewrite (proj2 (Z.ltb_ge m 0)) by lia.
  rewrite digits_pos_step. destruct (Z.ltb_spec m 10) as [Hl|Hl].
  - cbn [String.length Nat.ltb Nat.leb].
    replace (m / 10)%Z with 0%Z by (Z.div_mod_to_equations; lia). reflexivity.
  - rewrite digits_pos_step.
    rewrite (proj2 (Z.ltb_lt (m / 10) 10)) by (Z.div_mod_to_equations; lia).
    cbn [String.length Nat.ltb Nat.leb].
    replace (m / 10 mod 10)%Z with (m / 10)%Z by (Z.div_mod_to_equations; lia). reflexivity.
Qed.

Lemma str_compare_cons a b s t :
  String.compare (String a s) (String b t) = cmp_then (Ascii.compare a b) (String.compare s t).
Proof. cbn [String.compare]. destruct (Ascii.compare a b); reflexivity. Qed.

Lemma cmp_then_assoc a b c : cmp_then (cmp_then a b) c = cmp_then a (cmp_then b c).
Proof. destruct a; reflexivity. Qed.

Lemma cmp_then_eq_r c : cmp_then c Eq = c.
Proof. destruct c; reflexivity. Qed.

Lemma digit_char_compare a b : (0 <= a <= 9)%Z -> (0 <= b <= 9)%Z ->
  Ascii.compare (digit_char a) (digit_char b) = Z.compare a b.
Proof.
  clear_runtime.
  intros Ha Hb. unfold Ascii.compare, digit_char, ascii_of_nat.
  rewrite !N_ascii_embedding by lia.
  rewrite <- N2Z.inj_compare, !nat_N_Z.
  replace (Z.of_nat (48 + Z.to_nat a)) with (48 + a)%Z by lia.
  replace (Z.of_nat (48 + Z.to_nat b)) with (48 + b)%Z by lia.
  apply Z.add_compare_mono_l.
Qed.

Lemma cmp_step x x' a a' : (0 <= a <= 9)%Z -> (0 <= a' <= 9)%Z ->
  Z.compare (10 * x + a) (10 * x' + a') = cmp_then (Z.compare x x') (Z.compare a a').
Proof.
  clear_runtime.
  intros Ha Ha'. destruct (Z.compare_spec x x') as [->|H|H]; cbn [cmp_then].
  - apply Z.add_compare_mono_l.
  - apply Z.compare_lt_iff. lia.
  - apply Z.compare_gt_iff. lia.
Qed.

Lemma compare_4 y y' : (1000 <= y <= 9999)%Z -> (1000 <= y' <= 9999)%Z ->
  Z.compare y y' =
  cmp_then (Z.compare (y / 1000) (y' / 1000))
    (cmp_then (Z.compare (y / 100 mod 10) (y' / 100 mod 10))
       (cmp_then (Z.compare (y / 10 mod 10) (y' / 10 mod 10)) (Z.compare (y mod 10) (y' mod 10)))).
Proof.
  clear_runtime.
  intros Hy Hy'.
  assert (D : forall z, (1000 <= z <= 9999)%Z ->
            z = (10 * (10 * (10 * (z / 1000) + z / 100 mod 10) + z / 10 mod 10) + z mod 10)%Z)
    by (intros z Hz; Z.div_mod_to_equations; lia).
  transitivity (Z.compare (10 * (10 * (10 * (y / 1000) + y / 100 mod 10) + y / 10 mod 10) + y mod 10)
                          (10 * (10 * (10 * (y' / 1000) + y' / 100 mod 10) + y' / 10 mod 10) + y' mod 10)).
  { rewrite <- (D y Hy), <- (D y' Hy'). reflexivity. }
  rewrite !cmp_step by (Z.div_mod_to_equations; lia).
  rewrite !cmp_then_assoc. reflexivity.
Qed.

Lemma compare_2 m m' : (0 <= m <= 99)%Z -> (0 <= m' <= 99)%Z ->
  Z.compare m m' = cmp_then (Z.compare (m / 10) (m' / 10)) (Z.compare (m mod 10) (m' mod 10)).
Proof.
  clear_runtime.
  intros Hm Hm'.
  assert (D : forall z, (0 <= z <= 99)%Z -> z = (10 * (z / 10) + z mod 10)%Z)
    by (intros z Hz; Z.div_mod_to_equations; lia).
  transitivity (Z.compare (10 * (m / 10) + m mod 10) (10 * (m' / 10) + m' mod 10)).
  { rewrite <- (D m Hm), <- (D m' Hm'). reflexivity. }
  apply cmp_step; Z.div_mod_to_equations; lia.
Qed.

(** The [YYYY-MM-DD] strings of [formatDateToYYYYMMDD], for four-digit
    years and months and days below 100, compare as strings exactly as the
    dates compare: by year, then month, then day. So the string sorts of the
    handlers order dates chronologically, and two such dates give the same
    string only when they are the same date. *)
Theorem format_ymd_chronological : forall y m d y' m' d',
  (1000 <= y <= 9999)%Z -> (1000 <= y' <= 9999)%Z ->
  (0 <= m <= 99)%Z -> (0 <= m' <= 99)%Z -> (0 <= d <= 99)%Z -> (0 <= d' <= 99)%Z ->
  String.compare (format_ymd (y, m, d)) (format_ymd (y', m', d')) =
  match Z.compare y y' with
  | Eq => match Z.compare m m' with Eq => Z.compare d d' | c => c end
  | c => c
  end.
Proof.
  clear_runtime.
  intros y m d y' m' d' Hy Hy' Hm Hm' Hd Hd'.
  transitivity (cmp_then (Z.compare y y') (cmp_then (Z.compare m m') (Z.compare d d'))).
  2: { unfold cmp_then. destruct (Z.compare y y'), (Z.compare m m'); reflexivity. }
  unfold format_ymd. rewrite (zstr_4 y), (zstr_4 y'), (pad2_2 m), (pad2_2 m'), (pad2_2 d), (pad2_2 d')
    by assumption.
  cbn [String.append]. rewrite !str_compare_cons.
  rewrite !digit_char_compare by (Z.div_mod_to_equations; lia).
  change (Ascii.compare "-"%char "-"%char) with Eq.
  change (String.compare EmptyString EmptyString) with Eq.
  rewrite (compare_4 y y'), (compare_2 m m'), (compare_2 d d') by assumption.
  rewrite cmp_then_eq_r. cbn [cmp_then]. rewrite !cmp_then_assoc. reflexivity.
Qed.

End Engine.

(** ** Witnesses and counterexamples, under the UTC runtime *)



Lemma short_rows_filtered_out_witness :
  yarn_length Utc.str_to_num Utc.short_row < 300 /\
  filter (keep_record Utc.local_ymd Utc.str_to_num Utc.num_to_string Utc.date_to_string
            {| t_date := Some "2024-01-03"%string; t_shift := None; t_latest := str "All" |} None)
         [Utc.long_row; Utc.short_row]
  = filter (keep_record Utc.local_ymd Utc.str_to_num Utc.num_to_string Utc.date_to_string
              {| t_date := Some "2024-01-03"%string; t_shift := None; t_latest := str "All" |} None)
           [Utc.long_row].
Proof.
  assert (H : yarn_length Utc.str_to_num Utc.short_row < 300) by (vm_compute; reflexivity).
  split; [exact H|].
  exact (proj1 (proj2 (short_rows_filtered_out Utc.local_ymd Utc.str_to_num Utc.num_to_string
                         Utc.date_to_string
                         {| t_date := Some "2024-01-03"%string; t_shift := None; t_latest := str "All" |}
                         None [Utc.long_row] Utc.short_row [] "U-1" H))).
Defined.

(** C5 fails as stated: a row of 200 m changes the trend series (6 cuts over
    300 m give "2.00", over 500 m "1.20"), and a 100 m row on a later day
    moves the default date of [getQuantumData] and empties the records. *)
Lemma short_rows_counterexample :
  trend Utc.local_ymd Utc.str_to_num Utc.num_to_string Utc.date_to_string
        [("U-1", [Utc.long_row; Utc.short_row])]%string
        (Some "cuts"%string) (Some "unit"%string) (Some "NCuts"%string) None None
  <> trend Utc.local_ymd Utc.str_to_num Utc.num_to_string Utc.date_to_string
        [("U-1", [Utc.long_row])]%string
        (Some "cuts"%string) (Some "unit"%string) (Some "NCuts"%string) None None /\
  getQuantumData Utc.local_ymd Utc.str_to_num Utc.num_to_string Utc.date_to_string
    [("U-1", [Utc.day2_row; Utc.day3_short_row])]%string None None (Some "U-1"%string) None false
  <> getQuantumData Utc.local_ymd Utc.str_to_num Utc.num_to_string Utc.date_to_string
    [("U-1", [Utc.day2_row])]%string None None (Some "U-1"%string) None false.
Proof.
  split; intros H; vm_compute in H; discriminate H.
Qed.

Lemma default_target_date_witness :
  t_date (resolve Utc.local_ymd Utc.str_to_num [("U-1", Utc.three_days)]%string
                  None None None false) = Some "2024-01-03"%string /\
  t_date (resolve Utc.local_ymd Utc.str_to_num [("U-1", Utc.three_days)]%string
                  None None None true) = Some "2024-01-02"%string.
Proof.
  assert (Hds : filter_some (map (row_date Utc.local_ymd)
                                 (pooled [("U-1", Utc.three_days)]%string (units_of None)))
                = ["2024-01-01"; "2024-01-02"; "2024-01-03"]%string) by (vm_compute; reflexivity).
  destruct (default_target_date Utc.local_ymd Utc.str_to_num [("U-1", Utc.three_days)]%string
              None None "2024-01-03"%string)
    as [H1 [_ H3]].
  - rewrite Hds. simpl. tauto.
  - rewrite Hds. intros d Hd. simpl in Hd.
    destruct Hd as [<-|[<-|[<-|[]]]]; vm_compute; reflexivity.
  - split; [exact H1|]. apply H3.
    + rewrite Hds. simpl. tauto.
    + discriminate.
    + rewrite Hds. intros d Hd Hne. simpl in Hd.
      destruct Hd as [<-|[<-|[<-|[]]]]; [vm_compute; reflexivity|vm_compute; reflexivity|].
      exfalso. apply Hne. reflexivity.
Defined.

(** C7 fails as stated: with a date and shift 'all' both given, the defaulting
    block is skipped and [latestShift] is 'All', although the largest shift of
    that date is 3. *)
Lemma latest_shift_counterexample :
  map (fun res => match res with UFull o => uo_latestShift o | UEmpty _ => None end)
      (getQuantumData Utc.local_ymd Utc.str_to_num Utc.num_to_string Utc.date_to_string
         [("U-1", [Utc.shift3_row])]%string (Some "2024-01-03"%string) (Some "all"%string)
         (Some "U-1"%string) None false)
  = [str "All"] /\
  latest_shift_for_date Utc.local_ymd Utc.str_to_num [Utc.shift3_row] "2024-01-03"%string
  = Some (CNum 3).
Proof. split; vm_compute; reflexivity. Qed.

(** C8 fails as stated: a unit whose only row is filtered out (100 m) reports
    the number 0 as [yarnFaults], not 'N/A'; and the unit "constructor",
    which the cache inherits from [Object.prototype], makes the call fail
    and answer [[]]. *)
Lemma empty_unit_counterexample :
  unit_records Utc.local_ymd Utc.str_to_num Utc.num_to_string Utc.date_to_string
    [("U-1", [Utc.day3_short_row])]%string
    (resolve Utc.local_ymd Utc.str_to_num [("U-1", [Utc.day3_short_row])]%string
             None None (Some "U-1"%string) false) None "U-1" = [] /\
  map (fun res => match res with UFull o => Some (uo_yarnFaults o) | UEmpty _ => None end)
      (getQuantumData Utc.local_ymd Utc.str_to_num Utc.num_to_string Utc.date_to_string
         [("U-1", [Utc.day3_short_row])]%string None None (Some "U-1"%string) None false)
  = [Some (VNum 0)] /\
  getQuantumData Utc.local_ymd Utc.str_to_num Utc.num_to_string Utc.date_to_string
    [("U-1", Utc.three_days)]%string None None (Some "constructor"%string) None false = [].
Proof. split; [|split]; vm_compute; reflexivity. Qed.

(** A refresh in which U-3 fails: it keeps its rows, the others load [[]]. *)
Lemma refresh_keeps_failed_unit_witness :
  exists nd,
    refresh_runs Utc.local_ymd Utc.str_to_num Utc.num_to_string Utc.date_to_string
      (fun u => if String.eqb u "U-3" then LoadFailed else Loaded []) 0%Z
      (Loading {| cachedUnitsData := [("U-3", [Utc.shift3_row])]%string;
                  cachedLiveData := None; lastFetchTime := None |} [] units_all)
      (Published (publish Utc.local_ymd Utc.str_to_num Utc.num_to_string Utc.date_to_string
                    {| cachedUnitsData := [("U-3", [Utc.shift3_row])]%string;
                       cachedLiveData := None; lastFetchTime := None |} nd 0%Z)) /\
    cache_get nd "U-3" = Some [Utc.shift3_row] /\ cache_get nd "U-1" = Some [].
Proof.
  eexists.
  assert (Hrun : refresh_runs Utc.local_ymd Utc.str_to_num Utc.num_to_string Utc.date_to_string
      (fun u => if String.eqb u "U-3" then LoadFailed else Loaded []) 0%Z
      (Loading {| cachedUnitsData := [("U-3", [Utc.shift3_row])]%string;
                  cachedLiveData := None; lastFetchTime := None |} [] units_all)
      (Published (publish Utc.local_ymd Utc.str_to_num Utc.num_to_string Utc.date_to_string
                    {| cachedUnitsData := [("U-3", [Utc.shift3_row])]%string;
                       cachedLiveData := None; lastFetchTime := None |}
                    [("U-1"%string, []); ("U-2"%string, []); ("U-3"%string, [Utc.shift3_row]);
                     ("U-4"%string, []); ("U-5"%string, []); ("U-6"%string, [])] 0%Z))).
  { unfold refresh_runs, units_all.
    eapply Relation_Operators.rt1n_trans; [apply (rs_settle _ _ _ _ _ _ _ _ _ "U-1"%string); simpl; tauto|]; simpl.
    eapply Relation_Operators.rt1n_trans; [apply (rs_settle _ _ _ _ _ _ _ _ _ "U-2"%string); simpl; tauto|]; simpl.
    eapply Relation_Operators.rt1n_trans; [apply (rs_settle _ _ _ _ _ _ _ _ _ "U-3"%string); simpl; tauto|]; simpl.
    eapply Relation_Operators.rt1n_trans; [apply (rs_settle _ _ _ _ _ _ _ _ _ "U-4"%string); simpl; tauto|]; simpl.
    eapply Relation_Operators.rt1n_trans; [apply (rs_settle _ _ _ _ _ _ _ _ _ "U-5"%string); simpl; tauto|]; simpl.
    eapply Relation_Operators.rt1n_trans; [apply (rs_settle _ _ _ _ _ _ _ _ _ "U-6"%string); simpl; tauto|]; simpl.
    eapply Relation_Operators.rt1n_trans; [apply rs_publish|]. apply Relation_Operators.rt1n_refl. }
  split; [exact Hrun|].
  destruct (refresh_keeps_failed_unit _ _ _ _ _ _ _ _ Hrun) as [_ Hpub].
  destruct (Hpub _ eq_refl) as [Hok [Hfail _]]. cbn [publish cachedUnitsData] in Hok, Hfail.
  split.
  - apply Hfail; [simpl; tauto|reflexivity].
  - apply (Hok "U-1"%string []); [simpl; tauto|reflexivity].
Defined.



(** A complete refresh from [state0] in which every unit loads no rows. *)
Lemma empty_refresh_run :
  refresh_runs Utc.local_ymd Utc.str_to_num Utc.num_to_string Utc.date_to_string
    (fun _ => Loaded []) 0%Z (Loading state0 [] units_all)
    (Published (publish Utc.local_ymd Utc.str_to_num Utc.num_to_string Utc.date_to_string
                  state0 empty_units 0%Z)).
Proof.
  unfold refresh_runs, units_all.
  eapply Relation_Operators.rt1n_trans; [apply (rs_settle _ _ _ _ _ _ _ _ _ "U-1"%string); simpl; tauto|]; simpl.
  eapply Relation_Operators.rt1n_trans; [apply (rs_settle _ _ _ _ _ _ _ _ _ "U-2"%string); simpl; tauto|]; simpl.
  eapply Relation_Operators.rt1n_trans; [apply (rs_settle _ _ _ _ _ _ _ _ _ "U-3"%string); simpl; tauto|]; simpl.
  eapply Relation_Operators.rt1n_trans; [apply (rs_settle _ _ _ _ _ _ _ _ _ "U-4"%string); simpl; tauto|]; simpl.
  eapply Relation_Operators.rt1n_trans; [apply (rs_settle _ _ _ _ _ _ _ _ _ "U-5"%string); simpl; tauto|]; simpl.
  eapply Relation_Operators.rt1n_trans; [apply (rs_settle _ _ _ _ _ _ _ _ _ "U-6"%string); simpl; tauto|]; simpl.
  eapply Relation_Operators.rt1n_trans; [apply rs_publish|]. apply Relation_Operators.rt1n_refl.
Qed.

(** The answer of [fetch_pages] on a table of one row, page by page. *)
Definition one_row : row := [("ArticleNumber", CStr "A1")]%string.

Definition one_row_db : database :=
  fun _ from _ => PageData (Some (firstn 1000 (skipn (Z.to_nat from) [one_row]))).

Lemma quality_data_separator_only_witness :
  commas_ws "," = true /\ has_text (Some ","%string) = true /\
  quality_data 1%nat one_row_db None None (Some ","%string) None None = Some (resp_ok (BRows [one_row])).
Proof.
  assert (H1 : commas_ws "," = true) by reflexivity.
  assert (H2 : has_text (Some ","%string) = true) by reflexivity.
  split; [exact H1|]. split; [exact H2|].
  destruct (quality_data_separator_only 1%nat one_row_db "," H1 H2) as [_ [H _]].
  rewrite H. reflexivity.
Defined.


Lemma login_padded_password_unusable_witness :
  (forall e, In e [{| le_id := 1%Z; le_password := " a" |}]%string -> exists c t, is_ws c = true /\
       (le_password e = String c t \/ le_password e = (t ++ String c EmptyString)%string)) /\
  status (login [{| le_id := 1%Z; le_password := " a" |}]%string None (JString " a")) <> 200%Z.
Proof.
  assert (H : forall e, In e [{| le_id := 1%Z; le_password := " a" |}]%string -> exists c t, is_ws c = true /\
       (le_password e = String c t \/ le_password e = (t ++ String c EmptyString)%string)).
  { intros e [<-|[]]. exists " "%char, "a"%string. split; [reflexivity|left; reflexivity]. }
  split; [exact H|].
  exact (login_padded_password_unusable _ None (JString " a") H).
Defined.


Lemma cors_origin_policy_witness :
  ["http://x"]%string <> [] /\ Forall (fun x => no_comma x = true) ["http://x"]%string /\
  join_comma ["http://x"]%string <> EmptyString /\
  cors_origin (allowed_origins (Some "http://x"%string)) (Some "http://x"%string) = CorsAllow.
Proof.
  assert (H1 : ["http://x"]%string <> []) by discriminate.
  assert (H2 : Forall (fun x => no_comma x = true) ["http://x"]%string) by (repeat constructor).
  assert (H3 : join_comma ["http://x"]%string <> EmptyString) by discriminate.
  split; [exact H1|]. split; [exact H2|]. split; [exact H3|].
  destruct (cors_origin_policy ["http://x"]%string "http://x" H1 H2 H3) as [_ [H _]].
  apply H. right. left. left. reflexivity.
Defined.

Lemma unique_article_numbers_spec_witness :
  exists L, unique_article_numbers Utc.num_to_string Utc.date_to_string 1%nat one_row_db (Some "A"%string) = Some (resp_ok (BValues L)) /\
    set_values_props Utc.num_to_string Utc.date_to_string
      (fun r => prop r "ArticleNumber"%string) [one_row] L.
Proof.
  apply (unique_article_numbers_spec Utc.num_to_string Utc.date_to_string 1%nat one_row_db "A" [one_row]).
  - discriminate.
  - intros from _. reflexivity.
  - simpl. lia.
Defined.

Lemma data_by_article_rows_witness :
  data_by_article 1%nat one_row_db (Some "A1"%string) = Some (resp_ok (BRows [one_row])).
Proof.
  apply (data_by_article_rows 1%nat one_row_db "A1" [one_row]).
  - discriminate.
  - intros from _. reflexivity.
  - simpl. lia.
Defined.

Lemma fetch_pages_whole_table_witness :
  fetch_pages 1%nat (one_row_db (uqe_query "*" [])) (@app row) 0%Z [] = Some (inr [one_row]).
Proof.
  rewrite (fetch_pages_whole_table (list row) (one_row_db (uqe_query "*" [])) (@app row) [one_row] [] 1%nat).
  - reflexivity.
  - intros from _. reflexivity.
  - apply app_nil_r.
  - intros b x y. symmetry. apply app_assoc.
Defined.

Lemma available_filters_unit_selection_witness :
  "U-1"%string <> EmptyString /\
  available_filters Utc.local_ymd Utc.num_to_string Utc.date_to_string
    [("U-1", []); ("U-2", [Utc.shift3_row])]%string (Some "U-1"%string)
  = FiltersOk {| fo_dates := []; fo_shifts := []; fo_units := units_all; fo_machines := [];
                 fo_articles := []; fo_articleNames := []; fo_lotIds := [] |}.
Proof.
  assert (Hu : "U-1"%string <> EmptyString) by discriminate.
  split; [exact Hu|].
  destruct (available_filters_unit_selection Utc.local_ymd Utc.num_to_string Utc.date_to_string
              [("U-1", []); ("U-2", [Utc.shift3_row])]%string "U-1" Hu) as [_ [H _]].
  apply H. reflexivity.
Defined.

Lemma available_filters_lists_witness :
  exists o, available_filters Utc.local_ymd Utc.num_to_string Utc.date_to_string
              [("U-1", Utc.three_days)]%string None = FiltersOk o /\
            fo_units o = units_all.
Proof.
  destruct (available_filters Utc.local_ymd Utc.num_to_string Utc.date_to_string
              [("U-1", Utc.three_days)]%string None) as [o|e] eqn:E;
    [|vm_compute in E; discriminate E].
  exists o. split; [reflexivity|].
  destruct (available_filters_lists Utc.local_ymd Utc.num_to_string Utc.date_to_string _ _ _ E)
    as (rs & _ & _ & Hu & _).
  exact Hu.
Defined.

Lemma available_filters_default_date_witness :
  exists o, available_filters Utc.local_ymd Utc.num_to_string Utc.date_to_string
              [("U-1", Utc.three_days); ("U-2", []); ("U-3", []); ("U-4", []); ("U-5", []); ("U-6", [])]%string
              None = FiltersOk o /\
            t_date (resolve Utc.local_ymd Utc.str_to_num
                      [("U-1", Utc.three_days); ("U-2", []); ("U-3", []); ("U-4", []); ("U-5", []); ("U-6", [])]%string
                      None None None false) = hd_error (fo_dates o).
Proof.
  destruct (available_filters_default_date Utc.local_ymd Utc.str_to_num Utc.num_to_string Utc.date_to_string
              [("U-1", Utc.three_days); ("U-2", []); ("U-3", []); ("U-4", []); ("U-5", []); ("U-6", [])]%string
              None) as (o & Ho & _ & H1 & _).
  - reflexivity.
  - left. reflexivity.
  - exists o. split; [exact Ho|]. apply H1.
Defined.

Lemma refresh_cache_keys_witness :
  lastFetchTime (publish Utc.local_ymd Utc.str_to_num Utc.num_to_string Utc.date_to_string
                   state0 empty_units 0%Z) = Some 0%Z /\
  Permutation (map fst (cachedUnitsData (publish Utc.local_ymd Utc.str_to_num Utc.num_to_string
                                           Utc.date_to_string state0 empty_units 0%Z))) units_all.
Proof.
  destruct (refresh_cache_keys Utc.local_ymd Utc.str_to_num Utc.num_to_string Utc.date_to_string
              _ _ _ _ empty_refresh_run) as (Hp & _ & _ & Ht).
  split; [exact Ht|exact Hp].
Defined.

Lemma live_endpoint_dispatch_witness :
  live_request Utc.local_ymd Utc.str_to_num Utc.num_to_string Utc.date_to_string
    (fun _ => Loaded []) 0%Z None None None None None state0
    (getQuantumData Utc.local_ymd Utc.str_to_num Utc.num_to_string Utc.date_to_string
       empty_units None None None None false)
    (publish Utc.local_ymd Utc.str_to_num Utc.num_to_string Utc.date_to_string state0 empty_units 0%Z) /\
  lastFetchTime (publish Utc.local_ymd Utc.str_to_num Utc.num_to_string Utc.date_to_string
                   state0 empty_units 0%Z) = Some 0%Z.
Proof.
  assert (H : live_request Utc.local_ymd Utc.str_to_num Utc.num_to_string Utc.date_to_string
    (fun _ => Loaded []) 0%Z None None None None None state0
    (getQuantumData Utc.local_ymd Utc.str_to_num Utc.num_to_string Utc.date_to_string
       empty_units None None None None false)
    (publish Utc.local_ymd Utc.str_to_num Utc.num_to_string Utc.date_to_string state0 empty_units 0%Z)).
  { exact (live_update Utc.local_ymd Utc.str_to_num Utc.num_to_string Utc.date_to_string
             (fun _ => Loaded []) 0%Z None None None None None state0 _ eq_refl eq_refl
             empty_refresh_run). }
  split; [exact H|].
  destruct (live_endpoint_dispatch _ _ _ _ _ _ _ _ _ _ _ _ _ _ H) as [_ H2].
  destruct (H2 eq_refl) as [_ [_ H3]]. destruct (H3 eq_refl) as [_ [Ht _]]. exact Ht.
Defined.


Lemma format_ymd_chronological_witness :
  String.compare (format_ymd (2024, 1, 2)%Z) (format_ymd (2024, 1, 10)%Z) = Lt.
Proof.
  rewrite (format_ymd_chronological 2024%Z 1%Z 2%Z 2024%Z 1%Z 10%Z) by lia. reflexivity.
Defined.
